(** * IMAP synchronisation manager (imapSync.ts): shallow embedding

    The development follows the TypeScript source of [ImapSyncManager]:
    the message normaliser inside [processEmail], the per-account callbacks
    ([setupEventHandlers], [startWatchdog], [fetchNewEmails], [restartIdle],
    [handleReconnect], [cleanupTimers]) and the manager entry points
    ([startImap], [stopImap], [getAccountStatus]).

    JavaScript objects that are shared by reference (the [ImapAccount]
    captured by every callback, the [Imap] connections, timers and pending
    library callbacks) live in an explicit store, so that aliasing between
    the registry [accounts] and the closures is visible. [processEmail] is
    asynchronous and nothing awaits it: each call is embedded turn by
    turn, suspended at its [await]s, so that calls interleave with one
    another and with the other callbacks as the event loop allows. *)

From stdpp Require Import gmap strings list pretty.
From Stdlib Require Import ZArith QArith Lia.

Local Open Scope Z_scope.
Local Open Scope string_scope.

(** ** JavaScript truthiness on optional strings and numbers *)

(** [undefined], [null] and the empty string are falsy. *)
Definition truthy (o : option string) : bool :=
  match o with
  | Some s => negb (String.eqb s "")
  | None => false
  end.

(** [a || b] on possibly-undefined strings. *)
Definition js_or (a b : option string) : option string :=
  if truthy a then a else b.

(** [a || d] with a string literal on the right. *)
Definition or_default (a : option string) (d : string) : string :=
  match a with
  | Some s => if String.eqb s "" then d else s
  | None => d
  end.

(** [n || 0] on a possibly-undefined number. *)
Definition num_or_zero (n : option Z) : Z :=
  match n with
  | Some z => z
  | None => 0
  end.

(** ** Parsed mail (the fields of mailparser's [ParsedMail] that are read) *)

(** An address object as [toArray] looks at it: only [text] and [address]. *)
Record AddrEntry := {
  a_text : option string;
  a_address : option string
}.

(** A header such as [parsed.to]: absent, one object, or an array whose
    elements may themselves be null (the source guards with [a?.]). *)
Inductive AddrField :=
| AddrAbsent
| AddrOne (e : AddrEntry)
| AddrMany (l : list (option AddrEntry)).

Record Attachment := {
  att_filename : option string;
  att_contentType : option string;
  att_size : option Z
}.

Record ParsedMail := {
  pm_messageId : option string;
  pm_subject : option string;
  pm_from : option AddrEntry;
  pm_to : AddrField;
  pm_cc : AddrField;
  pm_bcc : AddrField;
  pm_date : option Z;
  pm_text : option string;
  pm_html : option string;    (* [None] when [typeof parsed.html] is not 'string' *)
  pm_attachments : option (list Attachment)
}.

(** ** Normalised record ([EmailDocument] of search.ts) *)

Record AttachmentMeta := {
  am_filename : string;
  am_contentType : string;
  am_size : Z
}.

Record EmailDocument := {
  ed_id : string;
  ed_accountId : string;
  ed_messageId : string;
  ed_subject : string;
  ed_from : string;
  ed_to : list string;
  ed_cc : option (list string);
  ed_bcc : option (list string);
  ed_date : Z;
  ed_body : string;
  ed_htmlBody : option string;
  ed_attachments : option (list AttachmentMeta);
  ed_flags : list string;
  ed_uid : N;
  ed_folder : string;
  ed_indexedAt : Z
}.

Record ClassificationRequest := {
  cr_emailId : string;
  cr_accountId : string;
  cr_subject : string;
  cr_body : string;
  cr_from : string;
  cr_to : list string
}.

(** ** The normaliser of [processEmail] *)

(** [a?.text || a?.address] for one array element. *)
Definition entry_value (e : option AddrEntry) : option string :=
  match e with
  | Some a => js_or (a_text a) (a_address a)
  | None => None
  end.

(** [.filter(Boolean)] on the mapped values. *)
Fixpoint filter_Boolean (l : list (option string)) : list string :=
  match l with
  | [] => []
  | o :: l' =>
      if truthy o
      then match o with
           | Some s => s :: filter_Boolean l'
           | None => filter_Boolean l'
           end
      else filter_Boolean l'
  end.

Definition toArray (addr : AddrField) : list string :=
  match addr with
  | AddrAbsent => []
  | AddrMany l => filter_Boolean (map entry_value l)
  | AddrOne e => filter_Boolean [js_or (a_text e) (a_address e)]
  end.

(** [x.length ? x : undefined] *)
Definition nonempty_or_undefined (l : list string) : option (list string) :=
  match l with
  | [] => None
  | _ :: _ => Some l
  end.

Definition attachment_meta (att : Attachment) : AttachmentMeta :=
  {| am_filename := or_default (att_filename att) "unknown";
     am_contentType := or_default (att_contentType att) "application/octet-stream";
     am_size := num_or_zero (att_size att) |}.

(** [`${account.id}-${parsed.messageId || seqno}`]; the sequence number is
    printed in decimal, as a template literal prints an integer. *)
Definition compositeId (accountId : string) (messageId : option string) (seqno : N) : string :=
  accountId ++ "-" ++ or_default messageId (pretty seqno).

(** The object literal [emailDoc]. [tDate] and [tIndexed] are the two
    readings of [new Date()]. *)
Definition emailDoc (accountId : string) (parsed : ParsedMail) (seqno : N)
    (tDate tIndexed : Z) : EmailDocument :=
  let to := toArray (pm_to parsed) in
  let cc := toArray (pm_cc parsed) in
  let bcc := toArray (pm_bcc parsed) in
  {| ed_id := compositeId accountId (pm_messageId parsed) seqno;
     ed_accountId := accountId;
     ed_messageId := or_default (pm_messageId parsed) "";
     ed_subject := or_default (pm_subject parsed) "No Subject";
     ed_from := or_default (match pm_from parsed with
                            | Some f => a_text f
                            | None => None
                            end) "";
     ed_to := to;
     ed_cc := nonempty_or_undefined cc;
     ed_bcc := nonempty_or_undefined bcc;
     ed_date := match pm_date parsed with Some d => d | None => tDate end;
     ed_body := or_default (pm_text parsed) "";
     ed_htmlBody := pm_html parsed;
     ed_attachments := option_map (map attachment_meta) (pm_attachments parsed);
     ed_flags := [];
     ed_uid := seqno;
     ed_folder := "INBOX";
     ed_indexedAt := tIndexed |}.

Definition classificationRequest (d : EmailDocument) : ClassificationRequest :=
  {| cr_emailId := ed_id d;
     cr_accountId := ed_accountId d;
     cr_subject := ed_subject d;
     cr_body := ed_body d;
     cr_from := ed_from d;
     cr_to := ed_to d |}.

(** ** Configuration and account objects *)

(** An optional property of an object as a spread sees it: not an own
    property of the object, an own property whose value is [undefined], or
    an own property that has a value. *)
Inductive Slot (A : Type) :=
| NotOwn
| OwnUndefined
| Own (v : A).

Arguments NotOwn {A}.
Arguments OwnUndefined {A}.
Arguments Own {A} v.

Record Keepalive := {
  ka_interval : Slot Z;
  ka_idleInterval : Slot Z;
  ka_forceNoop : Slot bool
}.

(** [ImapConfig]; [tlsOptions] is an opaque pass-through value and is left out. *)
Record ImapConfig := {
  user : string;
  password : string;
  host : string;
  port : option Z;
  tls : option bool;
  keepalive : option Keepalive
}.

(** The options object handed to [new Imap(...)]. *)
Record ImapOptions := {
  io_user : string;
  io_password : string;
  io_host : string;
  io_port : Z;
  io_tls : bool;
  io_keepalive : option Keepalive
}.

Record ImapAccount := {
  acct_id : string;
  config : ImapConfig;
  connection : option nat;          (* reference to an [Imap] object *)
  isConnected : bool;
  reconnectAttempts : Z;
  maxReconnectAttempts : Z;
  reconnectDelay : Z;
  watchdogTimer : option nat;       (* timer handle *)
  idleTimer : option nat            (* timer handle *)
}.

Definition WATCHDOG_INTERVAL : Z := 29 * 60 * 1000.
Definition IDLE_TIMEOUT : Z := 30 * 60 * 1000.
Definition MAX_RECONNECT_ATTEMPTS : Z := 5.
Definition INITIAL_RECONNECT_DELAY : Z := 1000.

Definition set_connection (c : option nat) (a : ImapAccount) : ImapAccount :=
  {| acct_id := acct_id a; config := config a; connection := c;
     isConnected := isConnected a; reconnectAttempts := reconnectAttempts a;
     maxReconnectAttempts := maxReconnectAttempts a;
     reconnectDelay := reconnectDelay a;
     watchdogTimer := watchdogTimer a; idleTimer := idleTimer a |}.

Definition set_isConnected (b : bool) (a : ImapAccount) : ImapAccount :=
  {| acct_id := acct_id a; config := config a; connection := connection a;
     isConnected := b; reconnectAttempts := reconnectAttempts a;
     maxReconnectAttempts := maxReconnectAttempts a;
     reconnectDelay := reconnectDelay a;
     watchdogTimer := watchdogTimer a; idleTimer := idleTimer a |}.

Definition set_reconnectAttempts (n : Z) (a : ImapAccount) : ImapAccount :=
  {| acct_id := acct_id a; config := config a; connection := connection a;
     isConnected := isConnected a; reconnectAttempts := n;
     maxReconnectAttempts := maxReconnectAttempts a;
     reconnectDelay := reconnectDelay a;
     watchdogTimer := watchdogTimer a; idleTimer := idleTimer a |}.

Definition set_reconnectDelay (d : Z) (a : ImapAccount) : ImapAccount :=
  {| acct_id := acct_id a; config := config a; connection := connection a;
     isConnected := isConnected a; reconnectAttempts := reconnectAttempts a;
     maxReconnectAttempts := maxReconnectAttempts a;
     reconnectDelay := d;
     watchdogTimer := watchdogTimer a; idleTimer := idleTimer a |}.

Definition set_watchdogTimer (t : option nat) (a : ImapAccount) : ImapAccount :=
  {| acct_id := acct_id a; config := config a; connection := connection a;
     isConnected := isConnected a; reconnectAttempts := reconnectAttempts a;
     maxReconnectAttempts := maxReconnectAttempts a;
     reconnectDelay := reconnectDelay a;
     watchdogTimer := t; idleTimer := idleTimer a |}.

Definition set_idleTimer (t : option nat) (a : ImapAccount) : ImapAccount :=
  {| acct_id := acct_id a; config := config a; connection := connection a;
     isConnected := isConnected a; reconnectAttempts := reconnectAttempts a;
     maxReconnectAttempts := maxReconnectAttempts a;
     reconnectDelay := reconnectDelay a;
     watchdogTimer := watchdogTimer a; idleTimer := t |}.

(** One property of [{ ...defaults, ...config.keepalive }]: the spread
    copies every own property of [config.keepalive], also one whose value
    is [undefined], over the default. *)
Definition spread_over {A} (d : A) (o : Slot A) : Slot A :=
  match o with
  | NotOwn => Own d
  | OwnUndefined => OwnUndefined
  | Own v => Own v
  end.

(** The keepalive literal of [startImap]; spreading an absent
    [config.keepalive] copies nothing. *)
Definition merge_keepalive (k : option Keepalive) : Keepalive :=
  match k with
  | None =>
      {| ka_interval := Own 10000; ka_idleInterval := Own 300000;
         ka_forceNoop := Own true |}
  | Some k =>
      {| ka_interval := spread_over 10000 (ka_interval k);
         ka_idleInterval := spread_over 300000 (ka_idleInterval k);
         ka_forceNoop := spread_over true (ka_forceNoop k) |}
  end.

(** The object literal [account] built by [startImap]. *)
Definition newAccount (accountId : string) (cfg : ImapConfig) : ImapAccount :=
  {| acct_id := accountId;
     config := {| user := user cfg; password := password cfg; host := host cfg;
                  port := port cfg; tls := tls cfg;
                  keepalive := Some (merge_keepalive (keepalive cfg)) |};
     connection := None;
     isConnected := false;
     reconnectAttempts := 0;
     maxReconnectAttempts := MAX_RECONNECT_ATTEMPTS;
     reconnectDelay := INITIAL_RECONNECT_DELAY;
     watchdogTimer := None;
     idleTimer := None |}.

(** The argument of [new Imap(...)] in [connectAccount]. *)
Definition imapOptions (cfg : ImapConfig) : ImapOptions :=
  {| io_user := user cfg;
     io_password := password cfg;
     io_host := host cfg;
     io_port := match port cfg with
                | Some p => if Z.eqb p 0 then 993 else p
                | None => 993
                end;
     io_tls := match tls cfg with Some false => false | _ => true end;
     io_keepalive := keepalive cfg |}.

(** ** The store of one account: connections, timers, pending callbacks *)

(** An [Imap] object created by [connectAccount]. The three flags say
    whether the listener registered with [once] is still installed; the
    [on('mail')] and [on('expunge')] listeners stay for the object's life. *)
Record Conn := {
  c_opts : ImapOptions;
  c_ready : bool;
  c_error : bool;
  c_end : bool
}.

Inductive TimerAction :=
| TWatchdog      (* the [setInterval] callback of [startWatchdog] *)
| TIdleRestart   (* the [setTimeout] callback of [restartIdle] *)
| TReconnect.    (* the [setTimeout] callback of [handleReconnect] *)

Record Timer := {
  t_action : TimerAction;
  t_delay : Z;
  t_repeat : bool
}.

(** Callbacks handed to the connection library and not yet completed. *)
Inductive Pending :=
| PNoop
| POpenBox
| PSearch
| PFetch (ids : list N) (error_armed end_armed : bool).

(** What the awaited calls of one [processEmail] run into: the two clock
    readings, and whether [indexEmail] and [classifyAndUpdateEmail] resolve. *)
Record MsgIO := {
  tDate : Z;
  tIndexed : Z;
  indexOk : bool;
  classifyOk : bool
}.

(** A call of [processEmail] suspended at one of its three [await]s.
    Nothing awaits the promise that [processEmail] returns: the call goes
    on whenever the awaited promise settles, in a later turn of the event
    loop. *)
Inductive Task :=
| AwaitParse (rawEmail : string) (seqno : N) (io : MsgIO)
| AwaitIndex (d : EmailDocument) (io : MsgIO)
| AwaitClassify (r : ClassificationRequest) (io : MsgIO).

Inductive LogMsg :=
| LogCreateFailed | LogImapError | LogNoopFailed | LogOpenBoxFailed
| LogSearchFailed | LogFetchError | LogFetchFailed | LogProcessFailed
| LogClassifyFailed | LogMaxReconnect.

(** What the code does to the outside world, oldest first. *)
Inductive Effect :=
| EConnect (c : nat)
| EOpenBox (c : nat)
| EIdle (c : nat)
| EIdleStop (c : nat)
| ENoop (c : nat)
| ESearch (c : nat)
| EFetch (c : nat) (ids : list N)
| EEnd (c : nat)
| ESetTimer (t : nat) (a : TimerAction) (delay : Z)
| EClearTimer (t : nat)
| EIndexed (d : EmailDocument)
| EClassified (r : ClassificationRequest)
| ELogError (m : LogMsg).

(** How the body of the [try] in [connectAccount] ends. *)
Inductive ConnectOutcome :=
| ConnectOk
| CtorThrows       (* [new Imap(...)] throws *)
| ConnectThrows.   (* [imap.connect()] throws *)

(** How the body of the [try] in [fetchNewEmails] ends. *)
Inductive FetchOutcome :=
| IssueOk
| IdleStopThrows
| SearchThrows.

(** Outcome of the search callback: [err], or [results] (possibly null). *)
Inductive SearchResult :=
| SearchErr
| SearchResults (results : option (list N)).

(** Events delivered by the event loop to the callbacks of one account.
    [FetchMessage] is the end of the body stream of one message of a
    fetch, where [processEmail] is called; [io] is what the awaited calls
    of that [processEmail] run into when they settle. [ParseDone],
    [IndexDone] and [ClassifyDone] are the turns in which the promise that
    the call [p] of [processEmail] awaits has settled. *)
Inductive Event :=
| ConnReady (c : nat)
| ConnError (c : nat)
| ConnEnd (c : nat)
| ConnMail (c : nat) (o : FetchOutcome)
| ConnExpunge (c : nat) (seqno : N)
| TimerFire (t : nat) (o : ConnectOutcome)
| NoopDone (p : nat) (err : bool)
| OpenBoxDone (p : nat) (err : bool)
| SearchDone (p : nat) (r : SearchResult)
| FetchMessage (f : nat) (seqno : N) (rawEmail : string) (io : MsgIO)
| FetchError (f : nat)
| FetchEnd (f : nat)
| ParseDone (p : nat)
| IndexDone (p : nat)
| ClassifyDone (p : nat).

(** [tasks] are the calls of [processEmail] that have not finished.
    [unhandled] lists the 'error' events that were emitted when the [once]
    listener of the emitter had already run: this program has no listener
    left for them, none of its code runs, and Node's emitter throws the
    error to whoever emitted it. *)
Record Session := {
  account : ImapAccount;
  conns : list Conn;
  timers : list (nat * Timer);
  nextTimer : nat;
  pending : list (nat * Pending);
  nextReq : nat;
  tasks : list (nat * Task);
  nextTask : nat;
  unhandled : list Event;
  effects : list Effect
}.

Definition upd_account (f : ImapAccount → ImapAccount) (s : Session) : Session :=
  {| account := f (account s); conns := conns s; timers := timers s;
     nextTimer := nextTimer s; pending := pending s; nextReq := nextReq s;
     tasks := tasks s; nextTask := nextTask s; unhandled := unhandled s;
     effects := effects s |}.

Definition emit (e : Effect) (s : Session) : Session :=
  {| account := account s; conns := conns s; timers := timers s;
     nextTimer := nextTimer s; pending := pending s; nextReq := nextReq s;
     tasks := tasks s; nextTask := nextTask s; unhandled := unhandled s;
     effects := effects s ++ [e] |}.

Definition set_conns (cs : list Conn) (s : Session) : Session :=
  {| account := account s; conns := cs; timers := timers s;
     nextTimer := nextTimer s; pending := pending s; nextReq := nextReq s;
     tasks := tasks s; nextTask := nextTask s; unhandled := unhandled s;
     effects := effects s |}.

Definition set_timers (ts : list (nat * Timer)) (s : Session) : Session :=
  {| account := account s; conns := conns s; timers := ts;
     nextTimer := nextTimer s; pending := pending s; nextReq := nextReq s;
     tasks := tasks s; nextTask := nextTask s; unhandled := unhandled s;
     effects := effects s |}.

Definition set_pending (ps : list (nat * Pending)) (s : Session) : Session :=
  {| account := account s; conns := conns s; timers := timers s;
     nextTimer := nextTimer s; pending := ps; nextReq := nextReq s;
     tasks := tasks s; nextTask := nextTask s; unhandled := unhandled s;
     effects := effects s |}.

Definition set_tasks (ts : list (nat * Task)) (s : Session) : Session :=
  {| account := account s; conns := conns s; timers := timers s;
     nextTimer := nextTimer s; pending := pending s; nextReq := nextReq s;
     tasks := ts; nextTask := nextTask s; unhandled := unhandled s;
     effects := effects s |}.

(** The emitter finds no listener for an 'error' event and throws it. *)
Definition throw_unhandled (e : Event) (s : Session) : Session :=
  {| account := account s; conns := conns s; timers := timers s;
     nextTimer := nextTimer s; pending := pending s; nextReq := nextReq s;
     tasks := tasks s; nextTask := nextTask s; unhandled := unhandled s ++ [e];
     effects := effects s |}.

(** Association lists keyed by handle. *)
Fixpoint assoc {A} (k : nat) (l : list (nat * A)) : option A :=
  match l with
  | [] => None
  | (k', v) :: l' => if Nat.eqb k' k then Some v else assoc k l'
  end.

Fixpoint unassoc {A} (k : nat) (l : list (nat * A)) : list (nat * A) :=
  match l with
  | [] => []
  | (k', v) :: l' => if Nat.eqb k' k then unassoc k l' else (k', v) :: unassoc k l'
  end.

(** [setTimeout] / [setInterval]: the handle returned is [nextTimer s]. *)
Definition addTimer (a : TimerAction) (delay : Z) (rep : bool) (s : Session) : Session :=
  let t := nextTimer s in
  emit (ESetTimer t a delay)
    {| account := account s; conns := conns s;
       timers := timers s ++ [(t, {| t_action := a; t_delay := delay; t_repeat := rep |})];
       nextTimer := S t; pending := pending s; nextReq := nextReq s;
       tasks := tasks s; nextTask := nextTask s; unhandled := unhandled s;
       effects := effects s |}.

(** [clearTimeout] / [clearInterval]. *)
Definition clearTimer (t : nat) (s : Session) : Session :=
  emit (EClearTimer t) (set_timers (unassoc t (timers s)) s).

(** Hand a callback to the connection library. *)
Definition addPending (p : Pending) (s : Session) : Session :=
  {| account := account s; conns := conns s; timers := timers s;
     nextTimer := nextTimer s; pending := pending s ++ [(nextReq s, p)];
     nextReq := S (nextReq s);
     tasks := tasks s; nextTask := nextTask s; unhandled := unhandled s;
     effects := effects s |}.

(** A call of [processEmail] reaches its first [await]. *)
Definition addTask (t : Task) (s : Session) : Session :=
  {| account := account s; conns := conns s; timers := timers s;
     nextTimer := nextTimer s; pending := pending s; nextReq := nextReq s;
     tasks := tasks s ++ [(nextTask s, t)]; nextTask := S (nextTask s);
     unhandled := unhandled s; effects := effects s |}.

(** The call [p] moves on to its next [await]. *)
Definition replace_task (p : nat) (t : Task) (s : Session) : Session :=
  set_tasks (map (fun e => if Nat.eqb (fst e) p then (p, t) else e) (tasks s)) s.

(** The call [p] returns. *)
Definition drop_task (p : nat) (s : Session) : Session :=
  set_tasks (unassoc p (tasks s)) s.

(** A session whose account object has just been created. *)
Definition fresh (a : ImapAccount) : Session :=
  {| account := a; conns := []; timers := []; nextTimer := 0%nat;
     pending := []; nextReq := 0%nat; tasks := []; nextTask := 0%nat;
     unhandled := []; effects := [] |}.

(** [account.isConnected && account.connection], giving the connection. *)
Definition live_connection (s : Session) : option nat :=
  if isConnected (account s) then connection (account s) else None.

(** ** The private methods of [ImapSyncManager] *)

Definition cleanupTimers (s : Session) : Session :=
  let s1 :=
    match watchdogTimer (account s) with
    | Some h => upd_account (set_watchdogTimer None) (clearTimer h s)
    | None => s
    end in
  match idleTimer (account s1) with
  | Some h => upd_account (set_idleTimer None) (clearTimer h s1)
  | None => s1
  end.

Definition handleReconnect (s : Session) : Session :=
  if (maxReconnectAttempts (account s) <=? reconnectAttempts (account s))%Z
  then emit (ELogError LogMaxReconnect) s
  else
    let s1 := upd_account
                (fun a => set_reconnectAttempts (reconnectAttempts a + 1) a) s in
    let delay := reconnectDelay (account s1)
                 * 2 ^ (reconnectAttempts (account s1) - 1) in
    addTimer TReconnect delay false (cleanupTimers s1).

Definition connectAccount (o : ConnectOutcome) (s : Session) : Session :=
  match o with
  | CtorThrows => handleReconnect (emit (ELogError LogCreateFailed) s)
  | _ =>
      let c := length (conns s) in
      let imap := {| c_opts := imapOptions (config (account s));
                     c_ready := true; c_error := true; c_end := true |} in
      let s1 := upd_account (set_connection (Some c))
                  (set_conns (conns s ++ [imap]) s) in
      match o with
      | ConnectOk => emit (EConnect c) s1
      | _ => handleReconnect
               (emit (ELogError LogCreateFailed) (emit (EConnect c) s1))
      end
  end.

Definition startWatchdog (s : Session) : Session :=
  let t := nextTimer s in
  upd_account (set_watchdogTimer (Some t))
    (addTimer TWatchdog WATCHDOG_INTERVAL true s).

Definition startIdleMonitoring (s : Session) : Session :=
  match live_connection s with
  | None => s
  | Some c => addPending POpenBox (emit (EOpenBox c) s)
  end.

Definition restartIdle (s : Session) : Session :=
  match live_connection s with
  | None => s
  | Some _ => addTimer TIdleRestart 1000 false s
  end.

Definition fetchNewEmails (o : FetchOutcome) (s : Session) : Session :=
  match live_connection s with
  | None => s
  | Some c =>
      match o with
      | IdleStopThrows => restartIdle (emit (ELogError LogFetchFailed) s)
      | SearchThrows =>
          restartIdle (emit (ELogError LogFetchFailed) (emit (EIdleStop c) s))
      | IssueOk => addPending PSearch (emit (ESearch c) (emit (EIdleStop c) s))
      end
  end.

(** [results.slice(-10)] *)
Definition slice_last10 (results : list N) : list N :=
  drop (length results - 10)%nat results.

Section ImapSync.

(** mailparser's [simpleParser]; [None] when the promise rejects. *)
Variable simpleParser : string → option ParsedMail.

(** [processEmail] from its call to its return, as it runs when no other
    callback takes a turn while it is suspended. *)
Definition processEmail (rawEmail : string) (seqno : N) (io : MsgIO)
    (s : Session) : Session :=
  match simpleParser rawEmail with
  | None => emit (ELogError LogProcessFailed) s
  | Some parsed =>
      let d := emailDoc (acct_id (account s)) parsed seqno (tDate io) (tIndexed io) in
      if indexOk io
      then
        let s1 := emit (EIndexed d) s in
        if classifyOk io
        then emit (EClassified (classificationRequest d)) s1
        else emit (ELogError LogClassifyFailed) s1
      else emit (ELogError LogProcessFailed) s
  end.

(** [processEmail] turn by turn. The call runs to
    [await simpleParser(rawEmail)] and is suspended there. *)
Definition processEmail_call (rawEmail : string) (seqno : N) (io : MsgIO)
    (s : Session) : Session :=
  addTask (AwaitParse rawEmail seqno io) s.

(** [simpleParser] has settled: on rejection the [catch] logs and the call
    returns; otherwise the record is built, from the account id and the
    clock as they are now, and the call is suspended at
    [await indexEmail(emailDoc)]. *)
Definition processEmail_parsed (p : nat) (rawEmail : string) (seqno : N)
    (io : MsgIO) (s : Session) : Session :=
  match simpleParser rawEmail with
  | None => emit (ELogError LogProcessFailed) (drop_task p s)
  | Some parsed =>
      let d := emailDoc (acct_id (account s)) parsed seqno (tDate io) (tIndexed io) in
      replace_task p (AwaitIndex d io) s
  end.

(** [indexEmail] has settled: on rejection the outer [catch] logs and the
    call returns; otherwise the sink has the record and the call is
    suspended at [await emailClassifier.classifyAndUpdateEmail(...)]. *)
Definition processEmail_indexed (p : nat) (d : EmailDocument) (io : MsgIO)
    (s : Session) : Session :=
  if indexOk io
  then replace_task p (AwaitClassify (classificationRequest d) io)
         (emit (EIndexed d) s)
  else emit (ELogError LogProcessFailed) (drop_task p s).

(** [classifyAndUpdateEmail] has settled: on rejection the inner [catch]
    logs; either way the call returns. *)
Definition processEmail_classified (p : nat) (r : ClassificationRequest)
    (io : MsgIO) (s : Session) : Session :=
  if classifyOk io
  then emit (EClassified r) (drop_task p s)
  else emit (ELogError LogClassifyFailed) (drop_task p s).

(** The listeners installed by [setupEventHandlers]. *)
Definition on_ready (s : Session) : Session :=
  let s1 := upd_account
              (fun a => set_reconnectDelay INITIAL_RECONNECT_DELAY
                          (set_reconnectAttempts 0 (set_isConnected true a))) s in
  startIdleMonitoring (startWatchdog s1).

Definition on_error (s : Session) : Session :=
  handleReconnect
    (upd_account (set_isConnected false) (emit (ELogError LogImapError) s)).

Definition on_end (s : Session) : Session :=
  cleanupTimers (upd_account (set_isConnected false) s).

(** The interval callback of [startWatchdog]. *)
Definition watchdog_tick (s : Session) : Session :=
  match live_connection s with
  | None => s
  | Some c => addPending PNoop (emit (ENoop c) s)
  end.

Definition noop_callback (err : bool) (s : Session) : Session :=
  if err
  then handleReconnect
         (upd_account (set_isConnected false) (emit (ELogError LogNoopFailed) s))
  else s.

(** The callback of [openBox] in [startIdleMonitoring]; [idle()] is
    called on whatever [account.connection] holds by then. *)
Definition openBox_callback (err : bool) (s : Session) : Session :=
  if err then emit (ELogError LogOpenBoxFailed) s
  else match connection (account s) with
       | Some c => emit (EIdle c) s
       | None => s
       end.

(** The callback of [search] in [fetchNewEmails]. *)
Definition search_callback (r : SearchResult) (s : Session) : Session :=
  match r with
  | SearchErr => restartIdle (emit (ELogError LogSearchFailed) s)
  | SearchResults (Some (x :: xs)) =>
      match connection (account s) with
      | Some c =>
          let ids := slice_last10 (x :: xs) in
          addPending (PFetch ids true true) (emit (EFetch c ids) s)
      | None => s
      end
  | SearchResults _ => restartIdle s
  end.

(** The timeout callback of [restartIdle]. *)
Definition idle_restart_tick (s : Session) : Session :=
  match live_connection s with
  | None => s
  | Some c => emit (EIdle c) s
  end.

Definition on_timer (t : nat) (o : ConnectOutcome) (s : Session) : Session :=
  match assoc t (timers s) with
  | None => s
  | Some tm =>
      let s1 := if t_repeat tm then s else set_timers (unassoc t (timers s)) s in
      match t_action tm with
      | TWatchdog => watchdog_tick s1
      | TIdleRestart => idle_restart_tick s1
      | TReconnect => connectAccount o s1
      end
  end.

Definition set_conn_flags (c : nat) (f : Conn → Conn) (s : Session) : Session :=
  set_conns (alter f c (conns s)) s.

Definition disarm_ready (k : Conn) : Conn :=
  {| c_opts := c_opts k; c_ready := false; c_error := c_error k; c_end := c_end k |}.
Definition disarm_error (k : Conn) : Conn :=
  {| c_opts := c_opts k; c_ready := c_ready k; c_error := false; c_end := c_end k |}.
Definition disarm_end (k : Conn) : Conn :=
  {| c_opts := c_opts k; c_ready := c_ready k; c_error := c_error k; c_end := false |}.

Definition replace_pending (p : nat) (v : Pending) (s : Session) : Session :=
  set_pending (map (fun e => if Nat.eqb (fst e) p then (p, v) else e) (pending s)) s.

(** One turn of the event loop for this account. An event for which no
    listener of this program is installed runs none of its code; when it
    is an 'error' event of an emitter whose [once] listener has run, the
    emitter throws it, which [unhandled] records. *)
Definition sess_step (e : Event) (s : Session) : Session :=
  match e with
  | ConnReady c =>
      match conns s !! c with
      | Some k => if c_ready k then on_ready (set_conn_flags c disarm_ready s) else s
      | None => s
      end
  | ConnError c =>
      match conns s !! c with
      | Some k =>
          if c_error k then on_error (set_conn_flags c disarm_error s)
          else throw_unhandled (ConnError c) s
      | None => s
      end
  | ConnEnd c =>
      match conns s !! c with
      | Some k => if c_end k then on_end (set_conn_flags c disarm_end s) else s
      | None => s
      end
  | ConnMail c o =>
      match conns s !! c with
      | Some _ => fetchNewEmails o s
      | None => s
      end
  | ConnExpunge _ _ => s
  | TimerFire t o => on_timer t o s
  | NoopDone p err =>
      match assoc p (pending s) with
      | Some PNoop => noop_callback err (set_pending (unassoc p (pending s)) s)
      | _ => s
      end
  | OpenBoxDone p err =>
      match assoc p (pending s) with
      | Some POpenBox => openBox_callback err (set_pending (unassoc p (pending s)) s)
      | _ => s
      end
  | SearchDone p r =>
      match assoc p (pending s) with
      | Some PSearch => search_callback r (set_pending (unassoc p (pending s)) s)
      | _ => s
      end
  | FetchMessage f seqno rawEmail io =>
      match assoc f (pending s) with
      | Some (PFetch _ _ _) => processEmail_call rawEmail seqno io s
      | _ => s
      end
  | FetchError f =>
      match assoc f (pending s) with
      | Some (PFetch ids true en) =>
          emit (ELogError LogFetchError) (replace_pending f (PFetch ids false en) s)
      | Some (PFetch ids false en) => throw_unhandled (FetchError f) s
      | _ => s
      end
  | FetchEnd f =>
      match assoc f (pending s) with
      | Some (PFetch ids er true) =>
          restartIdle (replace_pending f (PFetch ids er false) s)
      | _ => s
      end
  | ParseDone p =>
      match assoc p (tasks s) with
      | Some (AwaitParse rawEmail seqno io) => processEmail_parsed p rawEmail seqno io s
      | _ => s
      end
  | IndexDone p =>
      match assoc p (tasks s) with
      | Some (AwaitIndex d io) => processEmail_indexed p d io s
      | _ => s
      end
  | ClassifyDone p =>
      match assoc p (tasks s) with
      | Some (AwaitClassify r io) => processEmail_classified p r io s
      | _ => s
      end
  end.

Definition run (es : list Event) (s : Session) : Session :=
  foldl (fun s e => sess_step e s) s es.

(** ** The manager: registry [accounts] over a heap of account objects *)

Record Manager := {
  accounts : gmap string nat;
  heap : list Session
}.

Definition emptyManager : Manager := {| accounts := ∅; heap := [] |}.

Definition startImap (accountId : string) (cfg : ImapConfig) (o : ConnectOutcome)
    (m : Manager) : Manager :=
  let r := length (heap m) in
  {| accounts := <[accountId := r]> (accounts m);
     heap := heap m ++ [connectAccount o (fresh (newAccount accountId cfg))] |}.

(** The synchronous part of [stopImap] applied to the account object. *)
Definition stop_session (s : Session) : Session :=
  let s1 := cleanupTimers s in
  match live_connection s1 with
  | Some c => emit (EEnd c) s1
  | None => s1
  end.

Definition stopImap (accountId : string) (m : Manager) : Manager :=
  match accounts m !! accountId with
  | None => m
  | Some r =>
      {| accounts := delete accountId (accounts m);
         heap := alter stop_session r (heap m) |}
  end.

Record AccountStatus := {
  st_isConnected : bool;
  st_reconnectAttempts : Z
}.

Definition getAccountStatus (accountId : string) (m : Manager) : option AccountStatus :=
  match accounts m !! accountId with
  | None => None
  | Some r =>
      match heap m !! r with
      | None => None
      | Some s => Some {| st_isConnected := isConnected (account s);
                          st_reconnectAttempts := reconnectAttempts (account s) |}
      end
  end.

(** An event reaching the callbacks of the account object at [r]. *)
Definition deliver (r : nat) (e : Event) (m : Manager) : Manager :=
  {| accounts := accounts m; heap := alter (sess_step e) r (heap m) |}.

End ImapSync.

(** ** [stopAll] *)

(** [stopAll] maps [stopImap] over a snapshot of the registry keys; no
    [stopImap] awaits anything, so the calls run one after the other in
    the order of the snapshot. *)
Definition stopAll_from (keys : list string) (m : Manager) : Manager :=
  foldl (fun m' k => stopImap k m') m keys.

(** The snapshot [Array.from(this.accounts.keys())]. A JavaScript [Map]
    lists its keys in insertion order, which the registry here does not
    record: the properties of [stopAll_from] are proved for every order. *)
Definition stopAll (m : Manager) : Manager :=
  stopAll_from (map fst (map_to_list (accounts m))) m.

(** * The collaborators that [processEmail] calls *)

(** ** JavaScript string and array primitives *)

Fixpoint starts_with (s p : string) : bool :=
  match p, s with
  | EmptyString, _ => true
  | String a p', String b s' => if Ascii.eqb a b then starts_with s' p' else false
  | String _ _, EmptyString => false
  end.

(** [hay.includes(needle)]: [needle] occurs in [hay] as a contiguous run. *)
Fixpoint includes (hay needle : string) : bool :=
  starts_with hay needle
  || match hay with
     | EmptyString => false
     | String _ hay' => includes hay' needle
     end.

(** [xs.join(sep)] *)
Fixpoint join (sep : string) (xs : list string) : string :=
  match xs with
  | [] => ""
  | [x] => x
  | x :: xs' => x ++ sep ++ join sep xs'
  end.

(** [xs.slice(start, end)] on integers: a negative index counts from the
    end, and both indices are clamped to the array. *)
Definition js_slice {A} (xs : list A) (start stop : Z) : list A :=
  let len := Z.of_nat (length xs) in
  let k := if (start <? 0)%Z then Z.max (len + start) 0 else Z.min start len in
  let fin := if (stop <? 0)%Z then Z.max (len + stop) 0 else Z.min stop len in
  take (Z.to_nat (fin - k)) (drop (Z.to_nat k) xs).

(** [n || d] on a possibly-undefined number: 0 is falsy. *)
Definition num_or (n : option Z) (d : Z) : Z :=
  match n with
  | Some z => if Z.eqb z 0 then d else z
  | None => d
  end.

(** ** search.ts in mock mode ([ES_URL] starts with mock://) *)

Module Search.

Section Mock.

(** [String.prototype.toLowerCase] *)
Variable toLowerCase : string → string.

(** [indexEmail] in mock mode: [mockEmails.push(emailDoc)]. *)
Definition indexEmail (emailDoc : EmailDocument) (mockEmails : list EmailDocument)
    : list EmailDocument :=
  mockEmails ++ [emailDoc].

(** The text a query is matched against. *)
Definition searchText (email : EmailDocument) : string :=
  toLowerCase (ed_subject email ++ " " ++ ed_body email ++ " " ++ ed_from email
               ++ " " ++ join " " (ed_to email)).

(** The callback of [mockEmails.filter]. *)
Definition matches (query : string) (email : EmailDocument) : bool :=
  String.eqb query "" || includes (searchText email) (toLowerCase query).

Record SearchResponse := {
  hits : list EmailDocument;
  total : nat
}.

(** [searchEmails] in mock mode. [accountId] is a parameter of the source
    function that this branch does not read. *)
Definition searchEmails (mockEmails : list EmailDocument) (accountId : string)
    (query : string) (from size : option Z) : SearchResponse :=
  let filtered := List.filter (matches query) mockEmails in
  let start := num_or from 0 in
  let stop := (start + num_or size 10)%Z in
  {| hits := js_slice filtered start stop; total := length filtered |}.

End Mock.

End Search.

(** ** notify.ts: [NotificationService] *)

Module Notify.

Definition MAX_RETRIES : Z := 3.
Definition INITIAL_DELAY : Z := 1000.
Definition MAX_DELAY : Z := 10000.

(** The fields of a rejected request that [isRetryableError] reads:
    [error.response?.status] and [error.message]. *)
Record HttpError := {
  h_status : option Z;
  h_message : option string
}.

(** [calculateBackoffDelay]; attempts are counted from 1. *)
Definition calculateBackoffDelay (attempt : Z) : Z :=
  Z.min (INITIAL_DELAY * 2 ^ (attempt - 1)) MAX_DELAY.

Section Service.

Variable toLowerCase : string → string.

(** [error.message?.toLowerCase() || ''] *)
Definition lower_message (m : option string) : string :=
  match m with
  | Some s => toLowerCase s
  | None => ""
  end.

Definition isRetryableError (error : HttpError) : bool :=
  let message := lower_message (h_message error) in
  match h_status error with
  | Some status => (500 <=? status)%Z || Z.eqb status 408 || Z.eqb status 429
  | None => false
  end
  || includes message "timeout"
  || includes message "connection"
  || includes message "network"
  || includes message "econnreset"
  || includes message "enotfound".

(** What one run of [sendWithRetry] did: whether it resolved or with which
    error it rejected, the delays it slept, and the number of the last
    attempt. *)
Record RetryRun := {
  failure : option HttpError;
  slept : list Z;
  last_attempt : Z
}.

(** [sendWithRetry]. [requestFn k] is the outcome of the call made at
    attempt [k]: [None] when it resolves. The recursion of the source is on
    [attempt + 1]; [fuel] bounds its depth. *)
Fixpoint sendWithRetry (fuel : nat) (requestFn : Z → option HttpError)
    (attempt : Z) : option RetryRun :=
  match fuel with
  | O => None
  | S fuel' =>
      match requestFn attempt with
      | None => Some {| failure := None; slept := []; last_attempt := attempt |}
      | Some error =>
          if (attempt <? MAX_RETRIES)%Z && isRetryableError error
          then
            let delay := calculateBackoffDelay attempt in
            match sendWithRetry fuel' requestFn (attempt + 1) with
            | Some r => Some {| failure := failure r; slept := delay :: slept r;
                                last_attempt := last_attempt r |}
            | None => None
            end
          else Some {| failure := Some error; slept := []; last_attempt := attempt |}
      end
  end.






End Service.

End Notify.

(** ** classifier.ts: [EmailClassifier] *)

Module Classifier.

Definition MAX_RETRIES : Z := 5.
Definition INITIAL_DELAY : Z := 1000.
Definition MAX_DELAY : Z := 30000.

(** The fields of a thrown error that the retry logic reads. *)
Record ApiError := {
  e_status : option Z;
  e_code : option Z;
  e_message : option string
}.

(** What [generateContent] and [response.text()] give at one attempt. *)
Inductive ApiReply :=
| Replied (text : string)
| Failed (error : ApiError).

(** [calculateBackoffDelay]; attempts are counted from 1. *)
Definition calculateBackoffDelay (attempt : Z) : Z :=
  Z.min (INITIAL_DELAY * 2 ^ (attempt - 1)) MAX_DELAY.

(** [error.status || error.code] *)
Definition status_or_code (error : ApiError) : option Z :=
  match e_status error with
  | Some z => if Z.eqb z 0 then e_code error else Some z
  | None => e_code error
  end.

(** [new Error('Empty response from Gemini API')] *)
Definition emptyResponse : ApiError :=
  {| e_status := None; e_code := None;
     e_message := Some "Empty response from Gemini API" |}.

Section Service.

Variable toLowerCase : string → string.
Variable trim : string → string.

(** [error.message?.toLowerCase() || ''] *)
Definition lower_message (m : option string) : string :=
  match m with
  | Some s => toLowerCase s
  | None => ""
  end.

Definition isRateLimitError (error : ApiError) : bool :=
  let message := lower_message (e_message error) in
  match status_or_code error with
  | Some status => Z.eqb status 429
  | None => false
  end
  || includes message "rate limit"
  || includes message "quota exceeded"
  || includes message "too many requests".

Definition isTemporaryError (error : ApiError) : bool :=
  let message := lower_message (e_message error) in
  match status_or_code error with
  | Some status => (500 <=? status)%Z || Z.eqb status 408
  | None => false
  end
  || includes message "timeout"
  || includes message "connection"
  || includes message "network".

(** What one run of [callGeminiWithRetry] did. *)
Record RetryRun := {
  outcome : ApiError + string;
  slept : list Z;
  last_attempt : Z
}.

(** The body of the [try]: the text, trimmed, or the error thrown. *)
Definition attempt_once (reply : ApiReply) : ApiError + string :=
  match reply with
  | Replied text => if String.eqb text "" then inl emptyResponse else inr (trim text)
  | Failed error => inl error
  end.

(** [callGeminiWithRetry]. [api k] is what the service answers at attempt
    [k]. The recursion of the source is on [attempt + 1]; [fuel] bounds its
    depth. *)
Fixpoint callGeminiWithRetry (fuel : nat) (api : Z → ApiReply) (attempt : Z)
    : option RetryRun :=
  match fuel with
  | O => None
  | S fuel' =>
      match attempt_once (api attempt) with
      | inr text => Some {| outcome := inr text; slept := []; last_attempt := attempt |}
      | inl error =>
          if (isRateLimitError error && (attempt <? MAX_RETRIES)%Z)
             || (isTemporaryError error && (attempt <? MAX_RETRIES)%Z)
          then
            let delay := calculateBackoffDelay attempt in
            match callGeminiWithRetry fuel' api (attempt + 1) with
            | Some r => Some {| outcome := outcome r; slept := delay :: slept r;
                                last_attempt := last_attempt r |}
            | None => None
            end
          else Some {| outcome := inl error; slept := []; last_attempt := attempt |}
      end
  end.

End Service.

(** [ClassificationResult]; the confidence is kept as the rational it
    denotes. *)
Record ClassificationResult := {
  category : string;
  confidence : Q;
  reasoning : string
}.

(** The result that [batchClassifyEmails] substitutes for a failed request. *)
Definition batchFallback : ClassificationResult :=
  {| category := "Follow Up"; confidence := 1 # 2;
     reasoning := "Classification failed" |}.

(** What [batchClassifyEmails] did: its results, the requests it handed
    to [classifyAndUpdateEmail] in order, and the delays it slept. *)
Record BatchRun := {
  results : list ClassificationResult;
  classified : list ClassificationRequest;
  pauses : list Z
}.

Definition batchSize : nat := 5.

(** The [for] loop of [batchClassifyEmails], from index [i].
    [classifyAndUpdateEmail r] is [None] when the promise rejects. [fuel]
    bounds the number of iterations. *)
Fixpoint batchLoop (fuel : nat)
    (classifyAndUpdateEmail : ClassificationRequest → option ClassificationResult)
    (requests : list ClassificationRequest) (i : nat) (acc : BatchRun)
    : option BatchRun :=
  if (i <? length requests)%nat
  then
    match fuel with
    | O => None
    | S fuel' =>
        let batch := js_slice requests (Z.of_nat i) (Z.of_nat (i + batchSize)) in
        let batchResults :=
          map (fun request => default batchFallback (classifyAndUpdateEmail request))
            batch in
        let acc' :=
          {| results := results acc ++ batchResults;
             classified := classified acc ++ batch;
             pauses := if (i + batchSize <? length requests)%nat
                       then pauses acc ++ [1000%Z] else pauses acc |} in
        batchLoop fuel' classifyAndUpdateEmail requests (i + batchSize) acc'
    end
  else Some acc.

Definition batchClassifyEmails
    (classifyAndUpdateEmail : ClassificationRequest → option ClassificationResult)
    (requests : list ClassificationRequest) : option BatchRun :=
  batchLoop (length requests) classifyAndUpdateEmail requests 0
    {| results := []; classified := []; pauses := [] |}.

End Classifier.

(** * Vocabulary of the properties *)

Local Open Scope list_scope.

(** The address objects a header holds, whatever its shape. *)
Definition entries (f : AddrField) : list (option AddrEntry) :=
  match f with
  | AddrAbsent => []
  | AddrOne e => [Some e]
  | AddrMany l => l
  end.

(** An element carries an address when its [text] or its [address] is a
    non-empty string. *)
Definition has_address (e : option AddrEntry) : Prop :=
  ∃ a, e = Some a ∧ (truthy (a_text a) = true ∨ truthy (a_address a) = true).

Definition no_addresses (f : AddrField) : Prop :=
  ∀ e, e ∈ entries f → ¬ has_address e.

(** What the record keeps of one attachment: a present, non-empty field is
    copied, a missing one takes its default. *)
Definition attachment_defaults (a : Attachment) (m : AttachmentMeta) : Prop :=
  (att_filename a = None → am_filename m = "unknown")
  ∧ (att_contentType a = None → am_contentType m = "application/octet-stream")
  ∧ (att_size a = None → am_size m = 0)
  ∧ (∀ f, att_filename a = Some f → f ≠ "" → am_filename m = f)
  ∧ (∀ c, att_contentType a = Some c → c ≠ "" → am_contentType m = c)
  ∧ (∀ n, att_size a = Some n → am_size m = n).

(** ** Observations on a session *)

Definition reconnect_delay_of (e : Effect) : option Z :=
  match e with
  | ESetTimer _ TReconnect d => Some d
  | _ => None
  end.

(** The delays of the reconnect timers set so far, oldest first. *)
Definition reconnect_delays (efs : list Effect) : list Z :=
  omap reconnect_delay_of efs.

Definition is_log (e : Effect) : bool :=
  match e with
  | ELogError _ => true
  | _ => false
  end.

(** Everything the code did apart from writing to the console. *)
Definition actions (efs : list Effect) : list Effect :=
  filter (fun e => is_log e = false) efs.

Definition indexed_doc (e : Effect) : option EmailDocument :=
  match e with
  | EIndexed d => Some d
  | _ => None
  end.

(** The records the document sink has received, oldest first. *)
Definition indexed (efs : list Effect) : list EmailDocument :=
  omap indexed_doc efs.

Definition is_search (e : Effect) : bool :=
  match e with
  | ESearch _ => true
  | _ => false
  end.

(** Number of [search] commands issued. *)
Definition searches (efs : list Effect) : nat :=
  length (filter (fun e => is_search e = true) efs).

(** The body of the [try] in [fetchNewEmails] got as far as issuing the
    search. *)
Definition issued (o : FetchOutcome) : bool :=
  match o with
  | IssueOk => true
  | _ => false
  end.

(** What one 'mail' signal makes the code do on the connection [cur],
    when [t] is the handle that the next timer gets. *)
Definition signal_effects (cur t : nat) (o : FetchOutcome) : list Effect :=
  match o with
  | IssueOk => [EIdleStop cur; ESearch cur]
  | IdleStopThrows => [ELogError LogFetchFailed; ESetTimer t TIdleRestart 1000]
  | SearchThrows =>
      [EIdleStop cur; ELogError LogFetchFailed; ESetTimer t TIdleRestart 1000]
  end.

(** ... and what a sequence of signals makes it do, one after the other. *)
Fixpoint signals_effects (cur t : nat) (os : list FetchOutcome) : list Effect :=
  match os with
  | [] => []
  | o :: os' =>
      signal_effects cur t o
      ++ signals_effects cur (if issued o then t else S t) os'
  end.

Definition cycle_open (p : nat * Pending) : bool :=
  match snd p with
  | PSearch => true
  | PFetch _ _ true => true
  | _ => false
  end.

(** Fetch cycles in flight: searches not yet answered and fetches that
    have not ended. *)
Definition in_flight (s : Session) : nat :=
  length (filter (fun p => cycle_open p = true) (pending s)).

Definition is_reconnect (p : nat * Timer) : bool :=
  match t_action (snd p) with
  | TReconnect => true
  | _ => false
  end.

(** The handle of the reconnect timer waiting to fire, if any. *)
Definition pending_reconnect (s : Session) : option nat :=
  fst <$> List.find is_reconnect (timers s).

(** Timer handles are allocated in increasing order. *)
Definition timers_fresh (s : Session) : Prop :=
  Forall (fun p => (fst p < nextTimer s)%nat) (timers s).

(** The fields of the account object that no callback ever changes away
    from what [startImap] wrote. *)
Definition static_fields (s : Session) : Prop :=
  reconnectDelay (account s) = INITIAL_RECONNECT_DELAY
  ∧ maxReconnectAttempts (account s) = MAX_RECONNECT_ATTEMPTS
  ∧ idleTimer (account s) = None.

(** The session has given up: disconnected, attempts exhausted and no
    reconnect timer waiting. *)
Definition terminal_failed (s : Session) : Prop :=
  isConnected (account s) = false
  ∧ (maxReconnectAttempts (account s) ≤ reconnectAttempts (account s))%Z
  ∧ pending_reconnect s = None.

Definition status_of (s : Session) : AccountStatus :=
  {| st_isConnected := isConnected (account s);
     st_reconnectAttempts := reconnectAttempts (account s) |}.

(** The registry after [accounts.set(accountId, account)] with the account
    object stored in [s]. *)
Definition install (accountId : string) (s : Session) (m : Manager) : Manager :=
  {| accounts := <[accountId := length (heap m)]> (accounts m);
     heap := heap m ++ [s] |}.

(** ** Scenarios of consecutive connection failures *)

(** How one connection attempt fails. *)
Inductive FailKind :=
| ByErrorEvent      (* the connection is created and then emits 'error' *)
| ByCtorThrow       (* [new Imap] throws inside [connectAccount] *)
| ByConnectThrow.   (* [imap.connect()] throws inside [connectAccount] *)

Definition is_error_event (e : Event) : bool :=
  match e with
  | ConnError _ => true
  | NoopDone _ true => true
  | _ => false
  end.

Section Scenarios.

Variable simpleParser : string → option ParsedMail.

(** The reconnect delay elapses: the waiting timer fires. *)
Definition fire_reconnect (o : ConnectOutcome) (s : Session) : Session :=
  match pending_reconnect s with
  | Some t => sess_step simpleParser (TimerFire t o) s
  | None => s
  end.

(** The connection that [account.connection] holds emits 'error'. *)
Definition current_errors (s : Session) : Session :=
  match connection (account s) with
  | Some c => sess_step simpleParser (ConnError c) s
  | None => s
  end.

Definition fail_with (f : FailKind) (connect : ConnectOutcome → Session → Session)
    (s : Session) : Session :=
  match f with
  | ByErrorEvent => current_errors (connect ConnectOk s)
  | ByCtorThrow => connect CtorThrows s
  | ByConnectThrow => connect ConnectThrows s
  end.

(** The attempt made by [startImap] fails. *)
Definition first_attempt_fails (f : FailKind) (a : ImapAccount) : Session :=
  fail_with f connectAccount (fresh a).

(** The attempt made by the reconnect timer fails. *)
Definition reconnect_fails (f : FailKind) (s : Session) : Session :=
  fail_with f fire_reconnect s.

(** The account is started and every attempt fails, one per element. *)
Definition after_failures (fs : list FailKind) (a : ImapAccount) : Session :=
  match fs with
  | [] => connectAccount ConnectOk (fresh a)
  | f :: fs' => foldl (fun s f => reconnect_fails f s) (first_attempt_fails f a) fs'
  end.

(** The next attempt succeeds: the connection emits 'ready'. *)
Definition then_ready (s : Session) : Session :=
  let s1 := fire_reconnect ConnectOk s in
  match connection (account s1) with
  | Some c => sess_step simpleParser (ConnReady c) s1
  | None => s1
  end.

End Scenarios.

(** ** Invariants of the back-off scenario *)

(** The delays of the first [k] reconnect timers. *)
Definition expected_delays (k : nat) : list Z :=
  map (fun i => INITIAL_RECONNECT_DELAY * 2 ^ Z.of_nat i) (seq 0 k).

(** On entry to [handleReconnect] after [k] earlier failures. *)
Definition about_to_retry (k : nat) (s : Session) : Prop :=
  reconnectAttempts (account s) = Z.of_nat k
  ∧ maxReconnectAttempts (account s) = MAX_RECONNECT_ATTEMPTS
  ∧ reconnectDelay (account s) = INITIAL_RECONNECT_DELAY
  ∧ isConnected (account s) = false
  ∧ watchdogTimer (account s) = None
  ∧ idleTimer (account s) = None
  ∧ timers s = []
  ∧ reconnect_delays (effects s) = expected_delays k.

(** After [k] failures, with the [k]-th reconnect timer waiting. *)
Definition backing_off (k : nat) (s : Session) : Prop :=
  reconnectAttempts (account s) = Z.of_nat k
  ∧ maxReconnectAttempts (account s) = MAX_RECONNECT_ATTEMPTS
  ∧ reconnectDelay (account s) = INITIAL_RECONNECT_DELAY
  ∧ isConnected (account s) = false
  ∧ watchdogTimer (account s) = None
  ∧ idleTimer (account s) = None
  ∧ (∃ t, timers s =
          [(t, {| t_action := TReconnect;
                  t_delay := INITIAL_RECONNECT_DELAY * 2 ^ (Z.of_nat k - 1);
                  t_repeat := false |})])
  ∧ reconnect_delays (effects s) = expected_delays k.

(** [s'] differs from [s] by console output and by listener or callback
    bookkeeping only: same account fields, same timers, no new connection,
    no new command or timer. *)
Definition quiet (s s' : Session) : Prop :=
  account s' = account s
  ∧ timers s' = timers s
  ∧ length (conns s') = length (conns s)
  ∧ actions (effects s') = actions (effects s).

(** ** Fetch batches *)






(** ** Calls of [processEmail] that are under way *)





(** Handles of the calls under way are distinct and were handed out. *)
Definition tasks_wf (s : Session) : Prop :=
  NoDup (map fst (tasks s))
  ∧ Forall (fun k => (k < nextTask s)%nat) (map fst (tasks s)).



(** Turns in which [processEmail] is called or goes on. *)
Definition is_task_event (e : Event) : bool :=
  match e with
  | FetchMessage _ _ _ _ | ParseDone _ | IndexDone _ | ClassifyDone _ => true
  | _ => false
  end.



(** The timer that [restartIdle] sets. *)
Definition idleRestartTimer : Timer :=
  {| t_action := TIdleRestart; t_delay := 1000; t_repeat := false |}.


(** ** Concrete inputs used by the examples *)

Definition sampleConfig : ImapConfig :=
  {| user := "user@example.com"; password := "secret";
     host := "imap.example.com"; port := Some 993; tls := Some true;
     keepalive := None |}.

(** A stand-in for [simpleParser]: it rejects the empty buffer and reads
    any other buffer as a mail that has that subject and nothing else. *)
Definition sampleParser (raw : string) : option ParsedMail :=
  if String.eqb raw "" then None
  else Some {| pm_messageId := None; pm_subject := Some raw; pm_from := None;
               pm_to := AddrAbsent; pm_cc := AddrAbsent; pm_bcc := AddrAbsent;
               pm_date := None; pm_text := None; pm_html := None;
               pm_attachments := None |}.

Definition sampleIO : MsgIO :=
  {| tDate := 1700000000000; tIndexed := 1700000000001;
     indexOk := true; classifyOk := true |}.

(** "acct-1" started, connected, INBOX opened and idling. *)
Definition sampleListening : Session :=
  run sampleParser [ConnReady 0; OpenBoxDone 0 false]
    (connectAccount ConnectOk (fresh (newAccount "acct-1" sampleConfig))).

(** ... after one 'mail' event: the search is pending under handle 1. *)
Definition sampleSearching : Session :=
  sess_step sampleParser (ConnMail 0 IssueOk) sampleListening.

(** ... after the search answered twelve identifiers: the fetch is pending
    under handle 2. *)
Definition sampleFetching : Session :=
  sess_step sampleParser
    (SearchDone 1 (SearchResults
       (Some [1; 2; 3; 4; 5; 6; 7; 8; 9; 10; 11; 12]%N)))
    sampleSearching.




(** Four failed attempts of mixed kinds. *)
Definition sampleFailures : list FailKind :=
  [ByErrorEvent; ByCtorThrow; ByConnectThrow; ByErrorEvent].

(** "acct-1" and "acct-2" started on an empty registry. *)
Definition sampleManager : Manager :=
  startImap "acct-2" sampleConfig ConnectOk
    (startImap "acct-1" sampleConfig ConnectOk emptyManager).

(** "acct-1" listening, then a 'mail' event whose search finds nothing:
    the idle-restart timeout is waiting under handle 1. *)
Definition sampleIdleRestartEvents : list Event :=
  [ConnReady 0; OpenBoxDone 0 false; ConnMail 0 IssueOk;
   SearchDone 1 (SearchResults (Some []))].

(** The record of a mail that has the subject [subject] and nothing else,
    fetched as number [n]. *)
Definition sampleDoc (subject : string) (n : N) : EmailDocument :=
  emailDoc "acct-1"
    {| pm_messageId := None; pm_subject := Some subject; pm_from := None;
       pm_to := AddrAbsent; pm_cc := AddrAbsent; pm_bcc := AddrAbsent;
       pm_date := None; pm_text := None; pm_html := None;
       pm_attachments := None |} n 0 0.

Definition sampleStore : list EmailDocument :=
  [sampleDoc "invoice" 1; sampleDoc "meeting" 2; sampleDoc "invoice again" 3].


(** ** Well-formed registries *)

(** Every registered id refers to an account object of the heap, and no
    two ids refer to the same object. *)
Definition registry_wf (m : Manager) : Prop :=
  (∀ i r, accounts m !! i = Some r → (r < length (heap m))%nat)
  ∧ (∀ i j r, accounts m !! i = Some r → accounts m !! j = Some r → i = j).

(** Events of the fetch cycle, of message processing and of mailbox
    opening: everything except the connection's 'ready', 'error' and 'end',
    timers and probe results. *)
Definition is_fetch_cycle_event (e : Event) : bool :=
  match e with
  | ConnMail _ _ | ConnExpunge _ _ | OpenBoxDone _ _ | SearchDone _ _
  | FetchMessage _ _ _ _ | FetchError _ | FetchEnd _
  | ParseDone _ | IndexDone _ | ClassifyDone _ => true
  | _ => false
  end.

(** Events whose handler starts with the guard
    [account.isConnected && account.connection], or calls [restartIdle]
    without issuing a command first. *)
Definition is_guarded_event (s : Session) (e : Event) : bool :=
  match e with
  | ConnMail _ _ => true
  | FetchEnd _ => true
  | SearchDone _ SearchErr => true
  | SearchDone _ (SearchResults None) => true
  | SearchDone _ (SearchResults (Some [])) => true
  | TimerFire t _ =>
      match assoc t (timers s) with
      | Some tm => match t_action tm with TReconnect => false | _ => true end
      | None => true
      end
  | _ => false
  end.

(** ** What holds of every session from its start *)

(** Effects that are neither a search, nor a reconnect timer, nor a record
    handed to the sink. *)
Definition plain (e : Effect) : bool :=
  match e with
  | ESearch _ => false
  | ESetTimer _ TReconnect _ => false
  | EIndexed _ => false
  | _ => true
  end.

(** Every [search] comes directly after an [idleStop] on the same connection. *)
Definition search_after_idleStop (efs : list Effect) : Prop :=
  ∀ i c, efs !! i = Some (ESearch c) →
         ∃ j, i = S j ∧ efs !! j = Some (EIdleStop c).

(** One of the delays 1 s, 2 s, 4 s, 8 s, 16 s. *)
Definition backoff_delay (d : Z) : Prop :=
  ∃ k : Z, (0 ≤ k < MAX_RECONNECT_ATTEMPTS)%Z
           ∧ d = (INITIAL_RECONNECT_DELAY * 2 ^ k)%Z.

(** A record as the normaliser of the account [accountId] builds it. *)
Definition own_record (accountId : string) (d : EmailDocument) : Prop :=
  ed_accountId d = accountId
  ∧ ed_folder d = "INBOX"
  ∧ ed_flags d = []
  ∧ ∃ tail, ed_id d = (accountId ++ "-" ++ tail)%string.

Definition sound (accountId : string) (cfg : ImapConfig) (s : Session) : Prop :=
  acct_id (account s) = accountId
  ∧ config (account s) = cfg
  ∧ static_fields s
  ∧ (0 ≤ reconnectAttempts (account s) ≤ MAX_RECONNECT_ATTEMPTS)%Z
  ∧ Forall backoff_delay (reconnect_delays (effects s))
  ∧ search_after_idleStop (effects s)
  ∧ Forall (own_record accountId) (indexed (effects s))
  ∧ Forall (fun k => c_opts k = imapOptions cfg) (conns s)
  ∧ (∀ c, connection (account s) = Some c → (c < length (conns s))%nat).

(** A keepalive property as the caller of [startImap] gave it: not an own
    property also when [config.keepalive] itself is absent. *)
Definition keepalive_given {A} (get : Keepalive → Slot A) (cfg : ImapConfig)
    : Slot A :=
  match keepalive cfg with
  | Some k => get k
  | None => NotOwn
  end.

(** [used] is the caller's property when the caller's object has it, be
    its value [undefined], and the default [d] otherwise. *)
Definition given_or_default {A} (d : A) (given used : Slot A) : Prop :=
  (given = NotOwn → used = Own d) ∧ (given ≠ NotOwn → used = given).

(** The records that calls of [processEmail] are waiting to hand to the
    sink are records of this account. *)
Definition tasks_own (accountId : string) (s : Session) : Prop :=
  Forall (fun p => ∀ d io, snd p = AwaitIndex d io → own_record accountId d)
    (tasks s).

(** Handles of pending callbacks are allocated in increasing order. *)
Definition pending_fresh (s : Session) : Prop :=
  Forall (fun p => (fst p < nextReq s)%nat) (pending s).

(** The handle kept in [watchdogTimer] is one that was handed out, and
    the timer it names, if still set, is the watchdog interval. *)
Definition watchdog_handle_ok (s : Session) : Prop :=
  timers_fresh s
  ∧ (∀ h, watchdogTimer (account s) = Some h → (h < nextTimer s)%nat)
  ∧ (∀ h tm, watchdogTimer (account s) = Some h →
             assoc h (timers s) = Some tm → t_action tm = TWatchdog).


(** ** Vocabulary of the retry loops *)

(** An error after which [callGeminiWithRetry] tries again, as long as
    attempts are left. *)
Definition classifier_retryable (toLowerCase : string → string)
    (e : Classifier.ApiError) : bool :=
  Classifier.isRateLimitError toLowerCase e || Classifier.isTemporaryError toLowerCase e.

(** What attempt [k] of the classifier obtains from the service. *)
Definition classifier_attempt (trim : string → string) (api : Z → Classifier.ApiReply)
    (k : Z) : Classifier.ApiError + string :=
  Classifier.attempt_once trim (api k).

(** [callGeminiWithRetry] against the service [api]. *)
Definition classifier_call (toLowerCase trim : string → string)
    (api : Z → Classifier.ApiReply) (fuel : nat) (attempt : Z)
    : option Classifier.RetryRun :=
  Classifier.callGeminiWithRetry toLowerCase trim fuel api attempt.

(** * Properties *)

(** ** Address headers *)

Lemma toArray_entries f : toArray f = filter_Boolean (map entry_value (entries f)).
Proof. destruct f; reflexivity. Qed.

Lemma truthy_entry_value e : truthy (entry_value e) = true ↔ has_address e.
Proof.
  split.
  - destruct e as [a|]; simpl; [|discriminate].
    unfold js_or. destruct (truthy (a_text a)) eqn:Ht; intros H.
    + exists a. auto.
    + exists a. auto.
  - intros (a & -> & H). simpl. unfold js_or.
    destruct (truthy (a_text a)) eqn:Ht; [exact Ht|].
    destruct H as [H|H]; [congruence|exact H].
Qed.

Lemma filter_Boolean_nil l :
  filter_Boolean l = [] ↔ ∀ o, o ∈ l → truthy o = false.
Proof.
  induction l as [|o l IH]; simpl.
  - split; [intros _ o Ho; inversion Ho|reflexivity].
  - destruct (truthy o) eqn:Ho.
    + destruct o as [s|]; [|discriminate]. split; [discriminate|].
      intros H. specialize (H (Some s)). rewrite Ho in H.
      discriminate H. left.
    + rewrite IH. split.
      * intros H o' Ho'. apply elem_of_cons in Ho' as [->|Ho']; auto.
      * intros H o' Ho'. apply H. right. exact Ho'.
Qed.

Lemma elem_of_filter_Boolean s l :
  s ∈ filter_Boolean l ↔ Some s ∈ l ∧ s ≠ "".
Proof.
  induction l as [|o l IH]; simpl.
  - split; [intros H; inversion H|intros [H _]; inversion H].
  - destruct (truthy o) eqn:Ho.
    + destruct o as [s'|]; [|discriminate].
      rewrite elem_of_cons, IH. simpl in Ho.
      destruct (String.eqb_spec s' "") as [|Hne]; [discriminate|].
      rewrite elem_of_cons. split.
      * intros [->|[H1 H2]]; auto.
      * intros [[H|H] H2]; [left; congruence|right; auto].
    + rewrite IH, elem_of_cons. split.
      * intros [H1 H2]; auto.
      * intros [[H|H] H2]; [|auto]. subst o. simpl in Ho.
        destruct (String.eqb_spec s ""); [contradiction|discriminate].
Qed.

Lemma toArray_nil f : toArray f = [] ↔ no_addresses f.
Proof.
  rewrite toArray_entries, filter_Boolean_nil. unfold no_addresses. split.
  - intros H e He Ha. apply truthy_entry_value in Ha.
    rewrite (H (entry_value e)) in Ha; [discriminate|].
    apply list_elem_of_fmap. eauto.
  - intros H o Ho. apply list_elem_of_fmap in Ho as (e & -> & He).
    destruct (truthy (entry_value e)) eqn:Ht; [|reflexivity].
    exfalso. apply (H e He). apply truthy_entry_value. exact Ht.
Qed.

Lemma nonempty_or_undefined_None l : nonempty_or_undefined l = None ↔ l = [].
Proof. destruct l; simpl; split; congruence. Qed.

Lemma nonempty_or_undefined_Some l l' :
  nonempty_or_undefined l = Some l' → l' = l ∧ l ≠ [].
Proof. destruct l; simpl; [discriminate|]. intros [= <-]. split; congruence. Qed.

(** C8. Whatever shape the to/cc/bcc headers of a parsed message have
    (absent, one address object, an array of them), the record's [to] is
    the array of the non-empty address strings found, while [cc] and [bcc]
    are undefined exactly when the header carries no address, and are never
    the empty array; when defined they hold the addresses found. *)
Theorem C8_recipients_normalised (accountId : string) (parsed : ParsedMail)
    (seqno : N) (t1 t2 : Z) :
  let d := emailDoc accountId parsed seqno t1 t2 in
  ed_to d = toArray (pm_to parsed)
  ∧ (ed_to d = [] ↔ no_addresses (pm_to parsed))
  ∧ (ed_cc d = None ↔ no_addresses (pm_cc parsed))
  ∧ (ed_bcc d = None ↔ no_addresses (pm_bcc parsed))
  ∧ (∀ l, ed_cc d = Some l → l = toArray (pm_cc parsed) ∧ l ≠ [])
  ∧ (∀ l, ed_bcc d = Some l → l = toArray (pm_bcc parsed) ∧ l ≠ [])
  ∧ (∀ f s, s ∈ toArray f ↔
        s ≠ "" ∧ ∃ e, e ∈ entries f ∧ entry_value e = Some s).
Proof.
  cbv zeta. simpl. split_and!.
  - reflexivity.
  - apply toArray_nil.
  - rewrite nonempty_or_undefined_None. apply toArray_nil.
  - rewrite nonempty_or_undefined_None. apply toArray_nil.
  - intros l H. apply nonempty_or_undefined_Some in H as [-> H]. auto.
  - intros l H. apply nonempty_or_undefined_Some in H as [-> H]. auto.
  - intros f s. rewrite toArray_entries, elem_of_filter_Boolean. split.
    + intros [H Hne]. split; [exact Hne|].
      apply list_elem_of_fmap in H as (e & He & Hin). eauto.
    + intros (Hne & e & Hin & He). split; [|exact Hne].
      apply list_elem_of_fmap. eauto.
Qed.

(** ** Defaults for missing fields *)

Lemma or_default_falsy o d : truthy o = false → or_default o d = d.
Proof.
  destruct o as [s|]; simpl; [|reflexivity].
  destruct (String.eqb s ""); [reflexivity|discriminate].
Qed.

Lemma or_default_present s d : s ≠ "" → or_default (Some s) d = s.
Proof.
  intros H. simpl. destruct (String.eqb_spec s ""); [contradiction|reflexivity].
Qed.

Lemma attachment_meta_defaults a : attachment_defaults a (attachment_meta a).
Proof.
  unfold attachment_defaults, attachment_meta. simpl. split_and!.
  - intros ->. reflexivity.
  - intros ->. reflexivity.
  - intros ->. reflexivity.
  - intros f -> Hf. apply or_default_present, Hf.
  - intros c -> Hc. apply or_default_present, Hc.
  - intros n ->. reflexivity.
Qed.

Lemma map_attachment_defaults atts :
  Forall2 attachment_defaults atts (map attachment_meta atts).
Proof.
  induction atts as [|a atts IH]; simpl; constructor;
    [apply attachment_meta_defaults|exact IH].
Qed.

(** C10. For every raw message that parses, the record is built whatever
    fields are missing: the composite id falls back to the sequence number
    when the message-id is absent or empty, the subject to 'No Subject',
    sender and plain body to the empty string, an attachment's filename,
    content type and size to 'unknown', 'application/octet-stream' and 0;
    and the record is handed to the sink (it is not dropped). *)
Theorem C10_missing_fields_default (simpleParser : string → option ParsedMail)
    (rawEmail : string) (parsed : ParsedMail) (seqno : N) (io : MsgIO) (s : Session) :
  simpleParser rawEmail = Some parsed →
  let d := emailDoc (acct_id (account s)) parsed seqno (tDate io) (tIndexed io) in
  (truthy (pm_messageId parsed) = false →
     ed_id d = (acct_id (account s) ++ "-" ++ pretty seqno)%string
     ∧ ed_messageId d = "")
  ∧ (∀ mid, pm_messageId parsed = Some mid → mid ≠ "" →
       ed_id d = (acct_id (account s) ++ "-" ++ mid)%string)
  ∧ (pm_subject parsed = None → ed_subject d = "No Subject")
  ∧ (pm_from parsed = None → ed_from d = "")
  ∧ (pm_text parsed = None → ed_body d = "")
  ∧ (∀ atts, pm_attachments parsed = Some atts →
       ∃ metas, ed_attachments d = Some metas ∧ Forall2 attachment_defaults atts metas)
  ∧ (indexOk io = true →
       ∃ rest, effects (processEmail simpleParser rawEmail seqno io s)
               = (effects s ++ EIndexed d :: rest)%list).
Proof.
  intros Hparse d. subst d. split_and!.
  - intros H. simpl. unfold compositeId. rewrite !or_default_falsy by exact H. auto.
  - intros mid Hm Hmid. simpl. unfold compositeId.
    rewrite Hm, or_default_present by exact Hmid. reflexivity.
  - intros H. simpl. rewrite H. reflexivity.
  - intros H. simpl. rewrite H. reflexivity.
  - intros H. simpl. rewrite H. reflexivity.
  - intros atts H. simpl. rewrite H. simpl. eexists. split; [reflexivity|].
    apply map_attachment_defaults.
  - intros Hok. unfold processEmail. rewrite Hparse, Hok.
    destruct (classifyOk io); simpl; rewrite <- app_assoc; eexists; reflexivity.
Qed.

(** ** Exponential back-off *)

Lemma reconnect_delays_app l1 l2 :
  reconnect_delays (l1 ++ l2) = (reconnect_delays l1 ++ reconnect_delays l2)%list.
Proof. apply omap_app. Qed.

Lemma expected_delays_S k :
  expected_delays (S k)
  = (expected_delays k ++ [INITIAL_RECONNECT_DELAY * 2 ^ Z.of_nat k])%list.
Proof.
  unfold expected_delays. rewrite seq_S, map_app. reflexivity.
Qed.

Lemma expected_delays_length k : length (expected_delays k) = k.
Proof. unfold expected_delays. rewrite length_map, length_seq. reflexivity. Qed.

Lemma expected_delays_lookup k i :
  (i < k)%nat →
  expected_delays k !! i = Some (INITIAL_RECONNECT_DELAY * 2 ^ Z.of_nat i).
Proof.
  intros Hi. unfold expected_delays. rewrite list_lookup_fmap.
  rewrite lookup_seq_lt by exact Hi. reflexivity.
Qed.

Ltac open_session s :=
  destruct s as [[? ? ? ? ? ? ? ? ?] ? ? ? ? ? ?]; simpl in *; subst.

Lemma handleReconnect_schedules k s :
  about_to_retry k s → (k < 5)%nat → backing_off (S k) (handleReconnect s).
Proof.
  intros (Hn & Hmax & Hd & Hc & Hw & Hi & Ht & He) Hk.
  open_session s. unfold handleReconnect, backing_off. simpl.
  unfold MAX_RECONNECT_ATTEMPTS.
  destruct (Z.leb_spec 5 (Z.of_nat k)) as [Hle|_]; [lia|]. simpl.
  rewrite reconnect_delays_app, He, expected_delays_S. simpl.
  replace (Z.of_nat k + 1 - 1)%Z with (Z.of_nat k) by lia.
  replace (Z.of_nat (S k) - 1)%Z with (Z.of_nat k) by lia.
  split_and!; auto; [lia|eexists; reflexivity].
Qed.

Lemma handleReconnect_gives_up s :
  (maxReconnectAttempts (account s) ≤ reconnectAttempts (account s))%Z →
  handleReconnect s = emit (ELogError LogMaxReconnect) s.
Proof.
  intros H. unfold handleReconnect.
  destruct (Z.leb_spec (maxReconnectAttempts (account s))
              (reconnectAttempts (account s))); [reflexivity|lia].
Qed.

Lemma status_install accountId s m :
  getAccountStatus accountId (install accountId s m) = Some (status_of s).
Proof.
  unfold getAccountStatus, install. simpl.
  rewrite lookup_insert_eq, list_lookup_middle by reflexivity. reflexivity.
Qed.

Section Backoff.

Variable simpleParser : string → option ParsedMail.

Lemma first_attempt_about f accountId cfg :
  ∃ s', first_attempt_fails simpleParser f (newAccount accountId cfg)
        = handleReconnect s'
        ∧ about_to_retry 0 s'.
Proof.
  destruct f; simpl; eexists; (split; [reflexivity|]);
    unfold about_to_retry; simpl; split_and!; reflexivity.
Qed.

Lemma fire_reconnect_backing_off k o s :
  backing_off k s →
  fire_reconnect simpleParser o s = connectAccount o (set_timers [] s).
Proof.
  intros (_ & _ & _ & _ & _ & _ & [t Ht] & _).
  unfold fire_reconnect, pending_reconnect. rewrite Ht. simpl.
  unfold on_timer. rewrite Ht. simpl. rewrite Nat.eqb_refl. reflexivity.
Qed.

Lemma reconnect_fails_about k f s :
  backing_off k s →
  ∃ s', reconnect_fails simpleParser f s = handleReconnect s'
        ∧ about_to_retry k s'.
Proof.
  intros Hb. unfold reconnect_fails, fail_with.
  rewrite !(fire_reconnect_backing_off k) by exact Hb.
  destruct Hb as (Hn & Hmax & Hd & Hc & Hw & Hi & _ & He).
  open_session s.
  destruct f; unfold current_errors; simpl;
    rewrite ?list_lookup_middle by reflexivity; simpl;
    (eexists; split; [reflexivity|]);
    unfold about_to_retry; simpl;
    rewrite !reconnect_delays_app, He; simpl; rewrite ?app_nil_r;
    split_and!; reflexivity.
Qed.

Lemma after_failures_snoc f fs g a :
  after_failures simpleParser (f :: fs ++ [g]) a
  = reconnect_fails simpleParser g (after_failures simpleParser (f :: fs) a).
Proof. simpl. rewrite foldl_app. reflexivity. Qed.

Lemma after_failures_backing_off f fs accountId cfg :
  (length (f :: fs) ≤ 5)%nat →
  backing_off (length (f :: fs))
    (after_failures simpleParser (f :: fs) (newAccount accountId cfg)).
Proof.
  induction fs as [|g fs IH] using rev_ind; intros Hlen.
  - destruct (first_attempt_about f accountId cfg) as (s' & Heq & Hs').
    simpl. rewrite Heq. apply (handleReconnect_schedules 0); [exact Hs'|lia].
  - rewrite after_failures_snoc.
    simpl in Hlen. rewrite length_app in Hlen. simpl in Hlen.
    destruct (reconnect_fails_about (length (f :: fs)) g _ (IH ltac:(simpl; lia)))
      as (s' & Heq & Hs').
    rewrite Heq. simpl. rewrite length_app. simpl.
    replace (S (length fs + 1)) with (S (S (length fs))) by lia.
    apply handleReconnect_schedules; [exact Hs'|lia].
Qed.

Lemma after_failures_exhausted f fs g accountId cfg :
  length (f :: fs) = 5%nat →
  ∃ s', after_failures simpleParser (f :: fs ++ [g]) (newAccount accountId cfg)
        = emit (ELogError LogMaxReconnect) s'
        ∧ about_to_retry 5 s'.
Proof.
  intros Hlen. rewrite after_failures_snoc.
  pose proof (after_failures_backing_off f fs accountId cfg ltac:(lia)) as Hb.
  rewrite Hlen in Hb.
  destruct (reconnect_fails_about 5 g _ Hb) as (s' & Heq & Hs').
  exists s'. split; [|exact Hs'].
  rewrite Heq. apply handleReconnect_gives_up.
  destruct Hs' as (Hn & Hmax & _). rewrite Hn, Hmax.
  unfold MAX_RECONNECT_ATTEMPTS. lia.
Qed.

Lemma on_ready_account s :
  isConnected (account (on_ready s)) = true
  ∧ reconnectAttempts (account (on_ready s)) = 0
  ∧ reconnectDelay (account (on_ready s)) = INITIAL_RECONNECT_DELAY.
Proof.
  unfold on_ready, startIdleMonitoring, live_connection. simpl.
  destruct (connection (account s)); simpl; auto.
Qed.

Lemma then_ready_backing_off k s :
  backing_off k s → ∃ s', then_ready simpleParser s = on_ready s'.
Proof.
  intros Hb. unfold then_ready.
  rewrite (fire_reconnect_backing_off k) by exact Hb.
  simpl. rewrite list_lookup_middle by reflexivity. simpl.
  eexists. reflexivity.
Qed.

Lemma then_ready_started a :
  ∃ s', then_ready simpleParser (connectAccount ConnectOk (fresh a)) = on_ready s'.
Proof. eexists. reflexivity. Qed.

(** C3. The account is started and the first [n < 5] connection attempts
    fail one after the other (by an 'error' event or by an exception in
    [connectAccount]). Then the attempt counter stands at [n], the delay
    set before reconnect attempt [k] (for [1 <= k <= n]) is
    [INITIAL_RECONNECT_DELAY * 2^(k-1)], and when the next attempt succeeds
    and the connection emits 'ready' the counter is back at 0 and the
    delay at its initial value. *)
Theorem C3_backoff_delays (accountId : string) (cfg : ImapConfig)
    (fs : list FailKind) :
  (length fs < 5)%nat →
  let s := after_failures simpleParser fs (newAccount accountId cfg) in
  reconnectAttempts (account s) = Z.of_nat (length fs)
  ∧ length (reconnect_delays (effects s)) = length fs
  ∧ (∀ k, (1 ≤ k ≤ length fs)%nat →
       reconnect_delays (effects s) !! (k - 1)%nat
       = Some (INITIAL_RECONNECT_DELAY * 2 ^ (Z.of_nat k - 1)))
  ∧ isConnected (account (then_ready simpleParser s)) = true
  ∧ reconnectAttempts (account (then_ready simpleParser s)) = 0
  ∧ reconnectDelay (account (then_ready simpleParser s)) = INITIAL_RECONNECT_DELAY.
Proof.
  intros Hlen s. subst s. destruct fs as [|f fs].
  - unfold after_failures.
    destruct (then_ready_started (newAccount accountId cfg)) as [s' ->].
    destruct (on_ready_account s') as (H1 & H2 & H3).
    split_and!; try assumption; try reflexivity.
    intros k Hk. simpl in Hk. lia.
  - pose proof (after_failures_backing_off f fs accountId cfg ltac:(lia)) as Hb.
    destruct (then_ready_backing_off _ _ Hb) as [s' ->].
    destruct (on_ready_account s') as (H1 & H2 & H3).
    destruct Hb as (Hn & _ & _ & _ & _ & _ & _ & He).
    split_and!; try assumption.
    + rewrite He. apply expected_delays_length.
    + intros k Hk. rewrite He.
      rewrite expected_delays_lookup by lia.
      replace (Z.of_nat (k - 1)) with (Z.of_nat k - 1)%Z by lia. reflexivity.
Qed.

Lemma actions_app l1 l2 : actions (l1 ++ l2) = (actions l1 ++ actions l2)%list.
Proof. apply filter_app. Qed.

Lemma quiet_refl s : quiet s s.
Proof. unfold quiet. auto. Qed.

Lemma quiet_trans s1 s2 s3 : quiet s1 s2 → quiet s2 s3 → quiet s1 s3.
Proof.
  intros (A1 & A2 & A3 & A4) (B1 & B2 & B3 & B4). unfold quiet.
  split_and!; congruence.
Qed.

Lemma quiet_terminal_failed s s' :
  quiet s s' → terminal_failed s → terminal_failed s'.
Proof.
  intros (Ha & Ht & _) (H1 & H2 & H3). unfold terminal_failed, pending_reconnect.
  rewrite Ha, Ht. auto.
Qed.

Lemma set_isConnected_same a :
  isConnected a = false → set_isConnected false a = a.
Proof. destruct a; simpl; intros ->; reflexivity. Qed.

(** In the terminal state the body of an error handler only logs. *)
Lemma failed_handler_quiet s0 s msg :
  terminal_failed s0 → quiet s0 s →
  quiet s0 (handleReconnect
              (upd_account (set_isConnected false) (emit (ELogError msg) s))).
Proof.
  intros (Hc & Hmax & _) (Ha & Ht & Hl & He).
  rewrite handleReconnect_gives_up by (simpl; rewrite Ha; exact Hmax).
  unfold quiet. simpl. rewrite !actions_app, Ha, Ht, Hl, He. simpl.
  rewrite set_isConnected_same by exact Hc.
  rewrite !app_nil_r. auto.
Qed.

Lemma failed_error_event s e :
  terminal_failed s → is_error_event e = true →
  quiet s (sess_step simpleParser e s).
Proof.
  intros Hf He. destruct e; try discriminate He; simpl.
  - destruct (conns s !! c) as [k|] eqn:Hk; [|apply quiet_refl].
    destruct (c_error k); [|unfold quiet; simpl; auto].
    apply (failed_handler_quiet s); [exact Hf|].
    unfold quiet. simpl. rewrite length_alter. auto.
  - destruct err; [|discriminate He].
    destruct (assoc p (pending s)) as [[| | |]|]; try apply quiet_refl.
    apply (failed_handler_quiet s); [exact Hf|].
    unfold quiet. simpl. auto.
Qed.

Lemma failed_error_events es s :
  terminal_failed s → Forall (fun e => is_error_event e = true) es →
  quiet s (run simpleParser es s).
Proof.
  revert s. induction es as [|e es IH]; intros s Hf Hes; simpl.
  - apply quiet_refl.
  - inversion Hes as [|? ? He Hes']; subst.
    pose proof (failed_error_event s e Hf He) as Hq.
    apply (quiet_trans _ _ _ Hq). apply IH; [|exact Hes'].
    apply (quiet_terminal_failed _ _ Hq Hf).
Qed.

(** C4. Once the attempt made by [startImap] and the five reconnect
    attempts after it have all failed, the session is disconnected with
    the attempt counter at its maximum 5 and no reconnect timer waiting;
    the status query reports exactly that; five reconnects were scheduled
    and no sixth; and any further error events (an 'error' of any
    connection, a failed watchdog probe) leave the account fields, the
    timers and the status as they are and cause no connection attempt,
    command or timer: only console output. *)
Theorem C4_terminal_after_max_reconnects (accountId : string) (cfg : ImapConfig)
    (fs : list FailKind) (es : list Event) (m : Manager) :
  length fs = 6%nat →
  Forall (fun e => is_error_event e = true) es →
  let s := after_failures simpleParser fs (newAccount accountId cfg) in
  let s' := run simpleParser es s in
  terminal_failed s
  ∧ timers s = []
  ∧ length (reconnect_delays (effects s)) = 5%nat
  ∧ getAccountStatus accountId (install accountId s m)
    = Some {| st_isConnected := false; st_reconnectAttempts := 5 |}
  ∧ quiet s s'
  ∧ terminal_failed s'
  ∧ getAccountStatus accountId (install accountId s' m)
    = Some {| st_isConnected := false; st_reconnectAttempts := 5 |}.
Proof.
  intros Hlen Hes s s'.
  assert (∃ f fs' g, fs = f :: fs' ++ [g] ∧ length (f :: fs') = 5%nat)
    as (f & fs' & g & -> & Hlen').
  { destruct fs as [|f fs]; [discriminate|].
    destruct fs as [|g fs _] using rev_ind; [discriminate|].
    exists f, fs, g. split; [reflexivity|].
    simpl in Hlen. rewrite length_app in Hlen. simpl in *. lia. }
  destruct (after_failures_exhausted f fs' g accountId cfg Hlen')
    as (s0 & Heq & (Hn & Hmax & Hd & Hc & Hw & Hi & Ht & He)).
  assert (Hf : terminal_failed s).
  { subst s. rewrite Heq. unfold terminal_failed, pending_reconnect. simpl.
    rewrite Hc, Hmax, Hn, Ht. unfold MAX_RECONNECT_ATTEMPTS. simpl.
    split_and!; [reflexivity|lia|reflexivity]. }
  assert (Hst : status_of s
                = {| st_isConnected := false; st_reconnectAttempts := 5 |}).
  { subst s. rewrite Heq. unfold status_of. simpl. rewrite Hc, Hn. reflexivity. }
  pose proof (failed_error_events es s Hf Hes) as Hq. fold s' in Hq.
  split_and!.
  - exact Hf.
  - subst s. rewrite Heq. exact Ht.
  - subst s. rewrite Heq. simpl. rewrite reconnect_delays_app, He. simpl.
    rewrite ?app_nil_r. reflexivity.
  - rewrite status_install, Hst. reflexivity.
  - exact Hq.
  - apply (quiet_terminal_failed _ _ Hq Hf).
  - rewrite status_install. unfold status_of.
    destruct Hq as (Ha & _). rewrite Ha. fold (status_of s).
    rewrite Hst. reflexivity.
Qed.

End Backoff.

(** ** The registry and the account objects *)

Section Registry.

Variable simpleParser : string → option ParsedMail.

Lemma startImap_install accountId cfg o m :
  startImap accountId cfg o m
  = install accountId (connectAccount o (fresh (newAccount accountId cfg))) m.
Proof. reflexivity. Qed.

Lemma deliver_install accountId e s m :
  deliver simpleParser (length (heap m)) e (install accountId s m)
  = install accountId (sess_step simpleParser e s) m.
Proof.
  unfold deliver, install. simpl. f_equal.
  rewrite alter_app_r_alt by lia. rewrite Nat.sub_diag. reflexivity.
Qed.

Lemma deliver_all_install accountId es s m :
  foldl (fun m' e => deliver simpleParser (length (heap m)) e m')
    (install accountId s m) es
  = install accountId (run simpleParser es s) m.
Proof.
  revert s. induction es as [|e es IH]; intros s; simpl; [reflexivity|].
  rewrite deliver_install. apply IH.
Qed.

Lemma heap_install accountId s m :
  heap (install accountId s m) !! length (heap m) = Some s.
Proof. unfold install. simpl. apply list_lookup_middle. reflexivity. Qed.

Lemma on_ready_watchdog s :
  watchdogTimer (account (on_ready s)) = Some (nextTimer s)
  ∧ (nextTimer s,
     {| t_action := TWatchdog; t_delay := WATCHDOG_INTERVAL; t_repeat := true |})
    ∈ timers (on_ready s).
Proof.
  unfold on_ready, startIdleMonitoring, live_connection. simpl.
  destruct (connection (account s)); simpl;
    (split; [reflexivity|]); apply elem_of_app; right; left.
Qed.

(** C7. An account is started (whatever the credentials), any events
    reach its callbacks, and then a connection of the account whose
    'ready' listener is still installed emits 'ready'. The status query
    then reports the account connected with [reconnectAttempts = 0]; the
    reconnect delay is at its initial value and the watchdog runs. *)
Theorem C7_ready_reports_connected (accountId : string) (cfg : ImapConfig)
    (o : ConnectOutcome) (m : Manager) (es : list Event) (c : nat) :
  let r := length (heap m) in
  let m1 := foldl (fun m' e => deliver simpleParser r e m')
              (startImap accountId cfg o m) es in
  (∃ s k, heap m1 !! r = Some s ∧ conns s !! c = Some k ∧ c_ready k = true) →
  let m2 := deliver simpleParser r (ConnReady c) m1 in
  getAccountStatus accountId m2
  = Some {| st_isConnected := true; st_reconnectAttempts := 0 |}
  ∧ ∃ s2 t, heap m2 !! r = Some s2
      ∧ reconnectDelay (account s2) = INITIAL_RECONNECT_DELAY
      ∧ watchdogTimer (account s2) = Some t
      ∧ (t, {| t_action := TWatchdog; t_delay := WATCHDOG_INTERVAL;
               t_repeat := true |}) ∈ timers s2.
Proof.
  intros r m1 (s & k & Hs & Hk & Hr) m2. subst m2 m1 r.
  rewrite startImap_install, deliver_all_install in *.
  rewrite heap_install in Hs. injection Hs as <-.
  rewrite deliver_install, status_install, heap_install.
  simpl. rewrite Hk, Hr.
  match goal with |- context [on_ready ?x] =>
    destruct (on_ready_account x) as (H1 & H2 & H3);
    destruct (on_ready_watchdog x) as (H4 & H5)
  end.
  split.
  - unfold status_of. rewrite H1, H2. reflexivity.
  - eexists _, _. split_and!; [reflexivity|exact H3|exact H4|exact H5].
Qed.

End Registry.


(** ** Timer handles *)

Create HintDb tf.

Lemma tf_same s s' :
  timers s' = timers s → nextTimer s' = nextTimer s →
  timers_fresh s → timers_fresh s'.
Proof. unfold timers_fresh. intros -> ->. auto. Qed.

Lemma tf_emit e s : timers_fresh s → timers_fresh (emit e s).
Proof. apply tf_same; reflexivity. Qed.

Lemma tf_upd_account f s : timers_fresh s → timers_fresh (upd_account f s).
Proof. apply tf_same; reflexivity. Qed.

Lemma tf_set_conns cs s : timers_fresh s → timers_fresh (set_conns cs s).
Proof. apply tf_same; reflexivity. Qed.

Lemma tf_set_pending ps s : timers_fresh s → timers_fresh (set_pending ps s).
Proof. apply tf_same; reflexivity. Qed.

Lemma tf_addPending p s : timers_fresh s → timers_fresh (addPending p s).
Proof. apply tf_same; reflexivity. Qed.

Lemma tf_set_tasks ts s : timers_fresh s → timers_fresh (set_tasks ts s).
Proof. apply tf_same; reflexivity. Qed.

Lemma tf_addTask t s : timers_fresh s → timers_fresh (addTask t s).
Proof. apply tf_same; reflexivity. Qed.

Lemma tf_throw_unhandled e s : timers_fresh s → timers_fresh (throw_unhandled e s).
Proof. apply tf_same; reflexivity. Qed.

Lemma Forall_unassoc {A} (P : nat * A → Prop) t l :
  Forall P l → Forall P (unassoc t l).
Proof.
  induction 1 as [|[k v] l Hx Hl IH]; simpl; [constructor|].
  destruct (Nat.eqb k t); [exact IH|constructor; assumption].
Qed.

Lemma tf_remove t s : timers_fresh s → timers_fresh (set_timers (unassoc t (timers s)) s).
Proof. unfold timers_fresh. simpl. apply Forall_unassoc. Qed.

Lemma tf_clearTimer t s : timers_fresh s → timers_fresh (clearTimer t s).
Proof. intros H. unfold clearTimer. apply tf_emit, tf_remove, H. Qed.

Lemma tf_addTimer a d r s : timers_fresh s → timers_fresh (addTimer a d r s).
Proof.
  unfold timers_fresh, addTimer. simpl. intros H. apply Forall_app. split.
  - eapply Forall_impl; [exact H|]. simpl. intros; lia.
  - repeat constructor.
Qed.

#[local] Hint Resolve tf_emit tf_upd_account tf_set_conns tf_set_pending
  tf_addPending tf_set_tasks tf_addTask tf_throw_unhandled
  tf_remove tf_clearTimer tf_addTimer : tf.

Lemma tf_cleanupTimers s : timers_fresh s → timers_fresh (cleanupTimers s).
Proof.
  intros H. unfold cleanupTimers.
  destruct (watchdogTimer (account s)); simpl;
    match goal with |- context [idleTimer ?a] => destruct (idleTimer a) end;
    auto 10 with tf.
Qed.

#[local] Hint Resolve tf_cleanupTimers : tf.

Lemma tf_handleReconnect s : timers_fresh s → timers_fresh (handleReconnect s).
Proof.
  intros H. unfold handleReconnect.
  destruct (_ <=? _)%Z; auto 10 with tf.
Qed.

#[local] Hint Resolve tf_handleReconnect : tf.

Lemma tf_connectAccount o s : timers_fresh s → timers_fresh (connectAccount o s).
Proof. intros H. destruct o; simpl; auto 10 with tf. Qed.

Lemma tf_restartIdle s : timers_fresh s → timers_fresh (restartIdle s).
Proof. intros H. unfold restartIdle. destruct (live_connection s); auto with tf. Qed.

Lemma tf_startWatchdog s : timers_fresh s → timers_fresh (startWatchdog s).
Proof. intros H. unfold startWatchdog. auto with tf. Qed.

Lemma tf_startIdleMonitoring s : timers_fresh s → timers_fresh (startIdleMonitoring s).
Proof.
  intros H. unfold startIdleMonitoring. destruct (live_connection s); auto with tf.
Qed.

#[local] Hint Resolve tf_connectAccount tf_restartIdle tf_startWatchdog
  tf_startIdleMonitoring : tf.

Lemma tf_fetchNewEmails o s : timers_fresh s → timers_fresh (fetchNewEmails o s).
Proof.
  intros H. unfold fetchNewEmails.
  destruct (live_connection s); [destruct o|]; auto 10 with tf.
Qed.

#[local] Hint Resolve tf_fetchNewEmails : tf.

Section TimerHandles.

Variable simpleParser : string → option ParsedMail.

Lemma tf_processEmail raw seqno io s :
  timers_fresh s → timers_fresh (processEmail simpleParser raw seqno io s).
Proof.
  intros H. unfold processEmail.
  destruct (simpleParser raw); [destruct (indexOk io); [destruct (classifyOk io)|]|];
    auto 10 with tf.
Qed.

Lemma tf_on_timer t o s : timers_fresh s → timers_fresh (on_timer t o s).
Proof.
  intros H. unfold on_timer.
  destruct (assoc t (timers s)) as [tm|]; [|exact H].
  assert (timers_fresh (if t_repeat tm then s
                        else set_timers (unassoc t (timers s)) s)) as H'
    by (destruct (t_repeat tm); auto with tf).
  destruct (t_action tm); auto with tf.
  - unfold watchdog_tick. destruct (live_connection _); auto with tf.
  - unfold idle_restart_tick. destruct (live_connection _); auto with tf.
Qed.

(** Every turn of the event loop keeps the handles fresh. *)
Lemma tf_sess_step e s :
  timers_fresh s → timers_fresh (sess_step simpleParser e s).
Proof.
  intros H. destruct e; simpl.
  - destruct (conns s !! c) as [k|]; [destruct (c_ready k)|]; auto.
    unfold on_ready. auto 10 with tf.
  - destruct (conns s !! c) as [k|]; [destruct (c_error k)|]; auto with tf.
    unfold on_error. auto 10 with tf.
  - destruct (conns s !! c) as [k|]; [destruct (c_end k)|]; auto.
    unfold on_end. auto 10 with tf.
  - destruct (conns s !! c); auto with tf.
  - exact H.
  - apply tf_on_timer, H.
  - destruct (assoc p (pending s)) as [[| | |]|]; auto.
    unfold noop_callback. destruct err; auto 10 with tf.
  - destruct (assoc p (pending s)) as [[| | |]|]; auto.
    unfold openBox_callback. destruct err; [auto with tf|].
    destruct (connection _); auto with tf.
  - destruct (assoc p (pending s)) as [[| | |]|]; auto.
    unfold search_callback. destruct r as [|[[|x xs]|]]; auto 10 with tf.
    destruct (connection _); auto 10 with tf.
  - destruct (assoc f (pending s)) as [[| | |]|]; auto.
  - destruct (assoc f (pending s)) as [[| | |ids [|] en]|];
      unfold replace_pending; auto with tf.
  - destruct (assoc f (pending s)) as [[| | |ids er [|]]|];
      unfold replace_pending; auto with tf.
  - destruct (assoc p (tasks s)) as [[| |]|]; auto.
    unfold processEmail_parsed, replace_task, drop_task.
    destruct (simpleParser rawEmail); auto with tf.
  - destruct (assoc p (tasks s)) as [[| |]|]; auto.
    unfold processEmail_indexed, replace_task, drop_task.
    destruct (indexOk io); auto with tf.
  - destruct (assoc p (tasks s)) as [[| |]|]; auto.
    unfold processEmail_classified, drop_task.
    destruct (classifyOk io); auto with tf.
Qed.

Lemma tf_run es s : timers_fresh s → timers_fresh (run simpleParser es s).
Proof.
  revert s. induction es as [|e es IH]; intros s H; simpl; [exact H|].
  apply IH, tf_sess_step, H.
Qed.

Lemma tf_started o a : timers_fresh (connectAccount o (fresh a)).
Proof. apply tf_connectAccount. constructor. Qed.

End TimerHandles.

(** ** The fetch cycle *)

Lemma assoc_app_fresh {A} t (v : A) l :
  Forall (fun p => (fst p < t)%nat) l → assoc t (l ++ [(t, v)]) = Some v.
Proof.
  induction 1 as [|[k w] l Hk Hl IH]; simpl.
  - rewrite Nat.eqb_refl. reflexivity.
  - simpl in Hk. destruct (Nat.eqb_spec k t); [lia|exact IH].
Qed.

Lemma slice_last10_suffix rs : ∃ older, rs = (older ++ slice_last10 rs)%list.
Proof.
  exists (take (length rs - 10) rs). unfold slice_last10.
  symmetry. apply take_drop.
Qed.

Lemma slice_last10_length rs : length (slice_last10 rs) = min 10 (length rs).
Proof. unfold slice_last10. rewrite length_drop. lia. Qed.

Section FetchCycle.

Variable simpleParser : string → option ParsedMail.

(** [restartIdle] on a connected account sets the one-second timer, and
    when that timer fires [idle()] is called again. *)
Lemma restartIdle_resumes s c o :
  timers_fresh s → live_connection s = Some c →
  account (restartIdle s) = account s
  ∧ effects (restartIdle s)
    = (effects s ++ [ESetTimer (nextTimer s) TIdleRestart 1000])%list
  ∧ effects (sess_step simpleParser (TimerFire (nextTimer s) o) (restartIdle s))
    = (effects (restartIdle s) ++ [EIdle c])%list.
Proof.
  intros Hf Hl. unfold restartIdle. rewrite Hl. simpl.
  split_and!; try reflexivity.
  unfold on_timer. simpl. rewrite assoc_app_fresh by exact Hf. simpl.
  unfold idle_restart_tick.
  replace (live_connection _) with (Some c) by (rewrite <- Hl; reflexivity).
  reflexivity.
Qed.

(** C9. When the search of a fetch cycle answers on a connected account:
    a non-empty result makes the code issue exactly one fetch, for the
    last [min 10 (length results)] identifiers of the result; an empty
    or null result makes it issue no fetch but set the idle-restart
    timer, on whose firing [idle()] is called again. *)
Theorem C9_fetch_last_ten (s : Session) (p c : nat) :
  timers_fresh s →
  assoc p (pending s) = Some PSearch →
  live_connection s = Some c →
  (∀ rs, rs ≠ [] →
     let s' := sess_step simpleParser (SearchDone p (SearchResults (Some rs))) s in
     effects s' = (effects s ++ [EFetch c (slice_last10 rs)])%list
     ∧ length (slice_last10 rs) = min 10 (length rs)
     ∧ ∃ older, rs = (older ++ slice_last10 rs)%list)
  ∧ (∀ r, r = None ∨ r = Some [] →
     let s' := sess_step simpleParser (SearchDone p (SearchResults r)) s in
     effects s' = (effects s ++ [ESetTimer (nextTimer s) TIdleRestart 1000])%list
     ∧ account s' = account s
     ∧ ∀ o, effects (sess_step simpleParser (TimerFire (nextTimer s) o) s')
            = (effects s' ++ [EIdle c])%list).
Proof.
  intros Hf Hp Hl. split.
  - intros rs Hrs s'. subst s'. simpl. rewrite Hp.
    destruct rs as [|x xs]; [contradiction|].
    unfold search_callback.
    assert (connection (account s) = Some c) as Hc.
    { unfold live_connection in Hl. destruct (isConnected (account s));
        [exact Hl|discriminate]. }
    simpl. rewrite Hc. simpl.
    split_and!; [reflexivity|apply slice_last10_length|apply slice_last10_suffix].
  - intros r Hr s'.
    assert (s' = restartIdle (set_pending (unassoc p (pending s)) s)) as ->.
    { subst s'. simpl. rewrite Hp. destruct Hr as [-> | ->]; reflexivity. }
    pose proof (λ o, restartIdle_resumes
                       (set_pending (unassoc p (pending s)) s) c o
                       (tf_set_pending _ _ Hf) Hl) as H.
    split_and!.
    + apply (H ConnectOk).
    + apply (H ConnectOk).
    + intros o. apply (H o).
Qed.

End FetchCycle.

(** ** Per-message failures inside a batch *)

Lemma indexed_app l1 l2 : indexed (l1 ++ l2) = (indexed l1 ++ indexed l2)%list.
Proof. apply omap_app. Qed.





(** ** Handles of the calls of [processEmail] *)

Lemma keys_replace {A} p (v : A) (l : list (nat * A)) :
  map fst (map (fun e => if Nat.eqb (fst e) p then (p, v) else e) l) = map fst l.
Proof.
  induction l as [|[k w] l IH]; simpl; [reflexivity|].
  destruct (Nat.eqb_spec k p); simpl; congruence.
Qed.

Lemma keys_unassoc {A} p (l : list (nat * A)) :
  map fst (unassoc p l) = filter (fun k => k ≠ p) (map fst l).
Proof.
  induction l as [|[k w] l IH]; simpl; [reflexivity|].
  rewrite filter_cons. destruct (Nat.eqb_spec k p); destruct (decide (k ≠ p));
    simpl; try congruence; contradiction.
Qed.



Lemma unassoc_app_fresh {A} t (v : A) l :
  Forall (fun k => (k < t)%nat) (map fst l) → unassoc t (l ++ [(t, v)]) = l.
Proof.
  induction l as [|[k w] l IH]; simpl.
  - rewrite Nat.eqb_refl. reflexivity.
  - intros H. apply Forall_cons in H as [Hk Hl].
    destruct (Nat.eqb_spec k t); [lia|]. rewrite IH by exact Hl. reflexivity.
Qed.

Lemma replace_app_fresh {A} t (v v' : A) l :
  Forall (fun k => (k < t)%nat) (map fst l) →
  map (fun e => if Nat.eqb (fst e) t then (t, v') else e) (l ++ [(t, v)])
  = l ++ [(t, v')].
Proof.
  induction l as [|[k w] l IH]; simpl.
  - rewrite Nat.eqb_refl. reflexivity.
  - intros H. apply Forall_cons in H as [Hk Hl].
    destruct (Nat.eqb_spec k t); [lia|]. rewrite IH by exact Hl. reflexivity.
Qed.

Lemma assoc_app_new {A} t (v : A) l :
  Forall (fun k => (k < t)%nat) (map fst l) → assoc t (l ++ [(t, v)]) = Some v.
Proof.
  intros H. apply assoc_app_fresh. apply Forall_map in H. exact H.
Qed.

Lemma assoc_fresh_None {A} t (l : list (nat * A)) :
  Forall (fun k => (k < t)%nat) (map fst l) → assoc t l = None.
Proof.
  induction l as [|[k w] l IH]; simpl; [reflexivity|].
  intros H. apply Forall_cons in H as [Hk Hl].
  destruct (Nat.eqb_spec k t); [lia|exact (IH Hl)].
Qed.


Lemma tasks_wf_same s s' :
  tasks s' = tasks s → nextTask s' = nextTask s → tasks_wf s → tasks_wf s'.
Proof. unfold tasks_wf. intros -> ->. auto. Qed.

Lemma tasks_wf_addTask t s : tasks_wf s → tasks_wf (addTask t s).
Proof.
  intros [Hnd Hlt]. unfold tasks_wf. simpl. rewrite map_app. simpl. split.
  - apply NoDup_app. split; [exact Hnd|]. split; [|apply NoDup_singleton].
    intros k Hk Hk'. apply list_elem_of_singleton in Hk'. subst k.
    rewrite Forall_forall in Hlt. specialize (Hlt _ Hk). lia.
  - apply Forall_app. split; [|repeat constructor].
    eapply Forall_impl; [exact Hlt|]. simpl. intros; lia.
Qed.

Lemma tasks_wf_replace p t s : tasks_wf s → tasks_wf (replace_task p t s).
Proof. unfold tasks_wf, replace_task. simpl. rewrite keys_replace. auto. Qed.

Lemma tasks_wf_drop p s : tasks_wf s → tasks_wf (drop_task p s).
Proof.
  intros [Hnd Hlt]. unfold tasks_wf, drop_task. simpl. rewrite keys_unassoc.
  split; [apply NoDup_filter, Hnd|].
  apply Forall_forall. intros k Hk. apply list_elem_of_filter in Hk as [_ Hk].
  rewrite Forall_forall in Hlt. auto.
Qed.

Lemma tasks_wf_emit e s : tasks_wf s → tasks_wf (emit e s).
Proof. apply tasks_wf_same; reflexivity. Qed.





Section Batch.

Variable simpleParser : string → option ParsedMail.

(** The turns of one call of [processEmail], taken one after the other
    with nothing in between, do what [processEmail] does. *)
Lemma processEmail_turns f ids er en raw seqno io s :
  tasks_wf s →
  assoc f (pending s) = Some (PFetch ids er en) →
  let p := nextTask s in
  let s' := run simpleParser
              [FetchMessage f seqno raw io; ParseDone p; IndexDone p; ClassifyDone p] s in
  effects s' = effects (processEmail simpleParser raw seqno io s)
  ∧ tasks s' = tasks s
  ∧ account s' = account s.
Proof.
  intros [_ Hlt] Hp. cbv zeta. simpl. rewrite Hp.
  unfold processEmail_call. simpl. rewrite (assoc_app_new _ _ _ Hlt).
  unfold processEmail_parsed, processEmail. destruct (simpleParser raw) as [parsed|].
  - unfold replace_task. simpl. rewrite (replace_app_fresh _ _ _ _ Hlt).
    rewrite (assoc_app_new _ _ _ Hlt). unfold processEmail_indexed.
    destruct (indexOk io).
    + unfold replace_task. simpl. rewrite (replace_app_fresh _ _ _ _ Hlt).
      rewrite (assoc_app_new _ _ _ Hlt). unfold processEmail_classified, drop_task.
      destruct (classifyOk io); simpl; rewrite (unassoc_app_fresh _ _ _ Hlt); auto.
    + unfold drop_task. simpl. rewrite (unassoc_app_fresh _ _ _ Hlt).
      repeat (first [rewrite (assoc_fresh_None _ _ Hlt) | progress simpl]). auto.
  - unfold drop_task. simpl. rewrite (unassoc_app_fresh _ _ _ Hlt).
    repeat (first [rewrite (assoc_fresh_None _ _ Hlt) | progress simpl]). auto.
Qed.








End Batch.

(** ** New-activity signals *)

Lemma searches_app l1 l2 : searches (l1 ++ l2) = (searches l1 + searches l2)%nat.
Proof. unfold searches. rewrite filter_app, length_app. reflexivity. Qed.

Lemma fetchNewEmails_issue s cur :
  live_connection s = Some cur →
  fetchNewEmails IssueOk s
  = addPending PSearch (emit (ESearch cur) (emit (EIdleStop cur) s)).
Proof. intros H. unfold fetchNewEmails. rewrite H. reflexivity. Qed.

Section Signals.

Variable simpleParser : string → option ParsedMail.

Lemma signals_effects_issued cur t os :
  Forall (fun o => o = IssueOk) os →
  signals_effects cur t os
  = concat (replicate (length os) [EIdleStop cur; ESearch cur]).
Proof.
  induction 1 as [|o os -> Hos IH]; simpl; [reflexivity|]. rewrite IH. reflexivity.
Qed.

(** C2 (as the code has it). There is no busy state and no coalescing:
    every 'mail' event that reaches a connected account runs
    [fetchNewEmails] at once, whatever is already in flight. It calls
    [idleStop] and then [search]; when both calls return, the event has
    started a fetch cycle of its own, so that [n] such events start [n]
    cycles that are in flight together; when [idleStop] or [search]
    throws, the error is logged, no search is issued for that event and
    the idle-restart timer is set; no other timer is set, so nothing is
    scheduled that would start a cycle later. In no case does an event
    wait for, or merge with, the cycles in flight: what each event does
    is the same whatever is pending. *)
Theorem C2_every_signal_starts_a_cycle (s : Session) (c cur : nat)
    (os : list FetchOutcome) :
  is_Some (conns s !! c) →
  live_connection s = Some cur →
  let s' := run simpleParser (map (ConnMail c) os) s in
  let n := length (filter (fun o => issued o = true) os) in
  in_flight s' = (in_flight s + n)%nat
  ∧ searches (effects s') = (searches (effects s) + n)%nat
  ∧ effects s' = effects s ++ signals_effects cur (nextTimer s) os
  ∧ account s' = account s
  ∧ (∃ added, timers s' = timers s ++ added
       ∧ Forall (fun p => snd p = idleRestartTimer) added
       ∧ (length added + n = length os)%nat)
  ∧ (Forall (fun o => o = IssueOk) os →
     in_flight s' = (in_flight s + length os)%nat
     ∧ effects s'
       = effects s ++ concat (replicate (length os) [EIdleStop cur; ESearch cur])).
Proof.
  intros Hc Hl. cbv zeta.
  assert (Hmain : ∀ os s, is_Some (conns s !! c) → live_connection s = Some cur →
            let s' := run simpleParser (map (ConnMail c) os) s in
            let n := length (filter (fun o => issued o = true) os) in
            in_flight s' = (in_flight s + n)%nat
            ∧ searches (effects s') = (searches (effects s) + n)%nat
            ∧ effects s' = effects s ++ signals_effects cur (nextTimer s) os
            ∧ account s' = account s
            ∧ (∃ added, timers s' = timers s ++ added
                 ∧ Forall (fun p => snd p = idleRestartTimer) added
                 ∧ (length added + n = length os)%nat)).
  { clear s os Hc Hl. induction os as [|o os IH]; intros s [k Hk] Hl; cbv zeta; simpl.
    - rewrite app_nil_r. split_and!; try first [reflexivity|lia].
      exists []. rewrite app_nil_r. split_and!; [reflexivity|constructor|reflexivity].
    - rewrite Hk. unfold fetchNewEmails. rewrite Hl.
      fold (run simpleParser (map (ConnMail c) os)).
      destruct o; simpl issued; cbv iota.
      + set (s1 := addPending PSearch (emit (ESearch cur) (emit (EIdleStop cur) s))).
        destruct (IH s1) as (H1 & H2 & H3 & H4 & (added & H5 & H6 & H7));
          [exists k; exact Hk|exact Hl|].
        cbv zeta in H1, H2. rewrite H1, H2, H3, H4.
        rewrite filter_cons, decide_True by reflexivity. simpl length.
        split; [|split; [|split; [|split]]].
        * unfold in_flight, s1. simpl. rewrite filter_app, length_app. simpl. lia.
        * unfold s1. simpl. rewrite <- app_assoc, !searches_app.
          change (searches [EIdleStop cur]) with 0%nat.
          change (searches [ESearch cur]) with 1%nat. lia.
        * unfold s1. simpl. rewrite <- !app_assoc. reflexivity.
        * reflexivity.
        * exists added. split; [exact H5|]. split; [exact H6|]. lia.
      + unfold restartIdle.
        replace (live_connection (emit (ELogError LogFetchFailed) s))
          with (Some cur) by (rewrite <- Hl; reflexivity).
        set (s1 := addTimer TIdleRestart 1000 false
                     (emit (ELogError LogFetchFailed) s)).
        destruct (IH s1) as (H1 & H2 & H3 & H4 & (added & H5 & H6 & H7));
          [exists k; exact Hk|exact Hl|].
        cbv zeta in H1, H2. rewrite H1, H2, H3, H4.
        rewrite filter_cons, decide_False by discriminate.
        split; [|split; [|split; [|split]]].
        * reflexivity.
        * unfold s1. simpl. rewrite <- app_assoc, !searches_app.
          change (searches [ELogError LogFetchFailed]) with 0%nat.
          change (searches [ESetTimer (nextTimer s) TIdleRestart 1000]) with 0%nat.
          lia.
        * unfold s1. simpl. rewrite <- !app_assoc. reflexivity.
        * reflexivity.
        * exists ((nextTimer s, idleRestartTimer) :: added).
          split; [rewrite H5; unfold s1; simpl; rewrite <- app_assoc; reflexivity|].
          split; [constructor; [reflexivity|exact H6]|]. simpl. lia.
      + unfold restartIdle.
        replace (live_connection
                   (emit (ELogError LogFetchFailed) (emit (EIdleStop cur) s)))
          with (Some cur) by (rewrite <- Hl; reflexivity).
        set (s1 := addTimer TIdleRestart 1000 false
                     (emit (ELogError LogFetchFailed) (emit (EIdleStop cur) s))).
        destruct (IH s1) as (H1 & H2 & H3 & H4 & (added & H5 & H6 & H7));
          [exists k; exact Hk|exact Hl|].
        cbv zeta in H1, H2. rewrite H1, H2, H3, H4.
        rewrite filter_cons, decide_False by discriminate.
        split; [|split; [|split; [|split]]].
        * reflexivity.
        * unfold s1. simpl. rewrite <- !app_assoc, !searches_app.
          change (searches [EIdleStop cur]) with 0%nat.
          change (searches [ELogError LogFetchFailed]) with 0%nat.
          change (searches [ESetTimer (nextTimer s) TIdleRestart 1000]) with 0%nat.
          lia.
        * unfold s1. simpl. rewrite <- !app_assoc. reflexivity.
        * reflexivity.
        * exists ((nextTimer s, idleRestartTimer) :: added).
          split; [rewrite H5; unfold s1; simpl; rewrite <- app_assoc; reflexivity|].
          split; [constructor; [reflexivity|exact H6]|]. simpl. lia. }
  destruct (Hmain os s Hc Hl) as (H1 & H2 & H3 & H4 & H5). cbv zeta in H1, H2, H5.
  split; [exact H1|]. split; [exact H2|]. split; [exact H3|]. split; [exact H4|].
  split; [exact H5|].
  intros Hall. split.
  - rewrite H1. f_equal. f_equal. clear -Hall.
    induction Hall as [|o os -> Hos IH]; [reflexivity|].
    rewrite filter_cons, decide_True by reflexivity. simpl. congruence.
  - rewrite H3, (signals_effects_issued _ _ _ Hall). reflexivity.
Qed.

End Signals.

(** C2 (as stated) fails either way. When [idleStop] and [search] return,
    three 'mail' events in a row on the idling account "acct-1" leave three
    searches in flight at once. When [idleStop] throws, two 'mail' events
    that arrive while a cycle is in flight are followed by no cycle at
    all: the cycle in flight completes, every idle-restart timer fires,
    and no further search has been issued. *)
Lemma C2_three_cycles_in_flight :
  let s := run sampleParser (replicate 3 (ConnMail 0 IssueOk)) sampleListening in
  let s2 := run sampleParser
              [ConnMail 0 IdleStopThrows; ConnMail 0 IdleStopThrows;
               SearchDone 1 (SearchResults (Some []));
               TimerFire 1 ConnectOk; TimerFire 2 ConnectOk; TimerFire 3 ConnectOk]
              sampleSearching in
  in_flight sampleListening = 0%nat
  ∧ in_flight s = 3%nat
  ∧ searches (effects s) = 3%nat
  ∧ in_flight sampleSearching = 1%nat
  ∧ in_flight s2 = 0%nat
  ∧ searches (effects s2) = searches (effects sampleSearching)
  ∧ timers s2 = timers sampleSearching.
Proof. vm_compute. auto 10. Qed.

(** ** Starting an account that is already registered *)

(** C1 (as the code has it). [startImap] has no failure case. For every
    account id, registered or not, it builds a new account object, runs
    [connectAccount] on it and registers it under the id, replacing any
    earlier registration; every account object that existed before,
    including one registered under the same id, is left exactly as it was
    (it is not stopped), and the other registrations are unchanged. *)
Theorem C1_startImap_always_registers (accountId : string) (cfg : ImapConfig)
    (o : ConnectOutcome) (m : Manager) :
  let m' := startImap accountId cfg o m in
  let s0 := connectAccount o (fresh (newAccount accountId cfg)) in
  accounts m' !! accountId = Some (length (heap m))
  ∧ heap m' !! length (heap m) = Some s0
  ∧ getAccountStatus accountId m' = Some (status_of s0)
  ∧ (o = ConnectOk →
       effects s0 = [EConnect 0]
       ∧ status_of s0 = {| st_isConnected := false; st_reconnectAttempts := 0 |})
  ∧ (∀ r s, heap m !! r = Some s → heap m' !! r = Some s)
  ∧ (∀ other, other ≠ accountId → accounts m' !! other = accounts m !! other).
Proof.
  cbv zeta. rewrite startImap_install. split_and!.
  - apply lookup_insert_eq.
  - apply heap_install.
  - apply status_install.
  - intros ->. split; reflexivity.
  - intros r s Hr. simpl. apply lookup_app_l_Some. exact Hr.
  - intros other Hne. simpl. apply lookup_insert_ne. congruence.
Qed.

(** C1 (as stated) fails: "acct-1" is started and connected, so its status
    is connected with 0 attempts; starting "acct-1" again does not fail but
    returns a registry in which "acct-1" is a different account object,
    disconnected, while the first object lives on outside the registry. *)
Lemma C1_second_start_replaces :
  let m1 := deliver sampleParser 0 (ConnReady 0)
              (startImap "acct-1" sampleConfig ConnectOk emptyManager) in
  let m2 := startImap "acct-1" sampleConfig ConnectOk m1 in
  getAccountStatus "acct-1" m1
  = Some {| st_isConnected := true; st_reconnectAttempts := 0 |}
  ∧ getAccountStatus "acct-1" m2
    = Some {| st_isConnected := false; st_reconnectAttempts := 0 |}
  ∧ accounts m1 !! "acct-1" = Some 0%nat
  ∧ accounts m2 !! "acct-1" = Some 1%nat
  ∧ heap m2 !! 0%nat = heap m1 !! 0%nat.
Proof. vm_compute. auto 10. Qed.

(** ** Fields that stay as [startImap] wrote them *)

Ltac crush_static :=
  unfold static_fields; intros (Hd & Hm & Hi);
  repeat (simpl; rewrite ?Hd, ?Hm, ?Hi;
          try match goal with
              | |- context [match ?x with _ => _ end] => destruct x
              end);
  simpl; auto.

Lemma static_cleanupTimers s : static_fields s → static_fields (cleanupTimers s).
Proof. unfold cleanupTimers. crush_static. Qed.

Lemma static_handleReconnect s : static_fields s → static_fields (handleReconnect s).
Proof.
  intros H. unfold handleReconnect. destruct (_ <=? _)%Z; [exact H|].
  apply (static_cleanupTimers
           (upd_account (fun a => set_reconnectAttempts (reconnectAttempts a + 1) a) s)).
  exact H.
Qed.

Lemma static_same s s' : account s' = account s → static_fields s → static_fields s'.
Proof. unfold static_fields. intros ->. auto. Qed.

Lemma static_disconnect s :
  static_fields s → static_fields (upd_account (set_isConnected false) s).
Proof. unfold static_fields. simpl. auto. Qed.

Lemma static_connectAccount o s : static_fields s → static_fields (connectAccount o s).
Proof.
  intros H. destruct o; simpl; try apply static_handleReconnect; exact H.
Qed.

Lemma static_restartIdle s : static_fields s → static_fields (restartIdle s).
Proof. unfold restartIdle. destruct (live_connection s); auto. Qed.

Section StaticFields.

Variable simpleParser : string → option ParsedMail.

Lemma static_on_ready s : static_fields s → static_fields (on_ready s).
Proof.
  intros (Hd & Hm & Hi). unfold on_ready, startIdleMonitoring, live_connection.
  simpl. destruct (connection (account s)); unfold static_fields; simpl; auto.
Qed.

(** No turn of the event loop changes the base delay or the maximum, and
    none ever stores a handle in [idleTimer]. *)
Lemma static_sess_step e s :
  static_fields s → static_fields (sess_step simpleParser e s).
Proof.
  intros H. destruct e; simpl.
  - destruct (conns s !! c) as [k|]; [destruct (c_ready k)|]; auto.
    apply static_on_ready, H.
  - destruct (conns s !! c) as [k|]; [destruct (c_error k)|]; auto.
    apply static_handleReconnect, static_disconnect, H.
  - destruct (conns s !! c) as [k|]; [destruct (c_end k)|]; auto.
    apply static_cleanupTimers, static_disconnect, H.
  - destruct (conns s !! c); auto. unfold fetchNewEmails.
    destruct (live_connection s); auto.
    destruct o; try apply static_restartIdle; exact H.
  - exact H.
  - unfold on_timer. destruct (assoc t (timers s)) as [tm|]; auto.
    assert (static_fields (if t_repeat tm then s
                           else set_timers (unassoc t (timers s)) s)) as H'
      by (destruct (t_repeat tm); exact H).
    destruct (t_action tm).
    + unfold watchdog_tick. destruct (live_connection _); exact H'.
    + unfold idle_restart_tick. destruct (live_connection _); exact H'.
    + apply static_connectAccount, H'.
  - destruct (assoc p (pending s)) as [[| | |]|]; auto.
    destruct err; simpl; auto.
    apply static_handleReconnect, static_disconnect, H.
  - destruct (assoc p (pending s)) as [[| | |]|]; auto.
    unfold openBox_callback. destruct err; [exact H|].
    simpl. destruct (connection (account s)); exact H.
  - destruct (assoc p (pending s)) as [[| | |]|]; auto.
    destruct r as [|[[|x xs]|]]; simpl; try apply static_restartIdle; try exact H.
    destruct (connection (account s)); exact H.
  - destruct (assoc f (pending s)) as [[| | |]|]; auto.
  - destruct (assoc f (pending s)) as [[| | |ids [|] en]|]; exact H.
  - destruct (assoc f (pending s)) as [[| | |ids er [|]]|]; auto.
    apply static_restartIdle. exact H.
  - destruct (assoc p (tasks s)) as [[| |]|]; auto.
    unfold processEmail_parsed. destruct (simpleParser rawEmail); exact H.
  - destruct (assoc p (tasks s)) as [[| |]|]; auto.
    unfold processEmail_indexed. destruct (indexOk io); exact H.
  - destruct (assoc p (tasks s)) as [[| |]|]; auto.
    unfold processEmail_classified. destruct (classifyOk io); exact H.
Qed.

Lemma static_run es s : static_fields s → static_fields (run simpleParser es s).
Proof.
  revert s. induction es as [|e es IH]; intros s H; simpl; [exact H|].
  apply IH, static_sess_step, H.
Qed.

Lemma static_started o accountId cfg :
  static_fields (connectAccount o (fresh (newAccount accountId cfg))).
Proof. apply static_connectAccount. repeat split. Qed.

End StaticFields.

(** Whatever the state reached, a reconnect that is scheduled raises the
    counter by one and waits [INITIAL_RECONNECT_DELAY * 2^(attempts-1)]. *)
Lemma handleReconnect_delay s :
  static_fields s →
  (reconnectAttempts (account s) < maxReconnectAttempts (account s))%Z →
  let s' := handleReconnect s in
  reconnectAttempts (account s') = (reconnectAttempts (account s) + 1)%Z
  ∧ reconnect_delays (effects s')
    = reconnect_delays (effects s)
      ++ [(INITIAL_RECONNECT_DELAY * 2 ^ (reconnectAttempts (account s') - 1))%Z].
Proof.
  intros (Hd & Hm & Hi) Hlt. cbv zeta. unfold handleReconnect.
  destruct (Z.leb_spec (maxReconnectAttempts (account s))
              (reconnectAttempts (account s))); [lia|].
  unfold cleanupTimers.
  destruct s as [[? ? ? ? ? ? ? [h|] ?] ? ? ? ? ? ?]; simpl in *; subst;
    simpl; rewrite !reconnect_delays_app; simpl; rewrite ?app_nil_r; auto.
Qed.

Lemma assoc_unassoc_ne {A} h t (l : list (nat * A)) :
  h ≠ t → assoc t (unassoc h l) = assoc t l.
Proof.
  intros Hne. induction l as [|[k v] l IH]; simpl; [reflexivity|].
  destruct (Nat.eqb_spec k h) as [->|Hk].
  - destruct (Nat.eqb_spec h t); [contradiction|exact IH].
  - simpl. destruct (Nat.eqb_spec k t); [reflexivity|exact IH].
Qed.

(** With [idleTimer] never set, [cleanupTimers] cancels the watchdog
    interval and nothing else. *)
Lemma cleanupTimers_keeps_timeouts s t tm :
  static_fields s →
  assoc t (timers s) = Some tm →
  watchdogTimer (account s) ≠ Some t →
  assoc t (timers (cleanupTimers s)) = Some tm.
Proof.
  intros (_ & _ & Hi) Ht Hw. unfold cleanupTimers.
  destruct (watchdogTimer (account s)) as [h|] eqn:Hh; simpl; rewrite Hi.
  - simpl. rewrite assoc_unassoc_ne by congruence. exact Ht.
  - exact Ht.
Qed.

(** ** Stopping an account *)

(** C5 (the code at its failing input). "acct-1" is connected and idling,
    a 'mail' event arrives, the search answers with no result, so
    [restartIdle] sets its one-second timer; then [stopImap] runs. The
    account is gone from the registry and the watchdog interval is cleared,
    but the handle of the idle-restart timer was never stored in
    [idleTimer], so the timer is still waiting, and when it fires it calls
    [idle()] on the connection that [stopImap] has just ended. Likewise a
    'message' event of a fetch that was in flight at the time of the stop
    still starts [processEmail], whose record reaches the sink when the
    parser and the sink have settled. *)
Theorem C5_stop_leaves_idle_restart_timer :
  let m := foldl (fun m e => deliver sampleParser 0 e m)
             (startImap "acct-1" sampleConfig ConnectOk emptyManager)
             [ConnReady 0; OpenBoxDone 0 false; ConnMail 0 IssueOk;
              SearchDone 1 (SearchResults (Some []))] in
  let m' := stopImap "acct-1" m in
  getAccountStatus "acct-1" m' = None
  ∧ (∃ s', heap m' !! 0%nat = Some s'
       ∧ watchdogTimer (account s') = None
       ∧ idleTimer (account s') = None
       ∧ timers s' = [(1%nat, {| t_action := TIdleRestart; t_delay := 1000;
                                 t_repeat := false |})]
       ∧ effects (sess_step sampleParser (TimerFire 1 ConnectOk) s')
         = effects s' ++ [EIdle 0])
  ∧ length (indexed (effects (stop_session sampleFetching))) = 0%nat
  ∧ length (indexed (effects
              (run sampleParser
                 [FetchMessage 2 3 "late" sampleIO; ParseDone 0; IndexDone 0]
                 (stop_session sampleFetching)))) = 1%nat.
Proof.
  cbv zeta. split_and!.
  - vm_compute. reflexivity.
  - eexists. split; [vm_compute; reflexivity|]. vm_compute. auto.
  - vm_compute. reflexivity.
  - vm_compute. reflexivity.
Qed.

(** ** The theorems at concrete inputs *)

Example toArray_single :
  toArray (AddrOne {| a_text := Some "Ann <ann@example.com>"; a_address := None |})
  = ["Ann <ann@example.com>"].
Proof. reflexivity. Qed.

Example toArray_list :
  toArray (AddrMany [Some {| a_text := Some "ann@example.com"; a_address := None |};
                     None;
                     Some {| a_text := Some ""; a_address := Some "bob@example.com" |};
                     Some {| a_text := None; a_address := None |}])
  = ["ann@example.com"; "bob@example.com"].
Proof. reflexivity. Qed.

Example cc_omitted_when_empty :
  nonempty_or_undefined (toArray AddrAbsent) = None
  ∧ nonempty_or_undefined (toArray (AddrMany [])) = None
  ∧ nonempty_or_undefined
      (toArray (AddrOne {| a_text := Some ""; a_address := None |})) = None.
Proof. repeat split. Qed.

(** C3 at four failures of mixed kinds: delays 1 s, 2 s, 4 s, 8 s. *)
Lemma C3_backoff_delays_witness :
  (length sampleFailures < 5)%nat
  ∧ reconnect_delays
      (effects (after_failures sampleParser sampleFailures
                  (newAccount "acct-1" sampleConfig)))
    = [1000; 2000; 4000; 8000]
  ∧ reconnectAttempts
      (account (after_failures sampleParser sampleFailures
                  (newAccount "acct-1" sampleConfig))) = 4.
Proof.
  assert (Hlen : (length sampleFailures < 5)%nat) by (simpl; lia).
  pose proof (C3_backoff_delays sampleParser "acct-1" sampleConfig
                sampleFailures Hlen) as H.
  cbv zeta in H. destruct H as (Hn & _).
  split; [exact Hlen|]. split; [vm_compute; reflexivity|exact Hn].
Defined.

(** C4 at six failed attempts followed by three further error events. *)
Lemma C4_terminal_after_max_reconnects_witness :
  length (replicate 6 ByErrorEvent) = 6%nat
  ∧ Forall (fun e => is_error_event e = true)
      [ConnError 5; ConnError 0; NoopDone 0 true]
  ∧ terminal_failed
      (run sampleParser [ConnError 5; ConnError 0; NoopDone 0 true]
         (after_failures sampleParser (replicate 6 ByErrorEvent)
            (newAccount "acct-1" sampleConfig))).
Proof.
  assert (H1 : length (replicate 6 ByErrorEvent) = 6%nat) by reflexivity.
  assert (H2 : Forall (fun e => is_error_event e = true)
                 [ConnError 5; ConnError 0; NoopDone 0 true])
    by (repeat constructor).
  pose proof (C4_terminal_after_max_reconnects sampleParser "acct-1" sampleConfig
                (replicate 6 ByErrorEvent)
                [ConnError 5; ConnError 0; NoopDone 0 true]
                emptyManager H1 H2) as H.
  cbv zeta in H. destruct H as (_ & _ & _ & _ & _ & Hf & _).
  split; [exact H1|]. split; [exact H2|exact Hf].
Defined.

(** C7 at "acct-1": started on an empty registry, then 'ready'. *)
Lemma C7_ready_reports_connected_witness :
  getAccountStatus "acct-1"
    (deliver sampleParser 0 (ConnReady 0)
       (startImap "acct-1" sampleConfig ConnectOk emptyManager))
  = Some {| st_isConnected := true; st_reconnectAttempts := 0 |}.
Proof.
  apply (C7_ready_reports_connected sampleParser "acct-1" sampleConfig
           ConnectOk emptyManager [] 0%nat).
  eexists _, _. split_and!; reflexivity.
Defined.

(** C2 (as the code has it) at three signals arriving while a search is
    pending, the second of which finds [idleStop] throwing. *)
Lemma C2_every_signal_starts_a_cycle_witness :
  is_Some (conns sampleSearching !! 0%nat)
  ∧ live_connection sampleSearching = Some 0%nat
  ∧ in_flight (run sampleParser
                 (map (ConnMail 0) [IssueOk; IdleStopThrows; IssueOk])
                 sampleSearching)
    = (in_flight sampleSearching + 2)%nat.
Proof.
  assert (H1 : is_Some (conns sampleSearching !! 0%nat)) by (eexists; reflexivity).
  assert (H2 : live_connection sampleSearching = Some 0%nat) by reflexivity.
  split; [exact H1|]. split; [exact H2|].
  apply (C2_every_signal_starts_a_cycle sampleParser sampleSearching 0 0
           [IssueOk; IdleStopThrows; IssueOk] H1 H2).
Defined.

(** C9 at a search that answers twelve identifiers: ten are fetched. *)
Lemma C9_fetch_last_ten_witness :
  timers_fresh sampleSearching
  ∧ assoc 1%nat (pending sampleSearching) = Some PSearch
  ∧ live_connection sampleSearching = Some 0%nat
  ∧ effects sampleFetching
    = effects sampleSearching
      ++ [EFetch 0 (slice_last10 [1; 2; 3; 4; 5; 6; 7; 8; 9; 10; 11; 12]%N)].
Proof.
  assert (H1 : timers_fresh sampleSearching)
    by (repeat constructor; simpl; lia).
  assert (H2 : assoc 1%nat (pending sampleSearching) = Some PSearch) by reflexivity.
  assert (H3 : live_connection sampleSearching = Some 0%nat) by reflexivity.
  split_and!; try assumption.
  destruct (C9_fetch_last_ten sampleParser sampleSearching 1 0 H1 H2 H3) as [H _].
  apply (H [1; 2; 3; 4; 5; 6; 7; 8; 9; 10; 11; 12]%N). discriminate.
Defined.


(** C10 at a mail without message-id, fetched as number 42. *)
Lemma C10_missing_fields_default_witness :
  sampleParser "hello" = Some
    {| pm_messageId := None; pm_subject := Some "hello"; pm_from := None;
       pm_to := AddrAbsent; pm_cc := AddrAbsent; pm_bcc := AddrAbsent;
       pm_date := None; pm_text := None; pm_html := None;
       pm_attachments := None |}
  ∧ ed_id (emailDoc "acct-1"
             {| pm_messageId := None; pm_subject := Some "hello"; pm_from := None;
                pm_to := AddrAbsent; pm_cc := AddrAbsent; pm_bcc := AddrAbsent;
                pm_date := None; pm_text := None; pm_html := None;
                pm_attachments := None |} 42 0 0) = "acct-1-42".
Proof.
  split; [reflexivity|].
  destruct (C10_missing_fields_default sampleParser "hello" _ 42
              {| tDate := 0; tIndexed := 0; indexOk := true; classifyOk := true |}
              sampleListening eq_refl) as (H & _).
  destruct (H eq_refl) as (Hid & _). exact Hid.
Defined.

(** * Further properties of the synchronisation manager *)

(** ** The registry under start, stop and event delivery *)

Lemma registry_wf_empty : registry_wf emptyManager.
Proof. split; intros *; simpl; rewrite lookup_empty; discriminate. Qed.

Lemma registry_wf_startImap accountId cfg o m :
  registry_wf m → registry_wf (startImap accountId cfg o m).
Proof.
  intros [Hb Hi]. split; simpl.
  - intros i r. rewrite length_app. simpl.
    destruct (decide (accountId = i)) as [->|Hne].
    + rewrite lookup_insert_eq. intros [= <-]. lia.
    + rewrite lookup_insert_ne by exact Hne. intros H. apply Hb in H. lia.
  - intros i j r.
    destruct (decide (accountId = i)) as [Ei|Hi'];
      destruct (decide (accountId = j)) as [Ej|Hj']; subst;
      rewrite ?lookup_insert_eq, ?lookup_insert_ne by assumption.
    + reflexivity.
    + intros [= <-] H. apply Hb in H. lia.
    + intros H [= <-]. apply Hb in H. lia.
    + apply Hi.
Qed.

Lemma registry_wf_stopImap accountId m :
  registry_wf m → registry_wf (stopImap accountId m).
Proof.
  intros [Hb Hi]. unfold stopImap.
  destruct (accounts m !! accountId) as [r|] eqn:Hr; [|split; assumption].
  split; simpl.
  - intros i r'. rewrite length_alter.
    destruct (decide (accountId = i)) as [->|Hne].
    + rewrite lookup_delete_eq. discriminate.
    + rewrite lookup_delete_ne by exact Hne. apply Hb.
  - intros i j r'.
    destruct (decide (accountId = i)) as [<-|Hi'];
      [rewrite lookup_delete_eq; discriminate|].
    destruct (decide (accountId = j)) as [<-|Hj'];
      [rewrite lookup_delete_eq; discriminate|].
    rewrite !lookup_delete_ne by assumption. apply Hi.
Qed.

Lemma registry_wf_deliver simpleParser r e m :
  registry_wf m → registry_wf (deliver simpleParser r e m).
Proof.
  intros [Hb Hi]. split; simpl.
  - intros i r'. rewrite length_alter. apply Hb.
  - apply Hi.
Qed.

Lemma stopImap_heap accountId r m r' :
  accounts m !! accountId = Some r →
  heap (stopImap accountId m) !! r'
  = if decide (r = r') then stop_session <$> heap m !! r' else heap m !! r'.
Proof.
  intros Hr. unfold stopImap. rewrite Hr. simpl.
  destruct (decide (r = r')) as [->|Hne].
  - apply list_lookup_alter_eq.
  - apply list_lookup_alter_ne. exact Hne.
Qed.

Lemma stopImap_unregistered accountId m :
  accounts m !! accountId = None → stopImap accountId m = m.
Proof. intros H. unfold stopImap. rewrite H. reflexivity. Qed.

Lemma stopImap_accounts accountId m k :
  accounts (stopImap accountId m) !! k
  = if decide (accountId = k) then None else accounts m !! k.
Proof.
  unfold stopImap. destruct (accounts m !! accountId) as [r|] eqn:Hr; simpl.
  - destruct (decide (accountId = k)) as [->|Hne].
    + apply lookup_delete_eq.
    + apply lookup_delete_ne. exact Hne.
  - destruct (decide (accountId = k)) as [<-|Hne]; [exact Hr|reflexivity].
Qed.

(** X1. On a well-formed registry [stopImap] removes exactly the given id:
    afterwards its status is absent, stopping it again changes nothing,
    stopping an id that is not registered changes nothing at all, and the
    status of every other id is what it was. *)
Theorem X1_stopImap_removes_only_that_account (accountId : string) (m : Manager) :
  registry_wf m →
  let m' := stopImap accountId m in
  getAccountStatus accountId m' = None
  ∧ stopImap accountId m' = m'
  ∧ (accounts m !! accountId = None → m' = m)
  ∧ (∀ other, other ≠ accountId →
       getAccountStatus other m' = getAccountStatus other m)
  ∧ length (heap m') = length (heap m)
  ∧ registry_wf m'.
Proof.
  intros Hwf m'. subst m'.
  assert (accounts (stopImap accountId m) !! accountId = None) as Hgone.
  { rewrite stopImap_accounts. destruct (decide (accountId = accountId)); congruence. }
  split_and!.
  - unfold getAccountStatus. rewrite Hgone. reflexivity.
  - apply stopImap_unregistered, Hgone.
  - apply stopImap_unregistered.
  - intros other Hne. unfold getAccountStatus. rewrite stopImap_accounts.
    destruct (decide (accountId = other)) as [->|_]; [contradiction|].
    destruct (accounts m !! other) as [r'|] eqn:Ho; [|reflexivity].
    destruct (accounts m !! accountId) as [r|] eqn:Hr.
    + rewrite (stopImap_heap accountId r m r' Hr).
      destruct (decide (r = r')) as [->|_]; [|reflexivity].
      destruct Hwf as [_ Hinj]. exfalso. apply Hne.
      apply (Hinj other accountId r'); assumption.
    + rewrite stopImap_unregistered by exact Hr. reflexivity.
  - unfold stopImap. destruct (accounts m !! accountId); simpl;
      [apply length_alter|reflexivity].
  - apply registry_wf_stopImap, Hwf.
Qed.

Lemma stopAll_from_spec keys : ∀ m,
  registry_wf m → NoDup keys →
  let m' := stopAll_from keys m in
  registry_wf m'
  ∧ (∀ k, accounts m' !! k = if decide (k ∈ keys) then None else accounts m !! k)
  ∧ length (heap m') = length (heap m)
  ∧ (∀ k r, k ∈ keys → accounts m !! k = Some r →
       heap m' !! r = stop_session <$> heap m !! r)
  ∧ (∀ r, (∀ k, k ∈ keys → accounts m !! k ≠ Some r) →
       heap m' !! r = heap m !! r).
Proof.
  induction keys as [|k ks IH]; intros m Hwf Hnd; cbv zeta.
  - simpl. split_and!; auto.
    + intros k r Hk. inversion Hk.
  - apply NoDup_cons in Hnd as [Hk Hnd].
    change (stopAll_from (k :: ks) m) with (stopAll_from ks (stopImap k m)).
    destruct (IH (stopImap k m) (registry_wf_stopImap k m Hwf) Hnd)
      as (Hwf' & Hacc & Hlen & Hstop & Hkeep).
    assert (Hrest : ∀ k', k' ∈ ks → accounts (stopImap k m) !! k' = accounts m !! k').
    { intros k' Hk'. rewrite stopImap_accounts.
      destruct (decide (k = k')) as [->|_]; [contradiction|reflexivity]. }
    split_and!.
    + exact Hwf'.
    + intros k'. rewrite Hacc, stopImap_accounts.
      destruct (decide (k' ∈ k :: ks)) as [Hin'|Hin'];
        destruct (decide (k' ∈ ks)) as [Hin|Hin]; try reflexivity.
      * destruct (decide (k = k')) as [_|Hne]; [reflexivity|].
        apply elem_of_cons in Hin' as [Heq|Hin']; [congruence|contradiction].
      * exfalso. apply Hin'. right. exact Hin.
      * destruct (decide (k = k')) as [Heq|_]; [|reflexivity].
        exfalso. apply Hin'. rewrite Heq. left.
    + rewrite Hlen. unfold stopImap. destruct (accounts m !! k); simpl;
        [apply length_alter|reflexivity].
    + intros k' r Hk' Hr. apply elem_of_cons in Hk' as [->|Hk'].
      * rewrite Hkeep.
        -- rewrite (stopImap_heap k r m r Hr).
           destruct (decide (r = r)); congruence.
        -- intros k'' Hk'' Hr''. rewrite Hrest in Hr'' by exact Hk''.
           destruct Hwf as [_ Hinj].
           assert (k'' = k) as -> by (apply (Hinj k'' k r); assumption).
           contradiction.
      * rewrite (Hstop k' r Hk') by (rewrite Hrest by exact Hk'; exact Hr).
        f_equal. destruct (accounts m !! k) as [r0|] eqn:Hr0.
        -- rewrite (stopImap_heap k r0 m r Hr0).
           destruct (decide (r0 = r)) as [->|_]; [|reflexivity].
           destruct Hwf as [_ Hinj].
           assert (k' = k) as -> by (apply (Hinj k' k r); assumption).
           contradiction.
        -- rewrite stopImap_unregistered by exact Hr0. reflexivity.
    + intros r Hnone. rewrite Hkeep.
      * destruct (accounts m !! k) as [r0|] eqn:Hr0.
        -- rewrite (stopImap_heap k r0 m r Hr0).
           destruct (decide (r0 = r)) as [->|_]; [|reflexivity].
           exfalso. apply (Hnone k); [left|exact Hr0].
        -- rewrite stopImap_unregistered by exact Hr0. reflexivity.
      * intros k' Hk' Hr'. rewrite Hrest in Hr' by exact Hk'.
        apply (Hnone k'); [right; exact Hk'|exact Hr'].
Qed.

(** X2. [stopAll] on a well-formed registry, for every order in which the
    snapshot lists the registered ids: the registry ends up empty, every
    account object that was registered has gone through the stop sequence
    exactly once (timers cleaned up, connection ended when connected), and
    the account objects that were not registered are untouched. *)
Theorem X2_stopAll_stops_every_registered_account (keys : list string) (m : Manager) :
  registry_wf m →
  NoDup keys →
  (∀ k, k ∈ keys ↔ is_Some (accounts m !! k)) →
  let m' := stopAll_from keys m in
  accounts m' = ∅
  ∧ (∀ k, getAccountStatus k m' = None)
  ∧ length (heap m') = length (heap m)
  ∧ (∀ k r, accounts m !! k = Some r →
       heap m' !! r = stop_session <$> heap m !! r)
  ∧ (∀ r, (∀ k, accounts m !! k ≠ Some r) → heap m' !! r = heap m !! r).
Proof.
  intros Hwf Hnd Hkeys m'.
  destruct (stopAll_from_spec keys m Hwf Hnd) as (_ & Hacc & Hlen & Hstop & Hkeep).
  fold m' in Hacc, Hlen, Hstop, Hkeep.
  assert (Hempty : ∀ k, accounts m' !! k = None).
  { intros k. rewrite Hacc. destruct (decide (k ∈ keys)) as [_|Hin]; [reflexivity|].
    destruct (accounts m !! k) eqn:Hk; [|reflexivity].
    exfalso. apply Hin, Hkeys. eauto. }
  split_and!.
  - apply map_eq. intros k. rewrite Hempty, lookup_empty. reflexivity.
  - intros k. unfold getAccountStatus. rewrite Hempty. reflexivity.
  - exact Hlen.
  - intros k r Hr. apply (Hstop k r); [|exact Hr]. apply Hkeys. eauto.
  - intros r Hnone. apply Hkeep. intros k _. apply Hnone.
Qed.

Lemma stopAll_snapshot m :
  NoDup (map fst (map_to_list (accounts m)))
  ∧ (∀ k, k ∈ map fst (map_to_list (accounts m)) ↔ is_Some (accounts m !! k)).
Proof.
  split.
  - apply NoDup_fst_map_to_list.
  - intros k. rewrite list_elem_of_fmap. split.
    + intros ([k' r] & -> & Hin). apply elem_of_map_to_list in Hin. eauto.
    + intros [r Hr]. exists (k, r). split; [reflexivity|].
      apply elem_of_map_to_list. exact Hr.
Qed.

(** ** Invariants of a session *)

Lemma search_after_idleStop_snoc efs e :
  search_after_idleStop efs →
  (∀ c, e = ESearch c → last efs = Some (EIdleStop c)) →
  search_after_idleStop (efs ++ [e]).
Proof.
  intros HP He i c Hi. apply lookup_app_Some in Hi as [Hi|[Hlen Hi]].
  - destruct (HP i c Hi) as (j & -> & Hj). exists j. split; [reflexivity|].
    apply lookup_app_l_Some. exact Hj.
  - destruct (i - length efs)%nat as [|n] eqn:Hn; [|destruct n; discriminate].
    simpl in Hi. injection Hi as ->.
    specialize (He c eq_refl). rewrite last_lookup in He.
    destruct efs as [|x efs']; [discriminate|]. simpl in *.
    exists (length efs'). split; [lia|].
    apply (lookup_app_l_Some (x :: efs')). exact He.
Qed.

Lemma plain_not_search e c : plain e = true → e = ESearch c → False.
Proof. intros H ->. discriminate. Qed.

Ltac proj_simpl :=
  cbn [emit effects account conns timers upd_account set_conns set_timers
       set_pending addPending addTimer set_conn_flags set_isConnected
       set_watchdogTimer set_idleTimer set_reconnectAttempts
       set_reconnectDelay set_connection acct_id config connection
       isConnected reconnectAttempts maxReconnectAttempts reconnectDelay
       watchdogTimer idleTimer].

(** Only the turns of [processEmail] touch the calls under way. *)
Lemma tasks_frame simpleParser e s :
  is_task_event e = false →
  tasks (sess_step simpleParser e s) = tasks s
  ∧ nextTask (sess_step simpleParser e s) = nextTask s.
Proof.
  intros He. destruct e; try discriminate He; simpl;
    unfold on_ready, on_error, on_end, on_timer, watchdog_tick, idle_restart_tick,
      noop_callback, openBox_callback, search_callback, fetchNewEmails,
      connectAccount, handleReconnect, cleanupTimers, startIdleMonitoring,
      startWatchdog, restartIdle, replace_pending, live_connection;
    repeat case_match; simpl; auto.
Qed.

(** Every turn of the event loop keeps the handles of the calls of
    [processEmail] distinct. *)
Lemma tasks_wf_sess_step simpleParser e s :
  tasks_wf s → tasks_wf (sess_step simpleParser e s).
Proof.
  intros H. destruct (is_task_event e) eqn:He.
  - destruct e; try discriminate He; simpl.
    + destruct (assoc f (pending s)) as [[| | |]|]; auto.
      apply tasks_wf_addTask, H.
    + destruct (assoc p (tasks s)) as [[| |]|]; auto.
      unfold processEmail_parsed. destruct (simpleParser rawEmail).
      * apply tasks_wf_replace, H.
      * apply tasks_wf_emit, tasks_wf_drop, H.
    + destruct (assoc p (tasks s)) as [[| |]|]; auto.
      unfold processEmail_indexed. destruct (indexOk io).
      * apply tasks_wf_replace, tasks_wf_emit, H.
      * apply tasks_wf_emit, tasks_wf_drop, H.
    + destruct (assoc p (tasks s)) as [[| |]|]; auto.
      unfold processEmail_classified.
      destruct (classifyOk io); apply tasks_wf_emit, tasks_wf_drop, H.
  - destruct (tasks_frame simpleParser e s He) as [Ht Hn].
    apply (tasks_wf_same s); assumption.
Qed.

Lemma tasks_wf_run simpleParser es s :
  tasks_wf s → tasks_wf (run simpleParser es s).
Proof.
  revert s. induction es as [|e es IH]; intros s H; simpl; [exact H|].
  apply IH, tasks_wf_sess_step, H.
Qed.

Lemma tasks_wf_started o a : tasks_wf (connectAccount o (fresh a)).
Proof.
  apply (tasks_wf_same (fresh a)).
  - destruct o; simpl; unfold handleReconnect, cleanupTimers;
      repeat case_match; reflexivity.
  - destruct o; simpl; unfold handleReconnect, cleanupTimers;
      repeat case_match; reflexivity.
  - split; constructor.
Qed.


Section Soundness.

Variable accountId : string.
Variable cfg : ImapConfig.

Lemma sound_emit e s : plain e = true → sound accountId cfg s → sound accountId cfg (emit e s).
Proof.
  intros Hp (H1 & H2 & H3 & H4 & H5 & H6 & H7 & H8 & H9).
  unfold sound. proj_simpl. split_and!; auto; try lia.
  - rewrite reconnect_delays_app.
    replace (reconnect_delays [e]) with (@nil Z);
      [rewrite app_nil_r; exact H5|].
    destruct e as [| | | | | | | |t [| |] d| | | |]; try reflexivity; discriminate.
  - apply search_after_idleStop_snoc; [exact H6|].
    intros c Hc. exfalso. exact (plain_not_search e c Hp Hc).
  - rewrite indexed_app.
    replace (indexed [e]) with (@nil EmailDocument);
      [rewrite app_nil_r; exact H7|].
    destruct e; try reflexivity; discriminate.
Qed.

Lemma sound_same s s' :
  account s' = account s → effects s' = effects s → conns s' = conns s →
  sound accountId cfg s → sound accountId cfg s'.
Proof.
  intros Ha He Hc. unfold sound, static_fields. rewrite Ha, He, Hc. auto.
Qed.

Lemma sound_set_timers ts s : sound accountId cfg s → sound accountId cfg (set_timers ts s).
Proof. apply sound_same; reflexivity. Qed.

Lemma sound_set_pending ps s : sound accountId cfg s → sound accountId cfg (set_pending ps s).
Proof. apply sound_same; reflexivity. Qed.

Lemma sound_addPending p s : sound accountId cfg s → sound accountId cfg (addPending p s).
Proof. apply sound_same; reflexivity. Qed.

Lemma sound_set_isConnected b s :
  sound accountId cfg s → sound accountId cfg (upd_account (set_isConnected b) s).
Proof. unfold sound, static_fields. proj_simpl. auto. Qed.

Lemma sound_set_watchdogTimer t s :
  sound accountId cfg s → sound accountId cfg (upd_account (set_watchdogTimer t) s).
Proof. unfold sound, static_fields. proj_simpl. auto. Qed.

Lemma sound_set_idleTimer_None s :
  sound accountId cfg s → sound accountId cfg (upd_account (set_idleTimer None) s).
Proof. unfold sound, static_fields. proj_simpl. tauto. Qed.

Lemma sound_disarm c f s :
  (∀ k, c_opts (f k) = c_opts k) → sound accountId cfg s → sound accountId cfg (set_conn_flags c f s).
Proof.
  intros Hf (H1 & H2 & H3 & H4 & H5 & H6 & H7 & H8 & H9).
  unfold sound, set_conn_flags. proj_simpl. split_and!; auto; try lia.
  - apply Forall_lookup. intros i k Hk.
    rewrite list_lookup_alter in Hk. destruct (decide (c = i)) as [->|_].
    + destruct (conns s !! i) as [k0|] eqn:Hk0; [|discriminate].
      simpl in Hk. injection Hk as <-. rewrite Hf.
      exact (proj1 (Forall_lookup _ _) H8 i k0 Hk0).
    + exact (proj1 (Forall_lookup _ _) H8 i k Hk).
  - intros c'. rewrite length_alter. apply H9.
Qed.

Lemma sound_addTimer a d r s :
  a ≠ TReconnect → sound accountId cfg s → sound accountId cfg (addTimer a d r s).
Proof.
  intros Ha Hs. unfold addTimer. apply sound_emit.
  - destruct a; [reflexivity|reflexivity|contradiction].
  - revert Hs. apply sound_same; reflexivity.
Qed.

Lemma sound_clearTimer t s : sound accountId cfg s → sound accountId cfg (clearTimer t s).
Proof.
  intros Hs. unfold clearTimer. apply sound_emit; [reflexivity|].
  apply sound_set_timers, Hs.
Qed.

Lemma sound_cleanupTimers s : sound accountId cfg s → sound accountId cfg (cleanupTimers s).
Proof.
  intros Hs. unfold cleanupTimers.
  destruct (watchdogTimer (account s)); simpl;
    match goal with |- context [idleTimer ?a] => destruct (idleTimer a) end;
    auto using sound_set_idleTimer_None, sound_set_watchdogTimer, sound_clearTimer.
Qed.

Lemma sound_handleReconnect s : sound accountId cfg s → sound accountId cfg (handleReconnect s).
Proof.
  intros Hs. unfold handleReconnect.
  destruct (Z.leb_spec (maxReconnectAttempts (account s))
              (reconnectAttempts (account s))) as [Hle|Hlt].
  - apply sound_emit; [reflexivity|exact Hs].
  - destruct Hs as (H1 & H2 & (Hd & Hm & Hi) & H4 & H5 & H6 & H7 & H8 & H9).
    rewrite Hm in Hlt.
    set (s1 := upd_account
                 (fun a => set_reconnectAttempts (reconnectAttempts a + 1) a) s).
    assert (Hs1 : sound accountId cfg s1).
    { unfold sound, static_fields, s1. proj_simpl. split_and!; auto; lia. }
    pose proof (sound_cleanupTimers s1 Hs1) as Hc.
    assert (Hacc : reconnectDelay (account s1) = INITIAL_RECONNECT_DELAY
                   ∧ reconnectAttempts (account s1)
                     = (reconnectAttempts (account s) + 1)%Z) by (split; [exact Hd|reflexivity]).
    destruct Hacc as [-> ->].
    destruct Hc as (C1 & C2 & C3 & C4 & C5 & C6 & C7 & C8 & C9).
    unfold sound, addTimer. proj_simpl. split_and!; auto; try lia.
    + rewrite reconnect_delays_app. apply Forall_app. split; [exact C5|].
      simpl. constructor; [|constructor].
      exists (reconnectAttempts (account s) + 1 - 1)%Z. split; [lia|reflexivity].
    + apply search_after_idleStop_snoc; [exact C6|]. intros c Hc. discriminate.
    + rewrite indexed_app. simpl. rewrite app_nil_r. exact C7.
Qed.

Lemma sound_connectAccount o s :
  config (account s) = cfg → sound accountId cfg s → sound accountId cfg (connectAccount o s).
Proof.
  intros Hcfg Hs.
  assert (Hnew : sound accountId cfg
            (upd_account (set_connection (Some (length (conns s))))
               (set_conns
                  (conns s ++ [{| c_opts := imapOptions (config (account s));
                                  c_ready := true; c_error := true;
                                  c_end := true |}]) s))).
  { destruct Hs as (H1 & H2 & (Hd & Hm & Hi) & H4 & H5 & H6 & H7 & H8 & H9).
    unfold sound, static_fields. proj_simpl. split_and!; auto; try lia.
    - apply Forall_app. split; [exact H8|]. constructor; [|constructor].
      simpl. rewrite Hcfg. reflexivity.
    - intros c [= <-]. rewrite length_app. simpl. lia. }
  destruct o; simpl.
  - apply sound_emit; [reflexivity|exact Hnew].
  - apply sound_handleReconnect, sound_emit; [reflexivity|exact Hs].
  - apply sound_handleReconnect, sound_emit; [reflexivity|].
    apply sound_emit; [reflexivity|exact Hnew].
Qed.

Lemma sound_restartIdle s : sound accountId cfg s → sound accountId cfg (restartIdle s).
Proof.
  intros Hs. unfold restartIdle. destruct (live_connection s); [|exact Hs].
  apply sound_addTimer; [discriminate|exact Hs].
Qed.

Lemma sound_on_ready s : sound accountId cfg s → sound accountId cfg (on_ready s).
Proof.
  intros Hs. unfold on_ready.
  set (s1 := upd_account _ s).
  assert (Hs1 : sound accountId cfg s1).
  { destruct Hs as (H1 & H2 & (Hd & Hm & Hi) & H4 & H5 & H6 & H7 & H8 & H9).
    unfold sound, static_fields, s1. proj_simpl. split_and!; auto;
      unfold MAX_RECONNECT_ATTEMPTS; lia. }
  unfold startIdleMonitoring.
  assert (Hw : sound accountId cfg (startWatchdog s1)).
  { unfold startWatchdog. apply sound_set_watchdogTimer.
    apply sound_addTimer; [discriminate|exact Hs1]. }
  destruct (live_connection (startWatchdog s1)); [|exact Hw].
  apply sound_addPending, sound_emit; [reflexivity|exact Hw].
Qed.

Lemma last_snoc_effects (efs : list Effect) e : last (efs ++ [e]) = Some e.
Proof. apply last_snoc. Qed.

Lemma sound_fetchNewEmails o s : sound accountId cfg s → sound accountId cfg (fetchNewEmails o s).
Proof.
  intros Hs. unfold fetchNewEmails. destruct (live_connection s) as [c|]; [|exact Hs].
  destruct o.
  - apply sound_addPending.
    pose proof (sound_emit (EIdleStop c) s eq_refl Hs) as Hi.
    destruct Hi as (H1 & H2 & H3 & H4 & H5 & H6 & H7 & H8 & H9).
    unfold sound in *. proj_simpl. cbn [emit effects account conns] in *. split_and!; auto; try lia.
    + rewrite reconnect_delays_app. simpl. rewrite app_nil_r. exact H5.
    + apply search_after_idleStop_snoc; [exact H6|].
      intros c' [= <-]. apply last_snoc_effects.
    + rewrite indexed_app. simpl. rewrite app_nil_r. exact H7.
  - apply sound_restartIdle, sound_emit; [reflexivity|exact Hs].
  - apply sound_restartIdle, sound_emit; [reflexivity|].
    apply sound_emit; [reflexivity|exact Hs].
Qed.

Lemma emailDoc_own_record parsed seqno t1 t2 :
  own_record accountId (emailDoc accountId parsed seqno t1 t2).
Proof.
  unfold own_record. simpl. split_and!; try reflexivity.
  eexists. unfold compositeId. reflexivity.
Qed.

Variable simpleParser : string → option ParsedMail.

Lemma sound_processEmail raw seqno io s :
  sound accountId cfg s → sound accountId cfg (processEmail simpleParser raw seqno io s).
Proof.
  intros Hs. unfold processEmail.
  destruct (simpleParser raw) as [parsed|];
    [|apply sound_emit; [reflexivity|exact Hs]].
  destruct (indexOk io); [|apply sound_emit; [reflexivity|exact Hs]].
  assert (Hd : sound accountId cfg (emit (EIndexed (emailDoc (acct_id (account s)) parsed seqno
                                        (tDate io) (tIndexed io))) s)).
  { destruct Hs as (H1 & H2 & H3 & H4 & H5 & H6 & H7 & H8 & H9).
    unfold sound. proj_simpl. split_and!; auto; try lia.
    - rewrite reconnect_delays_app. simpl. rewrite app_nil_r. exact H5.
    - apply search_after_idleStop_snoc; [exact H6|]. intros c Hc. discriminate.
    - rewrite indexed_app. apply Forall_app. split; [exact H7|].
      simpl. constructor; [|constructor]. rewrite H1. apply emailDoc_own_record. }
  destruct (classifyOk io); apply sound_emit; try reflexivity; exact Hd.
Qed.

Lemma sound_indexed d s :
  own_record accountId d → sound accountId cfg s →
  sound accountId cfg (emit (EIndexed d) s).
Proof.
  intros Hd (H1 & H2 & H3 & H4 & H5 & H6 & H7 & H8 & H9).
  unfold sound. proj_simpl. split_and!; auto; try lia.
  - rewrite reconnect_delays_app. simpl. rewrite app_nil_r. exact H5.
  - apply search_after_idleStop_snoc; [exact H6|]. intros c Hc. discriminate.
  - rewrite indexed_app. apply Forall_app. split; [exact H7|].
    simpl. constructor; [exact Hd|constructor].
Qed.

Lemma sound_set_tasks ts s :
  sound accountId cfg s → sound accountId cfg (set_tasks ts s).
Proof. apply sound_same; reflexivity. Qed.

Lemma sound_throw_unhandled e s :
  sound accountId cfg s → sound accountId cfg (throw_unhandled e s).
Proof. apply sound_same; reflexivity. Qed.

Lemma Forall_replace {A} (P : nat * A → Prop) p v l :
  Forall P l → P (p, v) →
  Forall P (map (fun e => if Nat.eqb (fst e) p then (p, v) else e) l).
Proof.
  intros Hl Hv. induction Hl as [|[k w] l Hx Hl IH]; simpl; [constructor|].
  destruct (Nat.eqb k p); constructor; assumption.
Qed.

Lemma tasks_own_sess_step e s :
  sound accountId cfg s → tasks_own accountId s →
  tasks_own accountId (sess_step simpleParser e s).
Proof.
  intros Hs Ho.
  destruct (is_task_event e) eqn:He.
  - destruct e; try discriminate He; simpl.
    + destruct (assoc f (pending s)) as [[| | |]|]; auto.
      unfold tasks_own. simpl. apply Forall_app. split; [exact Ho|].
      constructor; [|constructor]. intros d io' [=].
    + destruct (assoc p (tasks s)) as [[| |]|]; auto.
      unfold processEmail_parsed. destruct (simpleParser rawEmail).
      * unfold tasks_own, replace_task. simpl. apply Forall_replace; [exact Ho|].
        intros d io' [= <- _]. destruct Hs as (H1 & _). rewrite H1.
        apply emailDoc_own_record.
      * unfold tasks_own, drop_task. simpl. apply Forall_unassoc, Ho.
    + destruct (assoc p (tasks s)) as [[| |]|]; auto.
      unfold processEmail_indexed. destruct (indexOk io).
      * unfold tasks_own, replace_task. simpl. apply Forall_replace; [exact Ho|].
        intros d' io' [=].
      * unfold tasks_own, drop_task. simpl. apply Forall_unassoc, Ho.
    + destruct (assoc p (tasks s)) as [[| |]|]; auto.
      unfold processEmail_classified, tasks_own, drop_task.
      destruct (classifyOk io); simpl; apply Forall_unassoc, Ho.
  - unfold tasks_own. rewrite (proj1 (tasks_frame simpleParser e s He)). exact Ho.
Qed.

Lemma assoc_elem {A} p (v : A) l : assoc p l = Some v → (p, v) ∈ l.
Proof.
  induction l as [|[k w] l IH]; simpl; [discriminate|].
  destruct (Nat.eqb_spec k p) as [->|Hne].
  - intros [= ->]. apply elem_of_cons. left. reflexivity.
  - intros H. apply elem_of_cons. right. exact (IH H).
Qed.

Lemma sound_sess_step e s :
  tasks_own accountId s →
  sound accountId cfg s → sound accountId cfg (sess_step simpleParser e s).
Proof.
  intros Ho Hs.
  assert (Hcfg : config (account s) = cfg) by (destruct Hs as (_ & H & _); exact H).
  destruct e; simpl.
  - destruct (conns s !! c) as [k|]; [destruct (c_ready k)|]; auto.
    apply sound_on_ready, sound_disarm; [reflexivity|exact Hs].
  - destruct (conns s !! c) as [k|]; [destruct (c_error k)|]; auto.
    apply sound_handleReconnect, sound_set_isConnected, sound_emit; [reflexivity|].
    apply sound_disarm; [reflexivity|exact Hs].
  - destruct (conns s !! c) as [k|]; [destruct (c_end k)|]; auto.
    apply sound_cleanupTimers, sound_set_isConnected.
    apply sound_disarm; [reflexivity|exact Hs].
  - destruct (conns s !! c); auto. apply sound_fetchNewEmails, Hs.
  - exact Hs.
  - unfold on_timer. destruct (assoc t (timers s)) as [tm|]; [|exact Hs].
    assert (Hs' : sound accountId cfg (if t_repeat tm then s
                         else set_timers (unassoc t (timers s)) s))
      by (destruct (t_repeat tm); [exact Hs|apply sound_set_timers, Hs]).
    destruct (t_action tm).
    + unfold watchdog_tick. destruct (live_connection _); [|exact Hs'].
      apply sound_addPending, sound_emit; [reflexivity|exact Hs'].
    + unfold idle_restart_tick. destruct (live_connection _); [|exact Hs'].
      apply sound_emit; [reflexivity|exact Hs'].
    + apply sound_connectAccount; [|exact Hs'].
      destruct (t_repeat tm); exact Hcfg.
  - destruct (assoc p (pending s)) as [[| | |]|]; auto.
    destruct err; simpl; [|apply sound_set_pending, Hs].
    apply sound_handleReconnect, sound_set_isConnected, sound_emit; [reflexivity|].
    apply sound_set_pending, Hs.
  - destruct (assoc p (pending s)) as [[| | |]|]; auto.
    unfold openBox_callback. destruct err.
    + apply sound_emit; [reflexivity|]. apply sound_set_pending, Hs.
    + simpl. destruct (connection (account s));
        [apply sound_emit; [reflexivity|]|]; apply sound_set_pending, Hs.
  - destruct (assoc p (pending s)) as [[| | |]|]; auto.
    destruct r as [|[[|x xs]|]]; simpl.
    + apply sound_restartIdle, sound_emit; [reflexivity|].
      apply sound_set_pending, Hs.
    + apply sound_restartIdle, sound_set_pending, Hs.
    + destruct (connection (account s)); [|apply sound_set_pending, Hs].
      apply sound_addPending, sound_emit; [reflexivity|].
      apply sound_set_pending, Hs.
    + apply sound_restartIdle, sound_set_pending, Hs.
  - destruct (assoc f (pending s)) as [[| | |]|]; auto.
  - destruct (assoc f (pending s)) as [[| | |ids [|] en]|]; auto.
    apply sound_emit; [reflexivity|]. unfold replace_pending.
    apply sound_set_pending, Hs.
  - destruct (assoc f (pending s)) as [[| | |ids er [|]]|]; auto.
    apply sound_restartIdle. unfold replace_pending. apply sound_set_pending, Hs.
  - destruct (assoc p (tasks s)) as [[| |]|]; auto.
    unfold processEmail_parsed, replace_task, drop_task.
    destruct (simpleParser rawEmail); [apply sound_set_tasks, Hs|].
    apply sound_emit; [reflexivity|]. apply sound_set_tasks, Hs.
  - destruct (assoc p (tasks s)) as [[|d io|]|] eqn:Hq; auto.
    unfold processEmail_indexed, replace_task, drop_task.
    destruct (indexOk io).
    + apply sound_set_tasks, sound_indexed; [|exact Hs].
      unfold tasks_own in Ho. rewrite Forall_forall in Ho.
      exact (Ho _ (assoc_elem _ _ _ Hq) d io eq_refl).
    + apply sound_emit; [reflexivity|]. apply sound_set_tasks, Hs.
  - destruct (assoc p (tasks s)) as [[| |]|]; auto.
    unfold processEmail_classified, drop_task.
    destruct (classifyOk io); (apply sound_emit; [reflexivity|]);
      apply sound_set_tasks, Hs.
Qed.

Lemma sound_run es s :
  tasks_own accountId s → sound accountId cfg s →
  sound accountId cfg (run simpleParser es s)
  ∧ tasks_own accountId (run simpleParser es s).
Proof.
  revert s. induction es as [|e es IH]; intros s Ho H; simpl; [auto|].
  apply IH; [apply tasks_own_sess_step|apply sound_sess_step]; assumption.
Qed.

End Soundness.

Lemma sound_started accountId cfg o :
  sound accountId (config (newAccount accountId cfg))
    (connectAccount o (fresh (newAccount accountId cfg))).
Proof.
  assert (Hfresh : sound accountId (config (newAccount accountId cfg))
                     (fresh (newAccount accountId cfg))).
  { unfold sound, static_fields, search_after_idleStop. simpl.
    split_and!; try reflexivity; try constructor.
    - unfold MAX_RECONNECT_ATTEMPTS. lia.
    - intros i c H. destruct i; discriminate H.
    - discriminate. }
  exact (sound_connectAccount accountId _ o _ eq_refl Hfresh).
Qed.

Lemma sound_reachable simpleParser accountId cfg o es :
  sound accountId (config (newAccount accountId cfg))
    (run simpleParser es (connectAccount o (fresh (newAccount accountId cfg)))).
Proof.
  apply sound_run; [|apply sound_started].
  destruct o; simpl; unfold tasks_own, handleReconnect, cleanupTimers;
    repeat case_match; simpl; constructor.
Qed.

Lemma backoff_delay_bounds d : backoff_delay d → (1000 ≤ d ≤ 16000)%Z.
Proof.
  intros (k & Hk & ->). unfold MAX_RECONNECT_ATTEMPTS in Hk.
  unfold INITIAL_RECONNECT_DELAY.
  assert (0 < 2 ^ k)%Z by (apply Z.pow_pos_nonneg; lia).
  assert (2 ^ k ≤ 2 ^ 4)%Z by (apply Z.pow_le_mono_r; lia).
  change (2 ^ 4)%Z with 16%Z in *. lia.
Qed.

(** X3. From the moment an account is started and whatever events follow,
    [reconnectAttempts] stays between 0 and 5, the base delay stays 1000 ms
    and the maximum stays 5, and every reconnect timer ever set waits
    [1000 * 2^k] ms for some [0 <= k < 5], so between 1 s and 16 s. *)
Theorem X3_attempts_and_delays_bounded (simpleParser : string → option ParsedMail)
    (accountId : string) (cfg : ImapConfig) (o : ConnectOutcome) (es : list Event) :
  let s := run simpleParser es (connectAccount o (fresh (newAccount accountId cfg))) in
  (0 ≤ reconnectAttempts (account s) ≤ 5)%Z
  ∧ reconnectDelay (account s) = 1000%Z
  ∧ maxReconnectAttempts (account s) = 5%Z
  ∧ Forall (fun d => backoff_delay d ∧ (1000 ≤ d ≤ 16000)%Z)
      (reconnect_delays (effects s)).
Proof.
  cbv zeta.
  destruct (sound_reachable simpleParser accountId cfg o es)
    as (_ & _ & (Hd & Hm & _) & Hb & Hr & _).
  split; [exact Hb|]. split; [exact Hd|]. split; [exact Hm|].
  eapply Forall_impl; [exact Hr|]. intros d Hdel.
  split; [exact Hdel|apply backoff_delay_bounds, Hdel].
Qed.

(** X4. In the trace of every session, each [search] command comes directly
    after an [idleStop] on the same connection: the code never searches
    without having suspended idling first. *)
Theorem X4_search_only_after_idleStop (simpleParser : string → option ParsedMail)
    (accountId : string) (cfg : ImapConfig) (o : ConnectOutcome) (es : list Event) :
  search_after_idleStop
    (effects (run simpleParser es
                (connectAccount o (fresh (newAccount accountId cfg))))).
Proof.
  destruct (sound_reachable simpleParser accountId cfg o es)
    as (_ & _ & _ & _ & _ & H & _). exact H.
Qed.

(** X5. Every record that a session hands to the sink, whatever events
    it went through, carries the session's own account id, the folder
    INBOX, no flags, and an id that starts with the account id and a dash. *)
Theorem X5_sink_receives_own_records (simpleParser : string → option ParsedMail)
    (accountId : string) (cfg : ImapConfig) (o : ConnectOutcome) (es : list Event) :
  Forall (own_record accountId)
    (indexed (effects (run simpleParser es
                         (connectAccount o (fresh (newAccount accountId cfg)))))).
Proof.
  destruct (sound_reachable simpleParser accountId cfg o es)
    as (_ & _ & _ & _ & _ & _ & H & _). exact H.
Qed.

(** X6. Every connection object a session ever creates, the first one and
    those of all reconnects, is built from the same options: user,
    password and host as given to [startImap]; port 993 when the port is
    missing or 0; TLS on unless [tls] is exactly false; and for each of
    the keepalive settings the caller's property when the caller's
    keepalive object has it, even with the value [undefined], and
    otherwise the default 10 s / 5 min / forced NOOP. The connection the
    account points to always exists. *)
Theorem X6_connection_options_fixed (simpleParser : string → option ParsedMail)
    (accountId : string) (cfg : ImapConfig) (o : ConnectOutcome) (es : list Event) :
  let s := run simpleParser es (connectAccount o (fresh (newAccount accountId cfg))) in
  Forall (fun k =>
            io_user (c_opts k) = user cfg
            ∧ io_password (c_opts k) = password cfg
            ∧ io_host (c_opts k) = host cfg
            ∧ io_port (c_opts k)
              = match port cfg with
                | Some p => if decide (p = 0%Z) then 993%Z else p
                | None => 993%Z
                end
            ∧ io_tls (c_opts k)
              = (if decide (tls cfg = Some false) then false else true)
            ∧ ∃ ka, io_keepalive (c_opts k) = Some ka
                ∧ given_or_default 10000%Z (keepalive_given ka_interval cfg)
                    (ka_interval ka)
                ∧ given_or_default 300000%Z (keepalive_given ka_idleInterval cfg)
                    (ka_idleInterval ka)
                ∧ given_or_default true (keepalive_given ka_forceNoop cfg)
                    (ka_forceNoop ka))
    (conns s)
  ∧ (∀ c, connection (account s) = Some c → is_Some (conns s !! c)).
Proof.
  cbv zeta.
  destruct (sound_reachable simpleParser accountId cfg o es)
    as (_ & _ & _ & _ & _ & _ & _ & Hc & Hp).
  split.
  - eapply Forall_impl; [exact Hc|]. intros k ->. simpl. split_and!; try reflexivity.
    + destruct (port cfg) as [p|]; [|reflexivity].
      destruct (Z.eqb_spec p 0); destruct (decide (p = 0%Z)); congruence.
    + destruct (tls cfg) as [[|]|]; reflexivity.
    + eexists. split; [reflexivity|].
      unfold given_or_default, keepalive_given.
      destruct (keepalive cfg) as [[[| |a] [| |b] [| |c]]|]; simpl;
        split_and!; congruence.
  - intros c Hc'. apply lookup_lt_is_Some. apply Hp, Hc'.
Qed.

(** ** What the fetch cycle leaves alone *)

Section Isolation.

Variable simpleParser : string → option ParsedMail.

Lemma fetch_cycle_event_frame e s :
  is_fetch_cycle_event e = true →
  account (sess_step simpleParser e s) = account s
  ∧ conns (sess_step simpleParser e s) = conns s
  ∧ reconnect_delays (effects (sess_step simpleParser e s))
    = reconnect_delays (effects s).
Proof.
  intros He. destruct e; try discriminate He; simpl;
    unfold fetchNewEmails, openBox_callback, search_callback, processEmail_call,
      processEmail_parsed, processEmail_indexed, processEmail_classified,
      restartIdle, replace_pending, live_connection;
    repeat case_match; simpl;
    rewrite ?reconnect_delays_app; simpl; rewrite ?app_nil_r; auto.
Qed.

(** X7. Nothing that happens in the fetch cycle touches the life cycle of
    the session: whatever 'mail' and 'expunge' signals arrive, however the
    mailbox opening, the searches and the fetches end (errors included),
    and whatever messages fail to parse or to be indexed, the account
    record (connected flag, attempt counter, delay, handles) and the
    connections are what they were, and no reconnect is scheduled. *)
Theorem X7_fetch_cycle_leaves_lifecycle_alone (es : list Event) (s : Session) :
  Forall (fun e => is_fetch_cycle_event e = true) es →
  account (run simpleParser es s) = account s
  ∧ conns (run simpleParser es s) = conns s
  ∧ reconnect_delays (effects (run simpleParser es s))
    = reconnect_delays (effects s).
Proof.
  revert s. induction es as [|e es IH]; intros s Hes; simpl; [auto|].
  inversion Hes as [|? ? He Hes']; subst.
  destruct (fetch_cycle_event_frame e s He) as (Ha & Hc & Hd).
  destruct (IH (sess_step simpleParser e s) Hes') as (Ha' & Hc' & Hd').
  split_and!; congruence.
Qed.

(** X8. While the account is marked disconnected, a 'mail' signal, a tick
    of the watchdog, the firing of the idle-restart timer, the end of a
    fetch, a failed search and an empty search result issue no command and
    set no timer, and leave the account record as it is; at most a line is
    logged. *)
Theorem X8_disconnected_account_issues_nothing (e : Event) (s : Session) :
  isConnected (account s) = false →
  is_guarded_event s e = true →
  account (sess_step simpleParser e s) = account s
  ∧ actions (effects (sess_step simpleParser e s)) = actions (effects s)
  ∧ conns (sess_step simpleParser e s) = conns s.
Proof.
  intros Hc He.
  assert (Hl : ∀ s', account s' = account s → live_connection s' = None).
  { intros s' Hs'. unfold live_connection. rewrite Hs', Hc. reflexivity. }
  destruct e; try discriminate He; simpl in *.
  - destruct (conns s !! c); [|auto].
    unfold fetchNewEmails. rewrite (Hl s eq_refl). auto.
  - unfold on_timer. destruct (assoc t (timers s)) as [tm|]; [|auto].
    destruct (t_action tm); [| |discriminate He].
    + unfold watchdog_tick. rewrite Hl by (destruct (t_repeat tm); reflexivity).
      destruct (t_repeat tm); auto.
    + unfold idle_restart_tick. rewrite Hl by (destruct (t_repeat tm); reflexivity).
      destruct (t_repeat tm); auto.
  - destruct (assoc p (pending s)) as [[| | |]|]; auto.
    destruct r as [|[[|x xs]|]]; try discriminate He; simpl;
      unfold restartIdle; rewrite Hl by reflexivity; simpl;
      rewrite ?actions_app; simpl; rewrite ?app_nil_r; auto.
  - destruct (assoc f (pending s)) as [[| | |ids er [|]]|]; auto.
    unfold restartIdle. rewrite Hl by reflexivity. auto.
Qed.

End Isolation.

(** ** Handles of pending callbacks *)

Create HintDb pf.

Lemma pf_same s s' :
  pending s' = pending s → nextReq s' = nextReq s →
  pending_fresh s → pending_fresh s'.
Proof. unfold pending_fresh. intros -> ->. auto. Qed.

Lemma pf_emit e s : pending_fresh s → pending_fresh (emit e s).
Proof. apply pf_same; reflexivity. Qed.

Lemma pf_upd_account f s : pending_fresh s → pending_fresh (upd_account f s).
Proof. apply pf_same; reflexivity. Qed.

Lemma pf_set_conns cs s : pending_fresh s → pending_fresh (set_conns cs s).
Proof. apply pf_same; reflexivity. Qed.

Lemma pf_set_timers ts s : pending_fresh s → pending_fresh (set_timers ts s).
Proof. apply pf_same; reflexivity. Qed.

Lemma pf_addTimer a d r s : pending_fresh s → pending_fresh (addTimer a d r s).
Proof. apply pf_same; reflexivity. Qed.

Lemma pf_clearTimer t s : pending_fresh s → pending_fresh (clearTimer t s).
Proof. apply pf_same; reflexivity. Qed.

Lemma pf_set_tasks ts s : pending_fresh s → pending_fresh (set_tasks ts s).
Proof. apply pf_same; reflexivity. Qed.

Lemma pf_addTask t s : pending_fresh s → pending_fresh (addTask t s).
Proof. apply pf_same; reflexivity. Qed.

Lemma pf_throw_unhandled e s : pending_fresh s → pending_fresh (throw_unhandled e s).
Proof. apply pf_same; reflexivity. Qed.

Lemma pf_remove p s :
  pending_fresh s → pending_fresh (set_pending (unassoc p (pending s)) s).
Proof. unfold pending_fresh. simpl. apply Forall_unassoc. Qed.

Lemma pf_replace p v s : pending_fresh s → pending_fresh (replace_pending p v s).
Proof.
  unfold pending_fresh, replace_pending. simpl. intros H.
  apply Forall_fmap. eapply Forall_impl; [exact H|].
  intros [k w] Hk. simpl in *. destruct (Nat.eqb_spec k p); simpl; [subst|]; exact Hk.
Qed.

Lemma pf_addPending p s : pending_fresh s → pending_fresh (addPending p s).
Proof.
  unfold pending_fresh, addPending. simpl. intros H. apply Forall_app. split.
  - eapply Forall_impl; [exact H|]. simpl. intros; lia.
  - repeat constructor.
Qed.

#[local] Hint Resolve pf_emit pf_upd_account pf_set_conns pf_set_timers
  pf_set_tasks pf_addTask pf_throw_unhandled
  pf_addTimer pf_clearTimer pf_remove pf_replace pf_addPending : pf.

Lemma pf_cleanupTimers s : pending_fresh s → pending_fresh (cleanupTimers s).
Proof.
  intros H. unfold cleanupTimers.
  destruct (watchdogTimer (account s)); simpl;
    match goal with |- context [idleTimer ?a] => destruct (idleTimer a) end;
    auto 10 with pf.
Qed.

#[local] Hint Resolve pf_cleanupTimers : pf.

Lemma pf_handleReconnect s : pending_fresh s → pending_fresh (handleReconnect s).
Proof. intros H. unfold handleReconnect. destruct (_ <=? _)%Z; auto 10 with pf. Qed.

#[local] Hint Resolve pf_handleReconnect : pf.

Lemma pf_connectAccount o s : pending_fresh s → pending_fresh (connectAccount o s).
Proof. intros H. destruct o; simpl; auto 10 with pf. Qed.

Lemma pf_restartIdle s : pending_fresh s → pending_fresh (restartIdle s).
Proof. intros H. unfold restartIdle. destruct (live_connection s); auto with pf. Qed.

#[local] Hint Resolve pf_connectAccount pf_restartIdle : pf.

Section PendingHandles.

Variable simpleParser : string → option ParsedMail.

Lemma pf_sess_step e s :
  pending_fresh s → pending_fresh (sess_step simpleParser e s).
Proof.
  intros H. destruct e; simpl;
    unfold on_ready, on_error, on_end, on_timer, startWatchdog,
      startIdleMonitoring, fetchNewEmails, watchdog_tick, idle_restart_tick,
      noop_callback, openBox_callback, search_callback, processEmail_call,
      processEmail_parsed, processEmail_indexed, processEmail_classified,
      replace_task, drop_task, set_conn_flags;
    repeat case_match; auto 12 with pf.
Qed.

Lemma pf_run es s : pending_fresh s → pending_fresh (run simpleParser es s).
Proof.
  revert s. induction es as [|e es IH]; intros s H; simpl; [exact H|].
  apply IH, pf_sess_step, H.
Qed.

Lemma pf_started o a : pending_fresh (connectAccount o (fresh a)).
Proof. apply pf_connectAccount. constructor. Qed.

End PendingHandles.

(** ** The 'end' of a connection *)

Lemma assoc_unassoc_eq {A} t (l : list (nat * A)) : assoc t (unassoc t l) = None.
Proof.
  induction l as [|[k v] l IH]; simpl; [reflexivity|].
  destruct (Nat.eqb_spec k t) as [->|Hk]; [exact IH|].
  simpl. destruct (Nat.eqb_spec k t); [contradiction|exact IH].
Qed.

Lemma conns_cleanupTimers s : conns (cleanupTimers s) = conns s.
Proof. unfold cleanupTimers. repeat case_match; reflexivity. Qed.

Lemma conns_handleReconnect s : conns (handleReconnect s) = conns s.
Proof.
  unfold handleReconnect. case_match; [reflexivity|].
  unfold addTimer. simpl. rewrite conns_cleanupTimers. reflexivity.
Qed.

Lemma conns_on_ready s : conns (on_ready s) = conns s.
Proof.
  unfold on_ready, startIdleMonitoring. case_match; reflexivity.
Qed.

Lemma assoc_unassoc_Some {A} h t (l : list (nat * A)) v :
  assoc t (unassoc h l) = Some v → assoc t l = Some v.
Proof.
  destruct (decide (h = t)) as [->|Hne].
  - rewrite assoc_unassoc_eq. discriminate.
  - rewrite assoc_unassoc_ne by exact Hne. auto.
Qed.

(** What [cleanupTimers] does and does not touch. *)
Lemma cleanupTimers_spec s :
  let s' := cleanupTimers s in
  watchdogTimer (account s') = None
  ∧ isConnected (account s') = isConnected (account s)
  ∧ reconnectAttempts (account s') = reconnectAttempts (account s)
  ∧ reconnect_delays (effects s') = reconnect_delays (effects s)
  ∧ (∀ t tm, assoc t (timers s') = Some tm → assoc t (timers s) = Some tm)
  ∧ (∀ h, watchdogTimer (account s) = Some h → EClearTimer h ∈ effects s')
  ∧ conns s' = conns s.
Proof.
  cbv zeta. unfold cleanupTimers.
  destruct (watchdogTimer (account s)) as [h|] eqn:Hw; simpl;
    destruct (idleTimer (account s)) as [h'|] eqn:Hi; simpl;
    rewrite ?reconnect_delays_app; simpl; rewrite ?app_nil_r.
  - split_and!; try reflexivity; try assumption.
    + intros t tm Ht. apply assoc_unassoc_Some in Ht.
      apply assoc_unassoc_Some in Ht. exact Ht.
    + intros h0 [= <-]. apply elem_of_app. left. apply elem_of_app. right. left.
  - split_and!; try reflexivity; try assumption.
    + intros t tm Ht. apply assoc_unassoc_Some in Ht. exact Ht.
    + intros h0 [= <-]. apply elem_of_app. right. left.
  - split_and!; try reflexivity; try assumption.
    + intros t tm Ht. apply assoc_unassoc_Some in Ht. exact Ht.
    + intros h0 [=].
  - split_and!; try reflexivity; try assumption.
    + auto.
    + intros h0 [=].
Qed.

Section OnceListeners.

Variable simpleParser : string → option ParsedMail.

(** X10. The 'end' event of any connection whose listener is installed,
    the current one or one that a reconnect has replaced, marks the account
    disconnected and clears the watchdog handle, but it neither raises the
    attempt counter nor schedules a reconnect: no timer is set at all. *)
Theorem X10_end_disconnects_without_reconnect (s : Session) (c : nat) (k : Conn) :
  conns s !! c = Some k →
  c_end k = true →
  let s' := sess_step simpleParser (ConnEnd c) s in
  isConnected (account s') = false
  ∧ watchdogTimer (account s') = None
  ∧ reconnectAttempts (account s') = reconnectAttempts (account s)
  ∧ reconnect_delays (effects s') = reconnect_delays (effects s)
  ∧ (∀ t tm, assoc t (timers s') = Some tm → assoc t (timers s) = Some tm)
  ∧ (∀ h, watchdogTimer (account s) = Some h → EClearTimer h ∈ effects s').
Proof.
  intros Hk He s'. subst s'. simpl. rewrite Hk, He. unfold on_end.
  set (s0 := upd_account (set_isConnected false) (set_conn_flags c disarm_end s)).
  destruct (cleanupTimers_spec s0) as (H1 & H2 & H3 & H4 & H5 & H6 & H7).
  split_and!.
  - rewrite H2. reflexivity.
  - exact H1.
  - rewrite H3. reflexivity.
  - rewrite H4. reflexivity.
  - intros t tm Ht. apply (H5 t tm Ht).
  - intros h Hh. apply H6. exact Hh.
Qed.

End OnceListeners.

(** ** The watchdog probe, mailbox opening and failed searches *)

Section Probes.

Variable simpleParser : string → option ParsedMail.

(** X11. On a connected account a tick of the watchdog interval sends one
    NOOP and keeps the interval running. If the NOOP succeeds nothing else
    happens. If it fails, the account is marked disconnected, the attempt
    counter goes up by one, the watchdog interval is cleared and a
    reconnect is scheduled after [1000 * 2^attempts] ms, [attempts] being
    the counter before the failure. *)
Theorem X11_watchdog_probe (s : Session) (t c : nat) (tm : Timer) (o : ConnectOutcome) :
  pending_fresh s →
  static_fields s →
  (reconnectAttempts (account s) < maxReconnectAttempts (account s))%Z →
  assoc t (timers s) = Some tm →
  t_action tm = TWatchdog →
  t_repeat tm = true →
  live_connection s = Some c →
  let s1 := sess_step simpleParser (TimerFire t o) s in
  let ok := sess_step simpleParser (NoopDone (nextReq s) false) s1 in
  let ko := sess_step simpleParser (NoopDone (nextReq s) true) s1 in
  effects s1 = effects s ++ [ENoop c]
  ∧ timers s1 = timers s
  ∧ account ok = account s ∧ effects ok = effects s1 ∧ timers ok = timers s
  ∧ isConnected (account ko) = false
  ∧ reconnectAttempts (account ko) = (reconnectAttempts (account s) + 1)%Z
  ∧ watchdogTimer (account ko) = None
  ∧ (∀ h, watchdogTimer (account s) = Some h → EClearTimer h ∈ effects ko)
  ∧ reconnect_delays (effects ko)
    = reconnect_delays (effects s)
      ++ [(INITIAL_RECONNECT_DELAY * 2 ^ reconnectAttempts (account s))%Z].
Proof.
  intros Hpf Hst Hlt Ht Ha Hr Hl s1 ok ko.
  assert (Hs1 : s1 = addPending PNoop (emit (ENoop c) s)).
  { subst s1. simpl. unfold on_timer. rewrite Ht, Ha, Hr.
    unfold watchdog_tick. rewrite Hl. reflexivity. }
  assert (Hp : assoc (nextReq s) (pending s1) = Some PNoop).
  { rewrite Hs1. simpl. apply assoc_app_fresh. exact Hpf. }
  assert (Hok : ok = set_pending (unassoc (nextReq s) (pending s1)) s1).
  { subst ok. simpl. rewrite Hp. reflexivity. }
  set (s2 := upd_account (set_isConnected false)
               (emit (ELogError LogNoopFailed)
                  (set_pending (unassoc (nextReq s) (pending s1)) s1))).
  assert (Hko : ko = handleReconnect s2).
  { subst ko. simpl. rewrite Hp. reflexivity. }
  assert (Hst2 : static_fields s2).
  { subst s2. rewrite Hs1. exact Hst. }
  assert (Hlt2 : (reconnectAttempts (account s2) < maxReconnectAttempts (account s2))%Z).
  { subst s2. rewrite Hs1. exact Hlt. }
  destruct (handleReconnect_delay s2 Hst2 Hlt2) as (Hn & Hd).
  rewrite <- Hko in Hn, Hd.
  split_and!.
  - rewrite Hs1. reflexivity.
  - rewrite Hs1. reflexivity.
  - rewrite Hok, Hs1. reflexivity.
  - rewrite Hok. reflexivity.
  - rewrite Hok, Hs1. reflexivity.
  - rewrite Hko. unfold handleReconnect.
    destruct (Z.leb_spec (maxReconnectAttempts (account s2))
                (reconnectAttempts (account s2))); [lia|].
    unfold addTimer. simpl.
    match goal with |- context [cleanupTimers ?x] =>
      destruct (cleanupTimers_spec x) as (_ & -> & _) end.
    reflexivity.
  - rewrite Hn. subst s2. rewrite Hs1. reflexivity.
  - rewrite Hko. unfold handleReconnect.
    destruct (Z.leb_spec (maxReconnectAttempts (account s2))
                (reconnectAttempts (account s2))); [lia|].
    unfold addTimer. simpl.
    match goal with |- context [cleanupTimers ?x] =>
      destruct (cleanupTimers_spec x) as (-> & _) end.
    reflexivity.
  - intros h Hh. rewrite Hko. unfold handleReconnect.
    destruct (Z.leb_spec (maxReconnectAttempts (account s2))
                (reconnectAttempts (account s2))); [lia|].
    unfold addTimer. simpl. apply elem_of_app. left.
    match goal with |- context [cleanupTimers ?x] =>
      destruct (cleanupTimers_spec x) as (_ & _ & _ & _ & _ & Hclr & _) end.
    apply Hclr. subst s2. rewrite Hs1. exact Hh.
  - rewrite Hd, Hn. subst s2. rewrite Hs1. simpl.
    rewrite !reconnect_delays_app. simpl. rewrite !app_nil_r.
    replace (reconnectAttempts (account s) + 1 - 1)%Z
      with (reconnectAttempts (account s)) by lia.
    reflexivity.
Qed.

(** X12. When a search fails on a connected account, the failure is
    logged, no fetch is issued, the account record is untouched, and the
    idle-restart timer is set, on whose firing [idle()] is called again. *)
Theorem X12_failed_search_resumes_idle (s : Session) (p c : nat) :
  timers_fresh s →
  assoc p (pending s) = Some PSearch →
  live_connection s = Some c →
  let s' := sess_step simpleParser (SearchDone p SearchErr) s in
  effects s'
  = effects s ++ [ELogError LogSearchFailed;
                  ESetTimer (nextTimer s) TIdleRestart 1000]
  ∧ account s' = account s
  ∧ ∀ o, effects (sess_step simpleParser (TimerFire (nextTimer s) o) s')
         = effects s' ++ [EIdle c].
Proof.
  intros Hf Hp Hl s'.
  set (s0 := emit (ELogError LogSearchFailed)
               (set_pending (unassoc p (pending s)) s)).
  assert (s' = restartIdle s0) as ->.
  { subst s' s0. simpl. rewrite Hp. reflexivity. }
  pose proof (λ o, restartIdle_resumes simpleParser s0 c o
                     (tf_emit _ _ (tf_set_pending _ _ Hf)) Hl) as H.
  destruct (H ConnectOk) as (Ha & He & _).
  split_and!.
  - rewrite He. subst s0. simpl. rewrite <- app_assoc. reflexivity.
  - rewrite Ha. reflexivity.
  - intros o. apply (H o).
Qed.

(** X13. When a connection emits 'ready', the watchdog interval is set
    and INBOX is opened on the connection the account points to. If the
    opening succeeds [idle()] is called on that connection. If it fails,
    only a line is logged: the account stays marked connected with its
    watchdog running, but [idle()] is not called and nothing is scheduled
    to try again. *)
Theorem X13_ready_opens_inbox_then_idles (s : Session) (c cur : nat) (k : Conn) :
  pending_fresh s →
  conns s !! c = Some k →
  c_ready k = true →
  connection (account s) = Some cur →
  let s1 := sess_step simpleParser (ConnReady c) s in
  let ok := sess_step simpleParser (OpenBoxDone (nextReq s) false) s1 in
  let ko := sess_step simpleParser (OpenBoxDone (nextReq s) true) s1 in
  effects s1
  = effects s ++ [ESetTimer (nextTimer s) TWatchdog WATCHDOG_INTERVAL; EOpenBox cur]
  ∧ effects ok = effects s1 ++ [EIdle cur]
  ∧ effects ko = effects s1 ++ [ELogError LogOpenBoxFailed]
  ∧ timers ko = timers s1
  ∧ account ko = account s1
  ∧ isConnected (account ko) = true.
Proof.
  intros Hpf Hk Hr Hc s1 ok ko.
  assert (Hs1 : s1 = addPending POpenBox
                       (emit (EOpenBox cur)
                          (startWatchdog
                             (upd_account
                                (fun a => set_reconnectDelay INITIAL_RECONNECT_DELAY
                                            (set_reconnectAttempts 0
                                               (set_isConnected true a)))
                                (set_conn_flags c disarm_ready s))))).
  { subst s1. simpl. rewrite Hk, Hr. unfold on_ready, startIdleMonitoring.
    unfold live_connection. simpl. rewrite Hc. reflexivity. }
  assert (Hp : assoc (nextReq s) (pending s1) = Some POpenBox).
  { rewrite Hs1. simpl. apply assoc_app_fresh. exact Hpf. }
  assert (Hcur : connection (account s1) = Some cur).
  { rewrite Hs1. simpl. exact Hc. }
  split_and!.
  - rewrite Hs1. simpl. rewrite <- app_assoc. reflexivity.
  - subst ok. simpl. rewrite Hp. unfold openBox_callback. simpl.
    rewrite Hcur. reflexivity.
  - subst ko. simpl. rewrite Hp. reflexivity.
  - subst ko. simpl. rewrite Hp. reflexivity.
  - subst ko. simpl. rewrite Hp. reflexivity.
  - subst ko. simpl. rewrite Hp. simpl. rewrite Hs1. reflexivity.
Qed.

End Probes.

(** ** Timeouts that no clean-up cancels *)

Lemma assoc_app_ne {A} h t (v : A) l :
  h ≠ t → assoc h (l ++ [(t, v)]) = assoc h l.
Proof.
  intros Hne. induction l as [|[k w] l IH]; simpl.
  - destruct (Nat.eqb_spec t h); [congruence|reflexivity].
  - destruct (Nat.eqb_spec k h); [reflexivity|exact IH].
Qed.

Create HintDb wh.

Lemma wh_same s s' :
  watchdogTimer (account s') = watchdogTimer (account s) →
  timers s' = timers s → nextTimer s' = nextTimer s →
  watchdog_handle_ok s → watchdog_handle_ok s'.
Proof.
  intros Hw Ht Hn (H1 & H2 & H3). unfold watchdog_handle_ok, timers_fresh.
  rewrite Hw, Ht, Hn. auto.
Qed.

Lemma wh_emit e s : watchdog_handle_ok s → watchdog_handle_ok (emit e s).
Proof. apply wh_same; reflexivity. Qed.

Lemma wh_set_conns cs s : watchdog_handle_ok s → watchdog_handle_ok (set_conns cs s).
Proof. apply wh_same; reflexivity. Qed.

Lemma wh_set_pending ps s :
  watchdog_handle_ok s → watchdog_handle_ok (set_pending ps s).
Proof. apply wh_same; reflexivity. Qed.

Lemma wh_addPending p s : watchdog_handle_ok s → watchdog_handle_ok (addPending p s).
Proof. apply wh_same; reflexivity. Qed.

Lemma wh_set_tasks ts s : watchdog_handle_ok s → watchdog_handle_ok (set_tasks ts s).
Proof. apply wh_same; reflexivity. Qed.

Lemma wh_addTask t s : watchdog_handle_ok s → watchdog_handle_ok (addTask t s).
Proof. apply wh_same; reflexivity. Qed.

Lemma wh_throw_unhandled e s :
  watchdog_handle_ok s → watchdog_handle_ok (throw_unhandled e s).
Proof. apply wh_same; reflexivity. Qed.

Lemma wh_set_isConnected b s :
  watchdog_handle_ok s → watchdog_handle_ok (upd_account (set_isConnected b) s).
Proof. apply wh_same; reflexivity. Qed.

Lemma wh_set_connection c s :
  watchdog_handle_ok s → watchdog_handle_ok (upd_account (set_connection c) s).
Proof. apply wh_same; reflexivity. Qed.

Lemma wh_set_idleTimer t s :
  watchdog_handle_ok s → watchdog_handle_ok (upd_account (set_idleTimer t) s).
Proof. apply wh_same; reflexivity. Qed.

Lemma wh_bump s :
  watchdog_handle_ok s →
  watchdog_handle_ok
    (upd_account (fun a => set_reconnectAttempts (reconnectAttempts a + 1) a) s).
Proof. apply wh_same; reflexivity. Qed.

Lemma wh_reset s :
  watchdog_handle_ok s →
  watchdog_handle_ok
    (upd_account (fun a => set_reconnectDelay INITIAL_RECONNECT_DELAY
                             (set_reconnectAttempts 0 (set_isConnected true a))) s).
Proof. apply wh_same; reflexivity. Qed.

Lemma wh_forget s :
  watchdog_handle_ok s → watchdog_handle_ok (upd_account (set_watchdogTimer None) s).
Proof.
  intros (H1 & _ & _). unfold watchdog_handle_ok. simpl.
  split_and!; [exact H1|discriminate|discriminate].
Qed.

Lemma wh_remove t s :
  watchdog_handle_ok s → watchdog_handle_ok (set_timers (unassoc t (timers s)) s).
Proof.
  intros (H1 & H2 & H3). unfold watchdog_handle_ok. simpl. split_and!.
  - apply (tf_remove t s H1).
  - exact H2.
  - intros h tm Hh Ht. apply assoc_unassoc_Some in Ht. apply (H3 h tm Hh Ht).
Qed.

Lemma wh_clearTimer t s : watchdog_handle_ok s → watchdog_handle_ok (clearTimer t s).
Proof. intros H. unfold clearTimer. apply wh_emit, wh_remove, H. Qed.

Lemma wh_addTimer a d r s :
  watchdog_handle_ok s → watchdog_handle_ok (addTimer a d r s).
Proof.
  intros (H1 & H2 & H3). unfold watchdog_handle_ok. split_and!.
  - apply tf_addTimer, H1.
  - simpl. intros h Hh. apply H2 in Hh. lia.
  - simpl. intros h tm Hh Ht. pose proof (H2 h Hh) as Hlt.
    rewrite assoc_app_ne in Ht by lia. apply (H3 h tm Hh Ht).
Qed.

Lemma wh_startWatchdog s : watchdog_handle_ok s → watchdog_handle_ok (startWatchdog s).
Proof.
  intros (H1 & H2 & H3). unfold watchdog_handle_ok, startWatchdog. split_and!.
  - apply tf_upd_account, tf_addTimer, H1.
  - simpl. intros h [= <-]. lia.
  - simpl. intros h tm [= <-] Ht.
    rewrite assoc_app_fresh in Ht by exact H1. injection Ht as <-. reflexivity.
Qed.

#[local] Hint Resolve wh_emit wh_set_conns wh_set_pending wh_addPending
  wh_set_tasks wh_addTask wh_throw_unhandled
  wh_set_isConnected wh_set_connection wh_set_idleTimer wh_bump wh_reset
  wh_forget wh_remove wh_clearTimer wh_addTimer wh_startWatchdog : wh.

Lemma wh_cleanupTimers s : watchdog_handle_ok s → watchdog_handle_ok (cleanupTimers s).
Proof.
  intros H. unfold cleanupTimers.
  destruct (watchdogTimer (account s)); simpl;
    match goal with |- context [idleTimer ?a] => destruct (idleTimer a) end;
    auto 10 with wh.
Qed.

#[local] Hint Resolve wh_cleanupTimers : wh.

Lemma wh_handleReconnect s :
  watchdog_handle_ok s → watchdog_handle_ok (handleReconnect s).
Proof. intros H. unfold handleReconnect. destruct (_ <=? _)%Z; auto 10 with wh. Qed.

#[local] Hint Resolve wh_handleReconnect : wh.

Lemma wh_connectAccount o s :
  watchdog_handle_ok s → watchdog_handle_ok (connectAccount o s).
Proof. intros H. destruct o; simpl; auto 10 with wh. Qed.

Lemma wh_restartIdle s : watchdog_handle_ok s → watchdog_handle_ok (restartIdle s).
Proof. intros H. unfold restartIdle. destruct (live_connection s); auto with wh. Qed.

#[local] Hint Resolve wh_connectAccount wh_restartIdle : wh.

Section Timeouts.

Variable simpleParser : string → option ParsedMail.

Lemma wh_sess_step e s :
  watchdog_handle_ok s → watchdog_handle_ok (sess_step simpleParser e s).
Proof.
  intros H. destruct e; simpl;
    unfold on_ready, on_error, on_end, on_timer,
      startIdleMonitoring, fetchNewEmails, watchdog_tick, idle_restart_tick,
      noop_callback, openBox_callback, search_callback, processEmail_call,
      processEmail_parsed, processEmail_indexed, processEmail_classified,
      replace_task, drop_task, set_conn_flags, replace_pending;
    repeat case_match; auto 12 with wh.
Qed.

Lemma wh_run es s :
  watchdog_handle_ok s → watchdog_handle_ok (run simpleParser es s).
Proof.
  revert s. induction es as [|e es IH]; intros s H; simpl; [exact H|].
  apply IH, wh_sess_step, H.
Qed.

Lemma wh_started o a :
  watchdogTimer a = None → watchdog_handle_ok (connectAccount o (fresh a)).
Proof.
  intros Ha. apply wh_connectAccount. unfold watchdog_handle_ok. simpl.
  rewrite Ha. split_and!; [constructor|discriminate|discriminate].
Qed.

(** X14. In every state a session can reach, the stop sequence of
    [stopImap] (and likewise every [cleanupTimers]) cancels no timeout: a
    reconnect timer or an idle-restart timer that is waiting is still
    waiting afterwards, with the same handle, delay and action. A
    reconnect timer that fires after the stop creates a new connection and
    connects it. *)
Theorem X14_stop_keeps_pending_timeouts (accountId : string) (cfg : ImapConfig)
    (o : ConnectOutcome) (es : list Event) (t : nat) (tm : Timer) :
  let s := run simpleParser es (connectAccount o (fresh (newAccount accountId cfg))) in
  assoc t (timers s) = Some tm →
  t_action tm ≠ TWatchdog →
  assoc t (timers (cleanupTimers s)) = Some tm
  ∧ assoc t (timers (stop_session s)) = Some tm
  ∧ (t_action tm = TReconnect →
       effects (sess_step simpleParser (TimerFire t ConnectOk) (stop_session s))
       = effects (stop_session s) ++ [EConnect (length (conns s))]).
Proof.
  intros s Ht Ha.
  assert (Hwh : watchdog_handle_ok s)
    by (apply wh_run, wh_started; reflexivity).
  assert (Hst : static_fields s)
    by (apply static_run, static_started).
  assert (Hne : watchdogTimer (account s) ≠ Some t).
  { intros Hw. destruct Hwh as (_ & _ & H3). apply Ha, (H3 t tm Hw Ht). }
  pose proof (cleanupTimers_keeps_timeouts s t tm Hst Ht Hne) as Hc.
  assert (Hs : assoc t (timers (stop_session s)) = Some tm).
  { unfold stop_session. destruct (live_connection (cleanupTimers s)); exact Hc. }
  split_and!; [exact Hc|exact Hs|].
  intros Hrec. simpl. unfold on_timer. rewrite Hs, Hrec.
  assert (Hconns : conns (stop_session s) = conns s).
  { unfold stop_session. destruct (live_connection (cleanupTimers s)); simpl;
      apply conns_cleanupTimers. }
  destruct (t_repeat tm); simpl; rewrite Hconns; reflexivity.
Qed.

End Timeouts.

(** * Properties of the collaborators *)

(** ** Array slices *)

Lemma js_slice_window {A} (xs : list A) (a n : Z) :
  (0 ≤ a)%Z → (0 ≤ n)%Z →
  js_slice xs a (a + n) = take (Z.to_nat n) (drop (Z.to_nat a) xs).
Proof.
  intros Ha Hn. unfold js_slice.
  destruct (Z.ltb_spec a 0) as [|_]; [lia|].
  destruct (Z.ltb_spec (a + n) 0) as [|_]; [lia|].
  destruct (Z_le_gt_dec a (Z.of_nat (length xs))) as [Hle|Hgt].
  - rewrite (Z.min_l a) by lia.
    destruct (Z_le_gt_dec (a + n) (Z.of_nat (length xs))) as [Hle'|Hgt'].
    + rewrite Z.min_l by lia. f_equal. lia.
    + rewrite Z.min_r by lia.
      rewrite !take_ge; [reflexivity| |]; rewrite length_drop; lia.
  - rewrite !drop_ge by lia. rewrite !take_nil. reflexivity.
Qed.

(** ** Mock search *)

Section MockSearch.

Variable toLowerCase : string → string.

Lemma filter_all {A} (f : A → bool) l :
  (∀ x, f x = true) → List.filter f l = l.
Proof.
  intros Hf. induction l as [|x l IH]; simpl; [reflexivity|].
  rewrite Hf, IH. reflexivity.
Qed.

(** X15. Mock search pages over the list of matching documents: with a
    non-negative offset and size, the hits are the [size] matches that
    follow the first [from] ones (10 when the size is missing or 0), in
    the order they were indexed, never more than that many; consecutive
    pages put together give the matches of the larger page; [total] counts
    all matches whatever the page; and the empty query matches everything. *)
Theorem X15_mock_search_pages (mockEmails : list EmailDocument) (accountId query : string)
    (from size : Z) :
  (0 ≤ from)%Z → (0 ≤ size)%Z →
  let found := List.filter (Search.matches toLowerCase query) mockEmails in
  let page f z := Search.searchEmails toLowerCase mockEmails accountId query f z in
  let n := if decide (size = 0%Z) then 10%nat else Z.to_nat size in
  Search.hits (page (Some from) (Some size)) = take n (drop (Z.to_nat from) found)
  ∧ (length (Search.hits (page (Some from) (Some size))) ≤ n)%nat
  ∧ Search.hits (page None None) = take 10 found
  ∧ Search.total (page (Some from) (Some size)) = length found
  ∧ (∀ size', (0 < size)%Z → (0 < size')%Z →
       Search.hits (page (Some from) (Some size))
       ++ Search.hits (page (Some (from + size)%Z) (Some size'))
       = Search.hits (page (Some from) (Some (size + size')%Z)))
  ∧ (query = "" → found = mockEmails).
Proof.
  intros Hf Hs found page n.
  assert (Hpage : ∀ f z, (0 ≤ f)%Z → (0 < z)%Z →
            Search.hits (page (Some f) (Some z))
            = take (Z.to_nat z) (drop (Z.to_nat f) found)).
  { intros f z Hf' Hz. unfold page, Search.searchEmails. simpl.
    fold found. unfold num_or.
    destruct (Z.eqb_spec z 0); [lia|].
    destruct (Z.eqb_spec f 0) as [->|_]; apply js_slice_window; lia. }
  assert (Hfirst : Search.hits (page (Some from) (Some size))
                   = take n (drop (Z.to_nat from) found)).
  { subst n. destruct (decide (size = 0%Z)) as [->|Hne].
    - unfold page, Search.searchEmails. simpl. fold found. unfold num_or. simpl.
      destruct (Z.eqb_spec from 0) as [->|_];
        rewrite (js_slice_window found _ 10) by lia; reflexivity.
    - apply Hpage; lia. }
  split_and!.
  - exact Hfirst.
  - rewrite Hfirst, length_take. lia.
  - unfold page, Search.searchEmails. simpl. fold found.
    rewrite (js_slice_window found 0 10) by lia. reflexivity.
  - reflexivity.
  - intros size' Hs1 Hs2. rewrite !Hpage by lia.
    replace (Z.to_nat (from + size)) with (Z.to_nat from + Z.to_nat size)%nat by lia.
    replace (Z.to_nat (size + size')) with (Z.to_nat size + Z.to_nat size')%nat by lia.
    rewrite <- drop_drop. rewrite <- take_take_drop. reflexivity.
  - intros ->. subst found. apply filter_all. intros x. reflexivity.
Qed.

(** X16. In mock mode what [indexEmail] stores, [searchEmails] finds,
    under any account id: after a document is indexed the empty query
    counts one match more, and the page that starts where the store ended
    consists of exactly that document, whatever account the search is
    made for and whatever account the document belongs to. *)
Theorem X16_mock_index_then_search (mockEmails : list EmailDocument)
    (emailDoc : EmailDocument) (accountId : string) (size : Z) :
  (0 ≤ size)%Z →
  let store := Search.indexEmail emailDoc mockEmails in
  let r := Search.searchEmails toLowerCase store accountId ""
             (Some (Z.of_nat (length mockEmails))) (Some size) in
  Search.total r = S (length mockEmails)
  ∧ Search.hits r = [emailDoc]
  ∧ Search.total (Search.searchEmails toLowerCase mockEmails accountId "" None None)
    = length mockEmails.
Proof.
  intros Hs store r.
  assert (Hall : ∀ l, List.filter (Search.matches toLowerCase "") l = l)
    by (intros l; apply filter_all; intros x; reflexivity).
  split_and!.
  - subst r store. unfold Search.searchEmails, Search.indexEmail. simpl.
    rewrite Hall, length_app. simpl. lia.
  - subst r store. unfold Search.searchEmails, Search.indexEmail.
    cbn [Search.hits]. rewrite Hall.
    assert (Hn : (0 < num_or (Some size) 10)%Z).
    { unfold num_or. destruct (Z.eqb_spec size 0); lia. }
    assert (Hk : ∀ k, (0 ≤ k)%Z → k = Z.of_nat (length mockEmails) →
              js_slice (mockEmails ++ [emailDoc]) k (k + num_or (Some size) 10)
              = [emailDoc]).
    { intros k Hk0 ->. rewrite js_slice_window by lia.
      rewrite Nat2Z.id, drop_app_length.
      destruct (Z.to_nat (num_or (Some size) 10)) as [|[|m]] eqn:E;
        [lia|reflexivity|reflexivity]. }
    apply Hk; unfold num_or;
      destruct (Z.eqb_spec (Z.of_nat (length mockEmails)) 0); lia.
  - unfold Search.searchEmails. simpl. rewrite Hall. reflexivity.
Qed.

End MockSearch.

(** ** Back-off delays of the classifier and of the notifier *)

Lemma pow2_le a b : (0 ≤ a ≤ b)%Z → (2 ^ a ≤ 2 ^ b)%Z.
Proof. intros H. apply Z.pow_le_mono_r; lia. Qed.

Lemma pow2_pos a : (0 ≤ a)%Z → (0 < 2 ^ a)%Z.
Proof. intros H. apply Z.pow_pos_nonneg; lia. Qed.

(** X17. The classifier's back-off delay for attempt [a >= 1] is
    [1000 * 2^(a-1)] ms up to attempt 5 (1 s to 16 s) and the cap of 30 s
    from attempt 6 on; it never decreases with the attempt number and
    always lies between 1 s and 30 s. *)
Theorem X17_classifier_backoff_delay (a : Z) :
  (1 ≤ a)%Z →
  ((a ≤ 5)%Z → Classifier.calculateBackoffDelay a = (1000 * 2 ^ (a - 1))%Z)
  ∧ ((6 ≤ a)%Z → Classifier.calculateBackoffDelay a = 30000%Z)
  ∧ (1000 ≤ Classifier.calculateBackoffDelay a ≤ 30000)%Z
  ∧ (∀ b, (a ≤ b)%Z →
       (Classifier.calculateBackoffDelay a ≤ Classifier.calculateBackoffDelay b)%Z).
Proof.
  intros Ha. unfold Classifier.calculateBackoffDelay, Classifier.INITIAL_DELAY,
    Classifier.MAX_DELAY.
  pose proof (pow2_pos (a - 1) ltac:(lia)) as Hpos.
  split; [|split; [|split]].
  - intros H5. pose proof (pow2_le (a - 1) 4 ltac:(lia)) as H.
    change (2 ^ 4)%Z with 16%Z in H. lia.
  - intros H6. pose proof (pow2_le 5 (a - 1) ltac:(lia)) as H.
    change (2 ^ 5)%Z with 32%Z in H. lia.
  - lia.
  - intros b Hb. pose proof (pow2_le (a - 1) (b - 1) ltac:(lia)) as H. lia.
Qed.

(** X18. The notifier's back-off delay for attempt [a >= 1] is
    [1000 * 2^(a-1)] ms up to attempt 4 (1 s to 8 s) and the cap of 10 s
    from attempt 5 on; it never decreases with the attempt number. *)
Theorem X18_notifier_backoff_delay (a : Z) :
  (1 ≤ a)%Z →
  ((a ≤ 4)%Z → Notify.calculateBackoffDelay a = (1000 * 2 ^ (a - 1))%Z)
  ∧ ((5 ≤ a)%Z → Notify.calculateBackoffDelay a = 10000%Z)
  ∧ (1000 ≤ Notify.calculateBackoffDelay a ≤ 10000)%Z
  ∧ (∀ b, (a ≤ b)%Z →
       (Notify.calculateBackoffDelay a ≤ Notify.calculateBackoffDelay b)%Z).
Proof.
  intros Ha. unfold Notify.calculateBackoffDelay, Notify.INITIAL_DELAY,
    Notify.MAX_DELAY.
  pose proof (pow2_pos (a - 1) ltac:(lia)) as Hpos.
  split; [|split; [|split]].
  - intros H4. pose proof (pow2_le (a - 1) 3 ltac:(lia)) as H.
    change (2 ^ 3)%Z with 8%Z in H. lia.
  - intros H5. pose proof (pow2_le 4 (a - 1) ltac:(lia)) as H.
    change (2 ^ 4)%Z with 16%Z in H. lia.
  - lia.
  - intros b Hb. pose proof (pow2_le (a - 1) (b - 1) ltac:(lia)) as H. lia.
Qed.

(** ** Retries of the classifier *)

Section ClassifierRetry.

Variable toLowerCase : string → string.
Variable trim : string → string.
Variable api : Z → Classifier.ApiReply.

Lemma callGemini_more_fuel fuel : ∀ attempt r,
  classifier_call toLowerCase trim api fuel attempt = Some r →
  classifier_call toLowerCase trim api (S fuel) attempt = Some r.
Proof.
  unfold classifier_call.
  induction fuel as [|fuel IH]; intros attempt r; [discriminate|].
  intros H. simpl in H. change (Classifier.callGeminiWithRetry toLowerCase trim
    (S (S fuel)) api attempt) with
    (match Classifier.attempt_once trim (api attempt) with
     | inr text => Some {| Classifier.outcome := inr text; Classifier.slept := [];
                           Classifier.last_attempt := attempt |}
     | inl error =>
         if (Classifier.isRateLimitError toLowerCase error
             && (attempt <? Classifier.MAX_RETRIES)%Z)
            || (Classifier.isTemporaryError toLowerCase error
                && (attempt <? Classifier.MAX_RETRIES)%Z)
         then
           match Classifier.callGeminiWithRetry toLowerCase trim (S fuel) api
                   (attempt + 1) with
           | Some r => Some {| Classifier.outcome := Classifier.outcome r;
                               Classifier.slept :=
                                 Classifier.calculateBackoffDelay attempt
                                 :: Classifier.slept r;
                               Classifier.last_attempt := Classifier.last_attempt r |}
           | None => None
           end
         else Some {| Classifier.outcome := inl error; Classifier.slept := [];
                      Classifier.last_attempt := attempt |}
     end).
  destruct (Classifier.attempt_once trim (api attempt)) as [e|t]; [|exact H].
  destruct (_ || _); [|exact H].
  destruct (Classifier.callGeminiWithRetry toLowerCase trim fuel api (attempt + 1))
    as [r'|] eqn:Hr'; [|discriminate].
  rewrite (IH _ _ Hr'). exact H.
Qed.

Lemma callGemini_spec fuel : ∀ attempt,
  (1 ≤ attempt ≤ 5)%Z → (5 - attempt < Z.of_nat fuel)%Z →
  ∃ r, classifier_call toLowerCase trim api fuel attempt = Some r
       ∧ (attempt ≤ Classifier.last_attempt r ≤ 5)%Z
       ∧ Classifier.slept r
         = map Classifier.calculateBackoffDelay
             (seqZ attempt (Classifier.last_attempt r - attempt))
       ∧ Classifier.outcome r = classifier_attempt trim api (Classifier.last_attempt r)
       ∧ (∀ k, (attempt ≤ k < Classifier.last_attempt r)%Z →
            ∃ e, classifier_attempt trim api k = inl e
                 ∧ classifier_retryable toLowerCase e = true)
       ∧ (∀ e, Classifier.outcome r = inl e →
            Classifier.last_attempt r = 5%Z
            ∨ classifier_retryable toLowerCase e = false).
Proof.
  unfold classifier_call, classifier_attempt, classifier_retryable.
  induction fuel as [|fuel IH]; intros attempt Ha Hf; [lia|].
  simpl. destruct (Classifier.attempt_once trim (api attempt)) as [e|t] eqn:Ho.
  - unfold Classifier.MAX_RETRIES.
    destruct (Z.ltb_spec attempt 5) as [Hlt|Hge];
      destruct (Classifier.isRateLimitError toLowerCase e) eqn:Hr;
      destruct (Classifier.isTemporaryError toLowerCase e) eqn:Ht; simpl.
    1-3: destruct (IH (attempt + 1)%Z ltac:(lia) ltac:(lia))
           as (r & Hcall & Hlast & Hsl & Hout & Hbefore & Hstop);
         rewrite Hcall; eexists; split; [reflexivity|]; simpl;
         (split; [|split; [|split; [|split]]];
          [lia
          |rewrite Hsl, (seqZ_cons attempt) by lia; simpl;
           f_equal; f_equal; f_equal; lia
          |exact Hout
          |intros k Hk; destruct (decide (k = attempt)) as [->|Hne];
           [exists e; rewrite Ho, Hr, Ht; auto|apply Hbefore; lia]
          |exact Hstop]).
    all: eexists; split; [reflexivity|]; simpl;
         rewrite Z.sub_diag; (split; [|split; [|split; [|split]]];
          [lia|reflexivity|rewrite Ho; reflexivity|intros k Hk; lia
          |intros e' [= <-]; rewrite ?Hr, ?Ht; simpl; first [right; reflexivity|left; lia]]).
  - eexists. split; [reflexivity|]. simpl. rewrite Z.sub_diag.
    split; [|split; [|split; [|split]]].
    + lia.
    + reflexivity.
    + rewrite Ho. reflexivity.
    + intros k Hk. lia.
    + intros e [=].
Qed.

(** X19. [callGeminiWithRetry] started at attempt 1 always ends, after at
    most 5 calls of the service. Before the call of attempt [k+1] it sleeps
    [1000 * 2^(k-1)] ms, so the delays are a prefix of 1 s, 2 s, 4 s, 8 s and
    the 30 s cap is never reached. Every attempt before the last one failed
    with a rate-limit or temporary error; the result is that of the last
    attempt, and an error is rethrown only when it is not of these kinds or
    when attempt 5 has been made. *)
Theorem X19_classifier_retries_bounded :
  ∃ r, classifier_call toLowerCase trim api 5 1 = Some r
       ∧ (∀ fuel, (5 ≤ fuel)%nat →
            classifier_call toLowerCase trim api fuel 1 = Some r)
       ∧ (1 ≤ Classifier.last_attempt r ≤ 5)%Z
       ∧ Classifier.slept r
         = take (Z.to_nat (Classifier.last_attempt r - 1)) [1000; 2000; 4000; 8000]%Z
       ∧ Classifier.outcome r = classifier_attempt trim api (Classifier.last_attempt r)
       ∧ (∀ k, (1 ≤ k < Classifier.last_attempt r)%Z →
            ∃ e, classifier_attempt trim api k = inl e
                 ∧ classifier_retryable toLowerCase e = true)
       ∧ (∀ e, Classifier.outcome r = inl e →
            Classifier.last_attempt r = 5%Z
            ∨ classifier_retryable toLowerCase e = false).
Proof.
  destruct (callGemini_spec 5 1%Z ltac:(lia) ltac:(lia))
    as (r & Hcall & Hlast & Hsl & Hout & Hbefore & Hstop).
  exists r. split; [exact Hcall|].
  split; [|split; [exact Hlast|split; [|split; [exact Hout|split; [exact Hbefore|exact Hstop]]]]].
  - intros fuel Hfuel. induction Hfuel as [|fuel Hle IH]; [exact Hcall|].
    apply callGemini_more_fuel, IH.
  - rewrite Hsl.
    assert (Classifier.last_attempt r = 1 ∨ Classifier.last_attempt r = 2
            ∨ Classifier.last_attempt r = 3 ∨ Classifier.last_attempt r = 4
            ∨ Classifier.last_attempt r = 5)%Z as Hcases by lia.
    destruct Hcases as [-> | [-> | [-> | [-> | ->]]]]; reflexivity.
Qed.

End ClassifierRetry.

(** ** Retries of the notifier *)

Section NotifierRetry.

Variable toLowerCase : string → string.

Lemma sendWithRetry_more_fuel (requestFn : Z → option Notify.HttpError) fuel :
  ∀ attempt r,
  Notify.sendWithRetry toLowerCase fuel requestFn attempt = Some r →
  Notify.sendWithRetry toLowerCase (S fuel) requestFn attempt = Some r.
Proof.
  induction fuel as [|fuel IH]; intros attempt r; [discriminate|].
  intros H. simpl in H.
  change (Notify.sendWithRetry toLowerCase (S (S fuel)) requestFn attempt) with
    (match requestFn attempt with
     | None => Some {| Notify.failure := None; Notify.slept := [];
                       Notify.last_attempt := attempt |}
     | Some error =>
         if (attempt <? Notify.MAX_RETRIES)%Z
            && Notify.isRetryableError toLowerCase error
         then
           match Notify.sendWithRetry toLowerCase (S fuel) requestFn (attempt + 1) with
           | Some r => Some {| Notify.failure := Notify.failure r;
                               Notify.slept :=
                                 Notify.calculateBackoffDelay attempt :: Notify.slept r;
                               Notify.last_attempt := Notify.last_attempt r |}
           | None => None
           end
         else Some {| Notify.failure := Some error; Notify.slept := [];
                      Notify.last_attempt := attempt |}
     end).
  destruct (requestFn attempt) as [e|]; [|exact H].
  destruct (_ && _); [|exact H].
  destruct (Notify.sendWithRetry toLowerCase fuel requestFn (attempt + 1))
    as [r'|] eqn:Hr'; [|discriminate].
  rewrite (IH _ _ Hr'). exact H.
Qed.

Lemma sendWithRetry_spec (requestFn : Z → option Notify.HttpError) fuel :
  ∀ attempt,
  (1 ≤ attempt ≤ 3)%Z → (3 - attempt < Z.of_nat fuel)%Z →
  ∃ r, Notify.sendWithRetry toLowerCase fuel requestFn attempt = Some r
       ∧ (attempt ≤ Notify.last_attempt r ≤ 3)%Z
       ∧ Notify.slept r
         = map Notify.calculateBackoffDelay
             (seqZ attempt (Notify.last_attempt r - attempt))
       ∧ Notify.failure r = requestFn (Notify.last_attempt r)
       ∧ (∀ k, (attempt ≤ k < Notify.last_attempt r)%Z →
            ∃ e, requestFn k = Some e
                 ∧ Notify.isRetryableError toLowerCase e = true)
       ∧ (∀ e, Notify.failure r = Some e →
            Notify.last_attempt r = 3%Z
            ∨ Notify.isRetryableError toLowerCase e = false).
Proof.
  induction fuel as [|fuel IH]; intros attempt Ha Hf; [lia|].
  simpl. destruct (requestFn attempt) as [e|] eqn:Ho.
  - unfold Notify.MAX_RETRIES.
    destruct (Z.ltb_spec attempt 3) as [Hlt|Hge];
      destruct (Notify.isRetryableError toLowerCase e) eqn:Hr; simpl.
    1: destruct (IH (attempt + 1)%Z ltac:(lia) ltac:(lia))
         as (r & Hcall & Hlast & Hsl & Hout & Hbefore & Hstop);
       rewrite Hcall; eexists; split; [reflexivity|]; simpl;
       (split; [|split; [|split; [|split]]];
        [lia
        |rewrite Hsl, (seqZ_cons attempt) by lia; simpl;
         f_equal; f_equal; f_equal; lia
        |exact Hout
        |intros k Hk; destruct (decide (k = attempt)) as [->|Hne];
         [exists e; rewrite Ho, Hr; auto|apply Hbefore; lia]
        |exact Hstop]).
    all: eexists; split; [reflexivity|]; simpl;
         rewrite Z.sub_diag; (split; [|split; [|split; [|split]]];
          [lia|reflexivity|rewrite Ho; reflexivity|intros k Hk; lia
          |intros e' [= <-]; rewrite ?Hr; first [right; reflexivity|left; lia]]).
  - eexists. split; [reflexivity|]. simpl. rewrite Z.sub_diag.
    split; [|split; [|split; [|split]]].
    + lia.
    + reflexivity.
    + rewrite Ho. reflexivity.
    + intros k Hk. lia.
    + intros e [=].
Qed.

(** X20. [sendWithRetry] started at attempt 1 always ends, after at most 3
    requests. Before request [k+1] it sleeps [1000 * 2^(k-1)] ms, so the
    delays are a prefix of 1 s, 2 s and the 10 s cap is never reached. Every
    request before the last one failed with a retryable error; the promise
    resolves exactly when the last request does, and rejects with the error
    of the last request, which is either not retryable or that of request
    3. *)
Theorem X20_notifier_retries_bounded (requestFn : Z → option Notify.HttpError) :
  ∃ r, Notify.sendWithRetry toLowerCase 3 requestFn 1 = Some r
       ∧ (∀ fuel, (3 ≤ fuel)%nat →
            Notify.sendWithRetry toLowerCase fuel requestFn 1 = Some r)
       ∧ (1 ≤ Notify.last_attempt r ≤ 3)%Z
       ∧ Notify.slept r
         = take (Z.to_nat (Notify.last_attempt r - 1)) [1000; 2000]%Z
       ∧ Notify.failure r = requestFn (Notify.last_attempt r)
       ∧ (∀ k, (1 ≤ k < Notify.last_attempt r)%Z →
            ∃ e, requestFn k = Some e
                 ∧ Notify.isRetryableError toLowerCase e = true)
       ∧ (∀ e, Notify.failure r = Some e →
            Notify.last_attempt r = 3%Z
            ∨ Notify.isRetryableError toLowerCase e = false).
Proof.
  destruct (sendWithRetry_spec requestFn 3 1%Z ltac:(lia) ltac:(lia))
    as (r & Hcall & Hlast & Hsl & Hout & Hbefore & Hstop).
  exists r. split; [exact Hcall|].
  split; [|split; [exact Hlast|split; [|split; [exact Hout|split; [exact Hbefore|exact Hstop]]]]].
  - intros fuel Hfuel. induction Hfuel as [|fuel Hle IH]; [exact Hcall|].
    apply sendWithRetry_more_fuel, IH.
  - rewrite Hsl.
    assert (Notify.last_attempt r = 1 ∨ Notify.last_attempt r = 2
            ∨ Notify.last_attempt r = 3)%Z as Hcases by lia.
    destruct Hcases as [-> | [-> | ->]]; reflexivity.
Qed.



End NotifierRetry.

(** ** Batches of the classifier *)

Section BatchClassify.

Variable classifyAndUpdateEmail : ClassificationRequest → option Classifier.ClassificationResult.

Lemma batch_arith_more (len i : nat) :
  (i + 5 < len)%nat →
  ((len - i + 4) / 5 - 1 = S ((len - (i + 5) + 4) / 5 - 1))%nat.
Proof.
  intros H.
  pose proof (Nat.div_mod_eq (len - i + 4) 5).
  pose proof (Nat.mod_upper_bound (len - i + 4) 5 ltac:(lia)).
  pose proof (Nat.div_mod_eq (len - (i + 5) + 4) 5).
  pose proof (Nat.mod_upper_bound (len - (i + 5) + 4) 5 ltac:(lia)).
  lia.
Qed.

Lemma batch_arith_last (len i : nat) :
  (i < len)%nat → (len ≤ i + 5)%nat →
  ((len - i + 4) / 5 - 1 = 0)%nat.
Proof.
  intros H1 H2.
  pose proof (Nat.div_mod_eq (len - i + 4) 5).
  pose proof (Nat.mod_upper_bound (len - i + 4) 5 ltac:(lia)).
  lia.
Qed.

Lemma batch_arith_done (len i : nat) :
  (len ≤ i)%nat → ((len - i + 4) / 5 - 1 = 0)%nat.
Proof.
  intros H.
  pose proof (Nat.div_mod_eq (len - i + 4) 5).
  pose proof (Nat.mod_upper_bound (len - i + 4) 5 ltac:(lia)).
  lia.
Qed.

Lemma batchLoop_spec (requests : list ClassificationRequest) (fuel : nat) :
  ∀ (i : nat) (acc : Classifier.BatchRun),
  (length requests - i ≤ fuel)%nat →
  Classifier.batchLoop fuel classifyAndUpdateEmail requests i acc
  = Some {| Classifier.results :=
              Classifier.results acc
              ++ map (fun request =>
                        default Classifier.batchFallback (classifyAndUpdateEmail request))
                   (drop i requests);
            Classifier.classified := Classifier.classified acc ++ drop i requests;
            Classifier.pauses :=
              Classifier.pauses acc
              ++ replicate ((length requests - i + 4) / 5 - 1) 1000%Z |}.
Proof.
  induction fuel as [|fuel IH]; intros i acc Hfuel.
  - change (Classifier.batchLoop 0 classifyAndUpdateEmail requests i acc) with
      (if (i <? length requests)%nat then @None Classifier.BatchRun else Some acc).
    destruct (Nat.ltb_spec i (length requests)) as [Hlt|Hge]; [lia|].
    rewrite drop_ge by lia. rewrite batch_arith_done by lia.
    cbn [map replicate]. rewrite !app_nil_r. destruct acc; reflexivity.
  - change (Classifier.batchLoop (S fuel) classifyAndUpdateEmail requests i acc) with
      (if (i <? length requests)%nat
       then
         let batch := js_slice requests (Z.of_nat i)
                        (Z.of_nat (i + Classifier.batchSize)) in
         let batchResults :=
           map (fun request =>
                  default Classifier.batchFallback (classifyAndUpdateEmail request))
             batch in
         let acc' :=
           {| Classifier.results := Classifier.results acc ++ batchResults;
              Classifier.classified := Classifier.classified acc ++ batch;
              Classifier.pauses :=
                if (i + Classifier.batchSize <? length requests)%nat
                then Classifier.pauses acc ++ [1000%Z] else Classifier.pauses acc |} in
         Classifier.batchLoop fuel classifyAndUpdateEmail requests
           (i + Classifier.batchSize) acc'
       else Some acc).
    unfold Classifier.batchSize.
    destruct (Nat.ltb_spec i (length requests)) as [Hlt|Hge].
    + cbv zeta. rewrite IH by lia. cbn [Classifier.results Classifier.classified
        Classifier.pauses].
      rewrite Nat2Z.inj_add. change (Z.of_nat 5) with 5%Z.
      rewrite js_slice_window by lia. rewrite Nat2Z.id.
      change (Z.to_nat 5) with 5%nat.
      rewrite <- (drop_drop requests 5 i).
      rewrite <- !app_assoc, <- map_app, take_drop.
      f_equal. f_equal.
      destruct (Nat.ltb_spec (i + 5) (length requests)) as [Hmore|Hlast].
      * rewrite (batch_arith_more _ _ Hmore). rewrite <- app_assoc. reflexivity.
      * rewrite (batch_arith_last (length requests) i) by lia.
        rewrite (batch_arith_done (length requests) (i + 5)) by lia. reflexivity.
    + rewrite drop_ge by lia. rewrite batch_arith_done by lia.
      cbn [map replicate]. rewrite !app_nil_r. destruct acc; reflexivity.
Qed.

(** X22. [batchClassifyEmails] always returns, with one result per request
    and in the order of the requests: the classification of the request,
    or the fallback (Follow Up, 0.5, Classification failed) when its
    classification was rejected. Every request is handed to the classifier
    exactly once, in order, and the only pauses are one of 1000 ms between
    two consecutive batches of five: none after the last batch, none for an
    empty list. *)
Theorem X22_batch_one_result_per_request (requests : list ClassificationRequest) :
  Classifier.batchClassifyEmails classifyAndUpdateEmail requests
  = Some {| Classifier.results :=
              map (fun request =>
                     default Classifier.batchFallback (classifyAndUpdateEmail request))
                requests;
            Classifier.classified := requests;
            Classifier.pauses :=
              replicate ((length requests + 4) / 5 - 1) 1000%Z |}.
Proof.
  unfold Classifier.batchClassifyEmails.
  rewrite batchLoop_spec by lia. simpl.
  rewrite Nat.sub_0_r. reflexivity.
Qed.

End BatchClassify.

(** * The further properties at concrete inputs *)

(** X1 at the registry of "acct-1" and "acct-2": stopping "acct-1" leaves
    the status of "acct-2" as it was. *)
Lemma X1_stopImap_removes_only_that_account_witness :
  registry_wf sampleManager
  ∧ getAccountStatus "acct-1" (stopImap "acct-1" sampleManager) = None
  ∧ getAccountStatus "acct-2" (stopImap "acct-1" sampleManager)
    = getAccountStatus "acct-2" sampleManager.
Proof.
  assert (H : registry_wf sampleManager)
    by (apply registry_wf_startImap, registry_wf_startImap, registry_wf_empty).
  pose proof (X1_stopImap_removes_only_that_account "acct-1" sampleManager H) as HX.
  cbv zeta in HX. destruct HX as (Hnone & _ & _ & Hother & _).
  split; [exact H|]. split; [exact Hnone|]. apply Hother. discriminate.
Defined.

(** X2 at the registry of "acct-1" and "acct-2": [stopAll] empties it. *)
Lemma X2_stopAll_stops_every_registered_account_witness :
  registry_wf sampleManager
  ∧ NoDup ["acct-2"; "acct-1"]
  ∧ (∀ k, k ∈ ["acct-2"; "acct-1"] ↔ is_Some (accounts sampleManager !! k))
  ∧ accounts (stopAll_from ["acct-2"; "acct-1"] sampleManager) = ∅.
Proof.
  assert (H1 : registry_wf sampleManager)
    by (apply registry_wf_startImap, registry_wf_startImap, registry_wf_empty).
  assert (H2 : NoDup ["acct-2"; "acct-1"]).
  { apply NoDup_cons. split.
    - rewrite elem_of_cons, elem_of_nil. intros [[=]|[]].
    - apply NoDup_cons. split; [rewrite elem_of_nil; tauto|apply NoDup_nil_2]. }
  assert (H3 : ∀ k, k ∈ ["acct-2"; "acct-1"] ↔ is_Some (accounts sampleManager !! k)).
  { intros k. simpl. rewrite !elem_of_cons, elem_of_nil.
    rewrite !lookup_insert_is_Some', lookup_empty, <- not_eq_None_Some.
    split; [intros [->|[->|[]]]; auto|intros [<-|[<-|Hn]]; auto; congruence]. }
  pose proof (X2_stopAll_stops_every_registered_account _ _ H1 H2 H3) as HX.
  cbv zeta in HX. destruct HX as (Hempty & _).
  split; [exact H1|]. split; [exact H2|]. split; [exact H3|exact Hempty].
Defined.

(** X7 at a 'mail' event followed by a failed search on the listening
    account. *)
Lemma X7_fetch_cycle_leaves_lifecycle_alone_witness :
  Forall (fun e => is_fetch_cycle_event e = true)
    [ConnMail 0 IssueOk; SearchDone 1 SearchErr]
  ∧ account (run sampleParser [ConnMail 0 IssueOk; SearchDone 1 SearchErr]
               sampleListening)
    = account sampleListening.
Proof.
  assert (H : Forall (fun e => is_fetch_cycle_event e = true)
                [ConnMail 0 IssueOk; SearchDone 1 SearchErr])
    by (repeat constructor).
  split; [exact H|].
  apply (X7_fetch_cycle_leaves_lifecycle_alone sampleParser _ sampleListening H).
Defined.

(** X8 at a 'mail' event on an account that was stopped and whose
    connection has ended. *)
Lemma X8_disconnected_account_issues_nothing_witness :
  isConnected (account (sess_step sampleParser (ConnEnd 0)
                          (stop_session sampleListening))) = false
  ∧ actions (effects (sess_step sampleParser (ConnMail 0 IssueOk)
                        (sess_step sampleParser (ConnEnd 0)
                           (stop_session sampleListening))))
    = actions (effects (sess_step sampleParser (ConnEnd 0)
                          (stop_session sampleListening))).
Proof.
  split; [reflexivity|].
  apply (X8_disconnected_account_issues_nothing sampleParser (ConnMail 0 IssueOk)
           (sess_step sampleParser (ConnEnd 0) (stop_session sampleListening))
           eq_refl eq_refl).
Defined.

(** X11 at the watchdog of the listening account. *)
Lemma X11_watchdog_probe_witness :
  assoc 0%nat (timers sampleListening)
  = Some {| t_action := TWatchdog; t_delay := WATCHDOG_INTERVAL; t_repeat := true |}
  ∧ live_connection sampleListening = Some 0%nat
  ∧ effects (sess_step sampleParser (TimerFire 0 ConnectOk) sampleListening)
    = effects sampleListening ++ [ENoop 0]
  ∧ reconnect_delays
      (effects (sess_step sampleParser (NoopDone 1 true)
                  (sess_step sampleParser (TimerFire 0 ConnectOk) sampleListening)))
    = [1000].
Proof.
  assert (H1 : pending_fresh sampleListening) by constructor.
  assert (H2 : static_fields sampleListening) by (repeat split).
  assert (H3 : (reconnectAttempts (account sampleListening)
                < maxReconnectAttempts (account sampleListening))%Z)
    by reflexivity.
  assert (H4 : assoc 0%nat (timers sampleListening)
               = Some {| t_action := TWatchdog; t_delay := WATCHDOG_INTERVAL;
                         t_repeat := true |}) by reflexivity.
  assert (H5 : live_connection sampleListening = Some 0%nat) by reflexivity.
  pose proof (X11_watchdog_probe sampleParser sampleListening 0 0 _ ConnectOk
                H1 H2 H3 H4 eq_refl eq_refl H5) as HX.
  cbv zeta in HX.
  destruct HX as (Hnoop & _ & _ & _ & _ & _ & _ & _ & _ & Hdelays).
  split; [exact H4|]. split; [exact H5|]. split; [exact Hnoop|exact Hdelays].
Defined.

(** X10 at the 'end' event of the listening account's connection. *)
Lemma X10_end_disconnects_without_reconnect_witness :
  (c_end <$> conns sampleListening !! 0%nat) = Some true
  ∧ isConnected (account (sess_step sampleParser (ConnEnd 0) sampleListening)) = false
  ∧ reconnect_delays (effects (sess_step sampleParser (ConnEnd 0) sampleListening))
    = reconnect_delays (effects sampleListening).
Proof.
  split; [reflexivity|].
  pose proof (X10_end_disconnects_without_reconnect sampleParser sampleListening 0 _
                eq_refl eq_refl) as HX.
  cbv zeta in HX. destruct HX as (Hc & _ & _ & Hd & _).
  split; [exact Hc|exact Hd].
Defined.

(** X12 at the search pending on "acct-1". *)
Lemma X12_failed_search_resumes_idle_witness :
  timers_fresh sampleSearching
  ∧ assoc 1%nat (pending sampleSearching) = Some PSearch
  ∧ live_connection sampleSearching = Some 0%nat
  ∧ effects (sess_step sampleParser (SearchDone 1 SearchErr) sampleSearching)
    = effects sampleSearching
      ++ [ELogError LogSearchFailed; ESetTimer 1 TIdleRestart 1000].
Proof.
  assert (H1 : timers_fresh sampleSearching)
    by (repeat constructor; simpl; lia).
  assert (H2 : assoc 1%nat (pending sampleSearching) = Some PSearch) by reflexivity.
  assert (H3 : live_connection sampleSearching = Some 0%nat) by reflexivity.
  pose proof (X12_failed_search_resumes_idle sampleParser sampleSearching 1 0
                H1 H2 H3) as HX.
  cbv zeta in HX. destruct HX as (He & _).
  split; [exact H1|]. split; [exact H2|]. split; [exact H3|exact He].
Defined.

(** X13 at the 'ready' event of the connection that [startImap] opened. *)
Lemma X13_ready_opens_inbox_then_idles_witness :
  (c_ready <$> conns (connectAccount ConnectOk
                        (fresh (newAccount "acct-1" sampleConfig))) !! 0%nat)
  = Some true
  ∧ effects sampleListening
    = [EConnect 0; ESetTimer 0 TWatchdog WATCHDOG_INTERVAL; EOpenBox 0; EIdle 0].
Proof.
  split; [reflexivity|].
  pose proof (X13_ready_opens_inbox_then_idles sampleParser
                (connectAccount ConnectOk (fresh (newAccount "acct-1" sampleConfig)))
                0 0 _ (pf_started _ _) eq_refl eq_refl eq_refl) as HX.
  cbv zeta in HX. destruct HX as (H1 & H2 & _).
  etransitivity; [exact H2|]. rewrite H1. reflexivity.
Defined.

(** X14 at the idle-restart timeout that is waiting when "acct-1" is
    stopped. *)
Lemma X14_stop_keeps_pending_timeouts_witness :
  assoc 1%nat
    (timers (run sampleParser sampleIdleRestartEvents
               (connectAccount ConnectOk (fresh (newAccount "acct-1" sampleConfig)))))
  = Some {| t_action := TIdleRestart; t_delay := 1000; t_repeat := false |}
  ∧ assoc 1%nat
      (timers (stop_session
                 (run sampleParser sampleIdleRestartEvents
                    (connectAccount ConnectOk
                       (fresh (newAccount "acct-1" sampleConfig))))))
    = Some {| t_action := TIdleRestart; t_delay := 1000; t_repeat := false |}.
Proof.
  split; [reflexivity|].
  pose proof (X14_stop_keeps_pending_timeouts sampleParser "acct-1" sampleConfig
                ConnectOk sampleIdleRestartEvents 1
                {| t_action := TIdleRestart; t_delay := 1000; t_repeat := false |})
    as HX.
  cbv zeta in HX. destruct (HX eq_refl ltac:(discriminate)) as (_ & Hstop & _).
  exact Hstop.
Defined.

(** X17 at the third attempt: 4 s. *)
Lemma X17_classifier_backoff_delay_witness :
  (1 ≤ 3)%Z ∧ Classifier.calculateBackoffDelay 3 = 4000.
Proof.
  assert (H : (1 ≤ 3)%Z) by lia.
  split; [exact H|].
  destruct (X17_classifier_backoff_delay 3 H) as (Hd & _).
  apply Hd. lia.
Defined.

(** X18 at the fifth attempt: capped at 10 s. *)
Lemma X18_notifier_backoff_delay_witness :
  (1 ≤ 5)%Z ∧ Notify.calculateBackoffDelay 5 = 10000.
Proof.
  assert (H : (1 ≤ 5)%Z) by lia.
  split; [exact H|].
  destruct (X18_notifier_backoff_delay 5 H) as (_ & Hd & _).
  apply Hd. lia.
Defined.

(** X15 at the second page of size 1 of a store of three records. *)
Lemma X15_mock_search_pages_witness :
  (0 ≤ 1)%Z
  ∧ Search.hits (Search.searchEmails (fun s => s) sampleStore "acct-1" "invoice"
                   (Some 1) (Some 1))
    = [sampleDoc "invoice again" 3].
Proof.
  assert (H : (0 ≤ 1)%Z) by lia.
  split; [exact H|].
  pose proof (X15_mock_search_pages (fun s => s) sampleStore "acct-1" "invoice"
                1 1 H H) as HX.
  cbv zeta in HX. destruct HX as (Hhits & _).
  etransitivity; [exact Hhits|]. reflexivity.
Defined.

(** X16 at a record indexed into a store of three. *)
Lemma X16_mock_index_then_search_witness :
  (0 ≤ 5)%Z
  ∧ Search.hits (Search.searchEmails (fun s => s)
                   (Search.indexEmail (sampleDoc "offer" 4) sampleStore)
                   "acct-1" "" (Some 3) (Some 5))
    = [sampleDoc "offer" 4].
Proof.
  assert (H : (0 ≤ 5)%Z) by lia.
  split; [exact H|].
  pose proof (X16_mock_index_then_search (fun s => s) sampleStore
                (sampleDoc "offer" 4) "acct-1" 5 H) as HX.
  cbv zeta in HX. destruct HX as (_ & Hhits & _). exact Hhits.
Defined.
